(** * SFS Modding Guide: the API documentation generator

    A shallow embedding of the TypeScript sources of the documentation
    pipeline (api-generation/sidecars.ts, api-generation/manifest.ts,
    api-generation/types.ts, api-generation/page-generation/utils.ts,
    api-generation/page-generation/page-type/namespace.ts and the
    file-structure generator) together with the properties of its
    specification.

    Conventions of the embedding:
    - a TypeScript [Record<K, V>] read with [obj[k]] is a finite map
      [gmap K V]; a lookup that yields [undefined] is [None];
    - an optional field [f?: T] is an [option T]; an optional boolean
      flag that is only ever tested for truthiness is a [bool];
    - JavaScript strings are [string]s of 8-bit characters;
    - an optional order hint [order?: number] is an [option Z];
    - file-system calls are recorded in a log, exceptions are explicit;
    - paths are joined as the POSIX flavour of Node's [path] module
      joins them. *)

From Stdlib Require Import ZArith Ascii String Sorting.Sorted Sorting.Permutation.
From stdpp Require Import base gmap strings list pretty.

Set Warnings "-register-all".

Definition UID := string.

(** JavaScript truthiness of a possibly undefined string: defined and
    non-empty. *)
Definition truthyString (o : option string) : bool :=
  match o with
  | Some EmptyString => false
  | Some _ => true
  | None => false
  end.

(** [a || b] on a possibly undefined string [a] and a string [b]. *)
Definition orElse (o : option string) (d : string) : string :=
  if truthyString o then default d o else d.

(* ================================================================== *)
(** ** sidecars.ts: the data model *)

Module SidecarSection.
Record t := mk {
  heading : string;
  content : string;
  order : option Z
}.
End SidecarSection.
Abbreviation SidecarSection := SidecarSection.t.

Module SidecarEntry.
Record t := mk {
  description : option string;
  sections : option (list SidecarSection);
  seeAlso : option (list UID)
}.
End SidecarEntry.
Abbreviation SidecarEntry := SidecarEntry.t.

Module SidecarCollection.
Record t := mk {
  version : string;
  entries : gmap UID SidecarEntry;
  snippets : option (gmap string string);
  templates : option (gmap string (list SidecarSection))
}.
End SidecarCollection.
Abbreviation SidecarCollection := SidecarCollection.t.

Module StandardHeadings.
Definition REMARKS : string := "Remarks".
Definition EXAMPLES : string := "Examples".
Definition EXCEPTIONS : string := "Exceptions".
Definition THREAD_SAFETY : string := "Thread Safety".
Definition PERFORMANCE : string := "Performance Considerations".
Definition SEE_ALSO : string := "See Also".
End StandardHeadings.

(* ================================================================== *)
(** ** sidecars.ts: utility functions *)

Definition getSidecar (collection : SidecarCollection) (uid : UID)
  : option SidecarEntry :=
  SidecarCollection.entries collection !! uid.

(** [entry.sections?.find((s) => s.heading === heading)] *)
Definition getSection (entry : SidecarEntry) (heading : string)
  : option SidecarSection :=
  match SidecarEntry.sections entry with
  | Some ss => snd <$> list_find (λ s, SidecarSection.heading s = heading) ss
  | None => None
  end.

(** The comparator handed to [Array.prototype.sort]. *)
Definition compareSections (a b : SidecarSection) : Z :=
  match SidecarSection.order a, SidecarSection.order b with
  | Some x, Some y => (x - y)%Z
  | Some _, None => (-1)%Z
  | None, Some _ => 1%Z
  | None, None => 0%Z
  end.

(** [Array.prototype.sort] is a stable sort: an element moves in front
    of another one only when the comparator is positive on the pair.
    It is modelled by the stable insertion sort below. *)
Fixpoint sortInsert {A} (cmp : A → A → Z) (x : A) (l : list A) : list A :=
  match l with
  | [] => [x]
  | y :: l' => if (cmp x y <=? 0)%Z then x :: y :: l'
               else y :: sortInsert cmp x l'
  end.

Definition jsSort {A} (cmp : A → A → Z) (l : list A) : list A :=
  foldr (sortInsert cmp) [] l.

Definition getSectionsInOrder (entry : SidecarEntry) : list SidecarSection :=
  match SidecarEntry.sections entry with
  | None => []
  | Some ss =>
      jsSort compareSections
        (filter (λ s, SidecarSection.heading s ≠ StandardHeadings.SEE_ALSO) ss)
  end.

(** *** The regular expression [/\{snippet:(\w+)\}/g] *)

Definition isDigit (c : ascii) : bool :=
  let n := nat_of_ascii c in (48 <=? n) && (n <=? 57).

Definition isWordChar (c : ascii) : bool :=
  let n := nat_of_ascii c in
  ((48 <=? n) && (n <=? 57)) || ((65 <=? n) && (n <=? 90))
  || ((97 <=? n) && (n <=? 122)) || (n =? 95).

(** The longest prefix of word characters and what follows it. *)
Fixpoint spanWord (s : string) : string * string :=
  match s with
  | EmptyString => (EmptyString, EmptyString)
  | String c s' =>
      if isWordChar c
      then let '(w, r) := spanWord s' in (String c w, r)
      else (EmptyString, s)
  end.

(** [stripPrefix p s] is the rest of [s] after its prefix [p]. *)
Fixpoint stripPrefix (p s : string) : option string :=
  match p, s with
  | EmptyString, _ => Some s
  | String a p', String b s' =>
      if Ascii.eqb a b then stripPrefix p' s' else None
  | String _ _, EmptyString => None
  end.

(** A match of the expression at the start of [s]: the captured name.
    The greedy [\w+] takes the longest run of word characters, and no
    shorter run can be followed by the closing brace. *)
Definition matchSnippet (s : string) : option string :=
  match stripPrefix "{snippet:" s with
  | Some r =>
      match spanWord r with
      | (EmptyString, _) => None
      | (name, String "}" _) => Some name
      | _ => None
      end
  | None => None
  end.

(** The text of a match with captured name [name]. *)
Definition snippetRef (name : string) : string :=
  "{snippet:" +:+ name +:+ "}".

(** [content.replace(re, f)] for the global expression above: matches
    are searched from left to right, a match is replaced by [f match name]
    and the search goes on behind it; [skip] counts the characters of
    the current match that are still to be passed over. *)
Fixpoint replaceSnippets (f : string → string → string) (skip : nat)
  (s : string) : string :=
  match s with
  | EmptyString => EmptyString
  | String c s' =>
      match skip with
      | S k => replaceSnippets f k s'
      | O =>
          match matchSnippet s with
          | Some name =>
              f (snippetRef name) name
              +:+ replaceSnippets f (String.length (snippetRef name) - 1) s'
          | None => String c (replaceSnippets f 0 s')
          end
      end
  end.

(** The property names that every JavaScript object inherits from
    [Object.prototype]: an object used as a map answers for them without
    holding them. *)
Definition inheritedKeys : list string :=
  ["constructor"; "hasOwnProperty"; "isPrototypeOf"; "propertyIsEnumerable";
   "toLocaleString"; "toString"; "valueOf"; "__proto__"; "__defineGetter__";
   "__defineSetter__"; "__lookupGetter__"; "__lookupSetter__"].

(** What the callback of [replace] returns is turned into a string: of
    an inherited property this is the text of the function [Object]
    for [constructor], of the prototype object for [__proto__], and of
    the method of that name otherwise. *)
Definition inheritedText (name : string) : option string :=
  if String.eqb name "constructor" then Some "function Object() { [native code] }"
  else if String.eqb name "__proto__" then Some "[object Object]"
  else if bool_decide (name ∈ inheritedKeys)
       then Some ("function " +:+ name +:+ "() { [native code] }")
       else None.

(** [snippets[name]]: an own key of the record, or else a property that
    the record inherits. *)
Definition readSnippet (snippets : gmap string string) (name : string)
  : option string :=
  match snippets !! name with
  | Some text => Some text
  | None => inheritedText name
  end.

Definition resolveSnippets (content : string) (collection : SidecarCollection)
  : string :=
  match SidecarCollection.snippets collection with
  | None => content
  | Some snippets =>
      replaceSnippets (λ match_ name, orElse (readSnippet snippets name) match_)
        0 content
  end.

Definition expandTemplate (collection : SidecarCollection) (templateName : string)
  : option (list SidecarSection) :=
  match SidecarCollection.templates collection with
  | Some ts => ts !! templateName
  | None => None
  end.

Definition hasDocumentation (entry : SidecarEntry) : bool :=
  truthyString (SidecarEntry.description entry)
  || match SidecarEntry.sections entry with
     | Some ss => (0 <? length ss) | None => false end
  || match SidecarEntry.seeAlso entry with
     | Some rs => (0 <? length rs) | None => false end.

(** *** mergeSidecars *)

(** One turn of the inner loop over [entry.sections]: replace the first
    section of [merged] with the same heading, or push. *)
Definition mergeSection (merged : list SidecarSection) (section : SidecarSection)
  : list SidecarSection :=
  match list_find (λ s, SidecarSection.heading s = SidecarSection.heading section)
          merged with
  | Some (existingIndex, _) => <[existingIndex := section]> merged
  | None => merged ++ [section]
  end.

(** One turn of the loop over [entry.seeAlso]; the state is the array
    [merged.seeAlso] and the set [existingRefs]. *)
Definition mergeRef (st : list UID * gset UID) (ref : UID) : list UID * gset UID :=
  let '(refs, existingRefs) := st in
  if decide (ref ∈ existingRefs) then st
  else (refs ++ [ref], {[ref]} ∪ existingRefs).

(** One turn of the outer loop [for (const entry of entries)]. *)
Definition mergeEntry (merged entry : SidecarEntry) : SidecarEntry :=
  SidecarEntry.mk
    (if truthyString (SidecarEntry.description entry)
     then SidecarEntry.description entry
     else SidecarEntry.description merged)
    (match SidecarEntry.sections entry with
     | Some ss =>
         Some (foldl mergeSection (default [] (SidecarEntry.sections merged)) ss)
     | None => SidecarEntry.sections merged
     end)
    (match SidecarEntry.seeAlso entry with
     | Some rs =>
         let refs := default [] (SidecarEntry.seeAlso merged) in
         Some (fst (foldl mergeRef (refs, list_to_set refs) rs))
     | None => SidecarEntry.seeAlso merged
     end).

Definition mergeSidecars (entries : list SidecarEntry) : SidecarEntry :=
  foldl mergeEntry (SidecarEntry.mk None (Some []) (Some [])) entries.

(* ================================================================== *)
(** ** manifest.ts: the metadata graph *)

Inductive TypeKind := KClass | KStruct | KEnum | KInterface | KDelegate.

Inductive MemberKind :=
  | MConstructor | MFinalizer | MMethod | MProperty | MField | MEvent
  | MEnumField | MInterfaceMethod | MInterfaceProperty | MInterfaceEvent
  | MOperator | MConversion.

Global Instance TypeKind_eq_dec : EqDecision TypeKind.
Proof. solve_decision. Defined.

Global Instance MemberKind_eq_dec : EqDecision MemberKind.
Proof. solve_decision. Defined.

Definition typeKindName (k : TypeKind) : string :=
  match k with
  | KClass => "class" | KStruct => "struct" | KEnum => "enum"
  | KInterface => "interface" | KDelegate => "delegate"
  end.

Module AttributeData.
Record t := mk { uid : UID; attributeType : UID }.
End AttributeData.

Module AssemblyInfo.
Record t := mk { uid : UID; name : string; version : string }.
End AssemblyInfo.

Module Namespace.
Record t := mk {
  uid : UID;
  name : string;
  parent : option UID;
  children : option (list UID);
  types : option (list UID)
}.
End Namespace.
Abbreviation Namespace := Namespace.t.

Module GenericParameter.
Record t := mk { uid : UID; name : string }.
End GenericParameter.

Module StaticConstructor.
Record t := mk {
  uid : UID;
  name : string;
  attributes : option (list UID);
  isCompilerGenerated : bool
}.
End StaticConstructor.

(** [AnyType], read the way the generator reads it: one shape whose
    kind-specific fields are optional. *)
Module AnyType.
Record t := mk {
  uid : UID;
  name : string;
  typekind : TypeKind;
  namespace : UID;
  assembly : UID;
  enclosingType : option UID;
  nestedTypes : option (list UID);
  members : option (list UID);
  attributes : option (list UID);
  isStatic : bool;
  isCompilerGenerated : bool;
  staticConstructor : option UID
}.
End AnyType.
Abbreviation AnyType := AnyType.t.

Module AnyMember.
Record t := mk {
  uid : UID;
  name : string;
  memberKind : MemberKind;
  declaringType : UID;
  attributes : option (list UID);
  isCompilerGenerated : bool
}.
End AnyMember.
Abbreviation AnyMember := AnyMember.t.

Module ManifestRoot.
Record t := mk {
  assemblies : gmap UID AssemblyInfo.t;
  namespaces : gmap UID Namespace;
  types : gmap UID AnyType;
  members : gmap UID AnyMember;
  genericParameters : gmap UID GenericParameter.t;
  attributes : gmap UID AttributeData.t;
  staticConstructors : gmap UID StaticConstructor.t
}.
End ManifestRoot.
Abbreviation ManifestRoot := ManifestRoot.t.

Definition resolveType (manifest : ManifestRoot) (uid : UID) : option AnyType :=
  ManifestRoot.types manifest !! uid.

Definition resolveMember (manifest : ManifestRoot) (uid : UID) : option AnyMember :=
  ManifestRoot.members manifest !! uid.

Definition resolveNamespace (manifest : ManifestRoot) (uid : UID)
  : option Namespace :=
  ManifestRoot.namespaces manifest !! uid.

Definition resolveAssembly (manifest : ManifestRoot) (uid : UID)
  : option AssemblyInfo.t :=
  ManifestRoot.assemblies manifest !! uid.

Definition resolveGenericParameter (manifest : ManifestRoot) (uid : UID)
  : option GenericParameter.t :=
  ManifestRoot.genericParameters manifest !! uid.

Definition resolveAttribute (manifest : ManifestRoot) (uid : UID)
  : option AttributeData.t :=
  ManifestRoot.attributes manifest !! uid.

Definition getTypeMembers (manifest : ManifestRoot) (type : AnyType)
  : list AnyMember :=
  match AnyType.members type with
  | None => []
  | Some uids => omap (λ uid, ManifestRoot.members manifest !! uid) uids
  end.

Definition getNestedTypes (manifest : ManifestRoot) (type : AnyType)
  : list AnyType :=
  match AnyType.nestedTypes type with
  | None => []
  | Some uids => omap (λ uid, ManifestRoot.types manifest !! uid) uids
  end.

(** ** types.ts *)

Module FSConfiguration.
Record t := mk {
  ignoreAttributes : gmap string bool;
  globalNamespaceName : string;
  outputDir : string;
  shouldGenerateSidecars : bool;
  sidecarsOutputDir : string;
  gameVersion : string;
  manifest : ManifestRoot
}.
End FSConfiguration.
Abbreviation FSConfiguration := FSConfiguration.t.

(* ================================================================== *)
(** ** page-generation: the markdown builder *)

(** The markdown helpers [mdx.link], [mdx.list] and [mdx.makeTable] and
    the builder class come from the mdx-builder package, which is not
    part of these sources.  Their results are kept as terms, one
    constructor per helper, so that a page is the sequence of builder
    calls that produced it. *)
Inductive md :=
  | Str (s : string)
  | MdLink (name slug : string)
  | MdList (items : list md) (ordered : bool)
  | MdTable (headings : list string) (rows : list (list md)).

Inductive builderCall :=
  | SetFrontMatter (key value : string)
  | AddHeading (text : string) (level : nat)
  | AddText (text : md).

Definition MarkdownBuilder := list builderCall.

Definition setFrontMatter (b : MarkdownBuilder) (k v : string) : MarkdownBuilder :=
  b ++ [SetFrontMatter k v].
Definition addHeading (b : MarkdownBuilder) (text : string) (level : nat)
  : MarkdownBuilder := b ++ [AddHeading text level].
Definition addText (b : MarkdownBuilder) (text : md) : MarkdownBuilder :=
  b ++ [AddText text].

(** A JavaScript call either returns or throws. *)
Inductive result (A : Type) :=
  | Ok (a : A)
  | Throw (message : string).
Arguments Ok {A} a.
Arguments Throw {A} message.

(** [s.split(sep)] for a one-character separator. *)
Fixpoint splitOn (sep : ascii) (s : string) : list string :=
  match s with
  | EmptyString => [EmptyString]
  | String c s' =>
      if Ascii.eqb c sep then EmptyString :: splitOn sep s'
      else match splitOn sep s' with
           | h :: t => String c h :: t
           | [] => [String c EmptyString]
           end
  end.

(** ** page-generation/utils.ts *)

Section PageUtils.
Variable uidToSlugFn : UID → string.

Definition addDescription (builder : MarkdownBuilder) (uid : UID)
  (sidecars : SidecarCollection) : MarkdownBuilder :=
  match SidecarCollection.entries sidecars !! uid with
  | Some sidecar =>
      if truthyString (SidecarEntry.description sidecar)
      then addText builder (Str (default "" (SidecarEntry.description sidecar)))
      else builder
  | None => builder
  end.

Definition addSections (builder : MarkdownBuilder) (uid : UID)
  (sidecars : SidecarCollection) : MarkdownBuilder :=
  match SidecarCollection.entries sidecars !! uid with
  | Some sidecar =>
      match SidecarEntry.sections sidecar with
      | Some _ =>
          foldl (λ b section,
                   addText (addHeading b (SidecarSection.heading section) 2)
                           (Str (SidecarSection.content section)))
                builder (getSectionsInOrder sidecar)
      | None => builder
      end
  | None => builder
  end.

Definition addSection (builder : MarkdownBuilder) (uid : UID)
  (sidecars : SidecarCollection) (heading : string) (headingLevel : nat)
  : MarkdownBuilder :=
  match SidecarCollection.entries sidecars !! uid with
  | Some sidecar =>
      match getSection sidecar heading with
      | Some section =>
          addText (addHeading builder (SidecarSection.heading section) headingLevel)
                  (Str (SidecarSection.content section))
      | None => builder
      end
  | None => builder
  end.

Definition getNameFromUid (uid : UID) (manifest : ManifestRoot) : string :=
  match ManifestRoot.types manifest !! uid with
  | Some t => AnyType.name t
  | None =>
  match ManifestRoot.members manifest !! uid with
  | Some m => AnyMember.name m
  | None =>
  match ManifestRoot.namespaces manifest !! uid with
  | Some n => Namespace.name n
  | None =>
  match ManifestRoot.assemblies manifest !! uid with
  | Some a => AssemblyInfo.name a
  | None => orElse (splitOn ":" uid !! 1) uid
  end end end end.

Definition seeAlsoItem (manifest : ManifestRoot) (refUid : UID) : md :=
  let name := getNameFromUid refUid manifest in
  let slug := uidToSlugFn refUid in
  MdLink name slug.

Definition addSeeAlso (builder : MarkdownBuilder) (uid : UID)
  (sidecars : SidecarCollection) (manifest : ManifestRoot) : MarkdownBuilder :=
  match SidecarCollection.entries sidecars !! uid with
  | Some sidecar =>
      match SidecarEntry.seeAlso sidecar with
      | Some (r :: rs) =>
          let builder := addHeading builder "See Also" 2 in
          let items := seeAlsoItem manifest <$> (r :: rs) in
          addText builder (MdList items false)
      | _ => builder
      end
  | None => builder
  end.

Definition addCompleteSidecar (builder : MarkdownBuilder) (uid : UID)
  (sidecars : SidecarCollection) (manifest : ManifestRoot) : MarkdownBuilder :=
  let builder := addDescription builder uid sidecars in
  let builder := addSections builder uid sidecars in
  addSeeAlso builder uid sidecars manifest.

Definition hasSidecar (uid : UID) (sidecars : SidecarCollection) : bool :=
  match SidecarCollection.entries sidecars !! uid with
  | Some sidecar => hasDocumentation sidecar
  | None => false
  end.

Definition hasSection (uid : UID) (sidecars : SidecarCollection)
  (heading : string) : bool :=
  match SidecarCollection.entries sidecars !! uid with
  | Some sidecar => bool_decide (is_Some (getSection sidecar heading))
  | None => false
  end.

Definition getInlineDescription (uid : UID) (sidecars : SidecarCollection)
  : string :=
  match SidecarCollection.entries sidecars !! uid with
  | Some sidecar => orElse (SidecarEntry.description sidecar) ""
  | None => ""
  end.

Definition identifyType (uid : string) : string :=
  default "" (head (splitOn ":" uid)).

Definition typeRows (manifest : ManifestRoot) (sidecars : SidecarCollection)
  (types : list UID) : list (list md) :=
  omap (λ typeUid,
          match ManifestRoot.types manifest !! typeUid with
          | None => None
          | Some type =>
              Some [MdLink (AnyType.name type) (uidToSlugFn (AnyType.uid type));
                    Str (getInlineDescription (AnyType.uid type) sidecars)]
          end) types.

Definition getTypesTable (uid : UID) (manifest : ManifestRoot)
  (sidecars : SidecarCollection) : md :=
  let tableHeadings := ["Type"; "Description"] in
  let docType := identifyType uid in
  if String.eqb docType "ns" then
    match ManifestRoot.namespaces manifest !! uid with
    | Some namespace =>
        MdTable tableHeadings
          (typeRows manifest sidecars (default [] (Namespace.types namespace)))
    | None => Str "The namespace could not be found in the manifest."
    end
  else if String.eqb docType "type" then
    match ManifestRoot.types manifest !! uid with
    | Some type =>
        MdTable tableHeadings
          (typeRows manifest sidecars (default [] (AnyType.nestedTypes type)))
    | None => Str "The type could not be found in the manifest."
    end
  else MdTable tableHeadings (typeRows manifest sidecars []).

Definition getNestedNamespacesTable (uid : UID) (manifest : ManifestRoot)
  (sidecars : SidecarCollection) : md :=
  let tableHeadings := ["Namespace"; "Description"] in
  match ManifestRoot.namespaces manifest !! uid with
  | Some namespace =>
      match Namespace.children namespace with
      | Some children =>
          MdTable tableHeadings
            (omap (λ nsUid,
                     match ManifestRoot.namespaces manifest !! nsUid with
                     | None => None
                     | Some ns =>
                         Some [MdLink (Namespace.name ns)
                                      (uidToSlugFn (Namespace.uid ns));
                               Str (getInlineDescription (Namespace.uid ns) sidecars)]
                     end) children)
      | None => Str "The namespace could not be found in the manifest."
      end
  | None => Str "The namespace could not be found in the manifest."
  end.

Definition getMembersTable (typeUid : UID) (manifest : ManifestRoot)
  (sidecars : SidecarCollection) (filterMemberKind : option (list MemberKind))
  : md :=
  match ManifestRoot.types manifest !! typeUid with
  | None => Str "The type could not be found in the manifest."
  | Some type =>
      MdTable ["Member"; "Description"]
        (omap (λ memberUid,
                 match ManifestRoot.members manifest !! memberUid with
                 | None => None
                 | Some member =>
                     match filterMemberKind with
                     | Some kinds =>
                         if bool_decide (AnyMember.memberKind member ∈ kinds)
                         then Some [MdLink (AnyMember.name member)
                                           (uidToSlugFn (AnyMember.uid member));
                                    Str (getInlineDescription (AnyMember.uid member)
                                                              sidecars)]
                         else None
                     | None =>
                         Some [MdLink (AnyMember.name member)
                                      (uidToSlugFn (AnyMember.uid member));
                               Str (getInlineDescription (AnyMember.uid member)
                                                         sidecars)]
                     end
                 end) (default [] (AnyType.members type)))
  end.

(** ** page-generation/page-type/namespace.ts *)

Definition createNamespaceMDX (config : FSConfiguration) (namespace : Namespace)
  (sidecars : SidecarCollection) : result MarkdownBuilder :=
  let manifest := FSConfiguration.manifest config in
  match ManifestRoot.namespaces manifest !! Namespace.uid namespace with
  | None =>
      Throw ("Namespace with UID " +:+ Namespace.uid namespace
             +:+ " does not exist in the manifest.")
  | Some _ =>
      let hasTypes :=
        match Namespace.types namespace with
        | Some (_ :: _) => true | _ => false end in
      let hasNestedNamespaces :=
        match Namespace.children namespace with
        | Some (_ :: _) => true | _ => false end in
      let builder : MarkdownBuilder := [] in
      let builder :=
        setFrontMatter builder "title" (Namespace.name namespace +:+ " Namespace") in
      let builder :=
        setFrontMatter builder "description"
          (orElse (Some (getInlineDescription (Namespace.uid namespace) sidecars))
                  ("Documentation for the " +:+ Namespace.name namespace
                   +:+ " namespace.")) in
      let builder :=
        setFrontMatter builder "slug" (uidToSlugFn (Namespace.uid namespace)) in
      let builder :=
        setFrontMatter builder "sidebar_label" (Namespace.name namespace) in
      let builder :=
        if hasSidecar (Namespace.uid namespace) sidecars
        then addDescription (addHeading builder "Overview" 2)
                            (Namespace.uid namespace) sidecars
        else builder in
      let builder :=
        addText (addHeading builder "Types" 2)
          (if hasTypes
           then getTypesTable (Namespace.uid namespace) manifest sidecars
           else Str "This namespace does not contain any types.") in
      let builder :=
        if hasNestedNamespaces
        then addText (addHeading builder "Nested Namespaces" 2)
               (getNestedNamespacesTable (Namespace.uid namespace) manifest sidecars)
        else builder in
      let builder := addSections builder (Namespace.uid namespace) sidecars in
      let builder :=
        addSeeAlso builder (Namespace.uid namespace) sidecars manifest in
      Ok builder
  end.
End PageUtils.

(* ================================================================== *)
(** ** The file-structure generator *)

(** The generator talks to the file system through [fs.mkdirSync] and
    [fs.writeFileSync] only ([clearFolder] is never called); a run is
    described by the log of these calls and by how it ended.  The
    recursion over namespaces and nested types is driven by a fuel
    counter: [OutOfFuel] stands for a run that is still going on when
    the counter is used up. *)
Inductive fsCall :=
  | Mkdir (path : string)
  | WriteFile (path : string) (content : string).

Definition callPath (c : fsCall) : string :=
  match c with Mkdir p => p | WriteFile p _ => p end.

Inductive status (A : Type) :=
  | Done (a : A)
  | Thrown (message : string)
  | OutOfFuel.
Arguments Done {A} a.
Arguments Thrown {A} message.
Arguments OutOfFuel {A}.

Definition Gen (A : Type) : Type := list fsCall * status A.

Definition ret {A} (a : A) : Gen A := ([], Done a).

Definition bind {A B} (m : Gen A) (f : A → Gen B) : Gen B :=
  match m with
  | (log, Done a) => let '(log', s) := f a in (log ++ log', s)
  | (log, Thrown e) => (log, Thrown e)
  | (log, OutOfFuel) => (log, OutOfFuel)
  end.

Notation "x <~ m ;; k" := (bind m (λ x, k))
  (at level 100, m at next level, right associativity, only parsing).
Notation "m ;;; k" := (bind m (λ _, k))
  (at level 100, right associativity, only parsing).

Definition tell (c : fsCall) : Gen unit := ([c], Done tt).
Definition throw {A} (message : string) : Gen A := ([], Thrown message).
Definition outOfFuel {A} : Gen A := ([], OutOfFuel).

(** [for (const x of l) body(x)] *)
Definition forEach {A} (l : list A) (body : A → Gen unit) : Gen unit :=
  foldr (λ x k, body x ;;; k) (ret tt) l.

Definition when (b : bool) (m : Gen unit) : Gen unit :=
  if b then m else ret tt.

(** A run that is never over: it is out of fuel whatever the fuel. *)
Definition diverges {A} (run : nat → Gen A) : Prop :=
  ∀ fuel, snd (run fuel) = OutOfFuel.

(** The message of the [TypeError] raised when a property of
    [undefined] is read. *)
Definition typeError (property : string) : string :=
  "TypeError: Cannot read properties of undefined (reading '"
  +:+ property +:+ "')".

Definition nl : string := String (ascii_of_nat 10) EmptyString.

(** A template literal, line by line; every line ends in a newline. *)
Definition unlines (ls : list string) : string :=
  foldr (λ l acc, l +:+ nl +:+ acc) EmptyString ls.

(** *** Paths *)

(** The generator runs on the POSIX flavour of the [path] module of
    Node.js.  [path.join] glues its non-empty arguments with a slash
    and normalizes the result: empty segments and [.] are dropped, [..]
    takes the segment before it away (and is kept at the start of a
    relative path), a slash at the end is kept. *)
Definition startsWithSlash (s : string) : bool :=
  match s with
  | String c _ => Ascii.eqb c "/"
  | EmptyString => false
  end.

Fixpoint endsWithSlash (s : string) : bool :=
  match s with
  | EmptyString => false
  | String c EmptyString => Ascii.eqb c "/"
  | String _ s' => endsWithSlash s'
  end.

(** One turn of the loop of [normalizeString], segment by segment;
    [res] holds the segments kept so far. *)
Definition pushSegment (allowAboveRoot : bool) (res : list string) (seg : string)
  : list string :=
  if String.eqb seg "" || String.eqb seg "." then res
  else if String.eqb seg ".." then
    match last res with
    | Some l =>
        if String.eqb l ".."
        then (if allowAboveRoot then res ++ [".."] else res)
        else removelast res
    | None => if allowAboveRoot then res ++ [".."] else res
    end
  else res ++ [seg].

Definition normalizeString (path : string) (allowAboveRoot : bool) : string :=
  String.concat "/" (foldl (pushSegment allowAboveRoot) [] (splitOn "/" path)).

(** [path.normalize(path)] *)
Definition normalize (path : string) : string :=
  if String.eqb path "" then "."
  else
    let isAbsolute := startsWithSlash path in
    let trailingSeparator := endsWithSlash path in
    let p := normalizeString path (negb isAbsolute) in
    if String.eqb p "" then
      (if isAbsolute then "/" else if trailingSeparator then "./" else ".")
    else (if isAbsolute then "/" else "") +:+ p
         +:+ (if trailingSeparator then "/" else "").

(** [path.join(dir, name)] *)
Definition pathJoin (dir name : string) : string :=
  let joined :=
    if String.eqb dir "" then name
    else if String.eqb name "" then dir
    else dir +:+ "/" +:+ name in
  if String.eqb joined "" then "." else normalize joined.
Arguments pathJoin : simpl never.

(** *** Name sanitization *)

Fixpoint allDigits (s : string) : bool :=
  match s with
  | EmptyString => true
  | String c s' => isDigit c && allDigits s'
  end.

(** [name.replace(/`\d+$/, "")] *)
Fixpoint stripGenericParameters (name : string) : string :=
  match name with
  | EmptyString => EmptyString
  | String c s' =>
      if (nat_of_ascii c =? 96) && negb (String.eqb s' EmptyString) && allDigits s'
      then EmptyString
      else String c (stripGenericParameters s')
  end.

(** The characters that the first replacement of [sanitizeFileName]
    turns into a dash: less-than, greater-than, colon, double quote,
    slash, backslash, bar, question mark and star. *)
Definition isIllegalChar (c : ascii) : bool :=
  bool_decide (nat_of_ascii c ∈ [60; 62; 58; 34; 47; 92; 124; 63; 42]).

(** The class [\s] on 8-bit characters. *)
Definition isSpaceChar (c : ascii) : bool :=
  bool_decide (nat_of_ascii c ∈ [9; 10; 11; 12; 13; 32; 160]).

Fixpoint replaceIllegal (s : string) : string :=
  match s with
  | EmptyString => EmptyString
  | String c s' =>
      String (if isIllegalChar c then "-"%char else c) (replaceIllegal s')
  end.

(** [s.replace(/\s+/g, "-")]; [inRun] tells that the previous character
    was white space. *)
Fixpoint replaceSpaceRuns (inRun : bool) (s : string) : string :=
  match s with
  | EmptyString => EmptyString
  | String c s' =>
      if isSpaceChar c
      then if inRun then replaceSpaceRuns true s'
           else String "-"%char (replaceSpaceRuns true s')
      else String c (replaceSpaceRuns false s')
  end.

Definition sanitizeFileName (name : string) : string :=
  replaceSpaceRuns false (replaceIllegal (stripGenericParameters name)).

(** *** The ignore predicate *)

(** The second argument of [shouldIgnoreType] and [shouldIgnoreMember]
    is declared as the configuration; the call sites pass either
    [this.config] or [this.manifest].  A manifest has no [manifest]
    property. *)
Inductive ignoreArg :=
  | ArgConfig (config : FSConfiguration)
  | ArgManifest (manifest : ManifestRoot).

(** The loop [for (const attrUid of attributes)] of both predicates. *)
Fixpoint ignoreLoop (attributes : list UID) (config : ignoreArg) : result bool :=
  match attributes with
  | [] => Ok false
  | attrUid :: rest =>
      match config with
      | ArgManifest _ => Throw (typeError "attributes")
      | ArgConfig c =>
          match ManifestRoot.attributes (FSConfiguration.manifest c) !! attrUid with
          | Some attr =>
              if default false (FSConfiguration.ignoreAttributes c
                                  !! AttributeData.attributeType attr)
              then Ok true
              else ignoreLoop rest config
          | None => ignoreLoop rest config
          end
      end
  end.

Definition shouldIgnoreType (type : AnyType) (config : ignoreArg) : result bool :=
  if AnyType.isCompilerGenerated type then Ok true
  else match AnyType.attributes type with
       | Some attributes => ignoreLoop attributes config
       | None => Ok false
       end.

Definition shouldIgnoreMember (member : AnyMember) (config : ignoreArg)
  : result bool :=
  if AnyMember.isCompilerGenerated member then Ok true
  else match AnyMember.attributes member with
       | Some attributes => ignoreLoop attributes config
       | None => Ok false
       end.

(** [shouldIgnoreMember] applied to a static constructor. *)
Definition shouldIgnoreStaticConstructor (ctor : StaticConstructor.t)
  (config : ignoreArg) : result bool :=
  if StaticConstructor.isCompilerGenerated ctor then Ok true
  else match StaticConstructor.attributes ctor with
       | Some attributes => ignoreLoop attributes config
       | None => Ok false
       end.

Definition liftResult {A} (r : result A) : Gen A :=
  match r with
  | Ok a => ret a
  | Throw e => throw e
  end.

(** *** Grouping of members *)

Module MemberGroups.
Record t := mk {
  constructors : list AnyMember;
  methods : list AnyMember;
  properties : list AnyMember;
  fields : list AnyMember;
  events : list AnyMember
}.
End MemberGroups.

Definition pushMember (groups : MemberGroups.t) (member : AnyMember)
  : MemberGroups.t :=
  let '(MemberGroups.mk cs ms ps fs es) := groups in
  match AnyMember.memberKind member with
  | MConstructor => MemberGroups.mk (cs ++ [member]) ms ps fs es
  | MMethod | MInterfaceMethod => MemberGroups.mk cs (ms ++ [member]) ps fs es
  | MProperty | MInterfaceProperty => MemberGroups.mk cs ms (ps ++ [member]) fs es
  | MField | MEnumField => MemberGroups.mk cs ms ps (fs ++ [member]) es
  | MEvent | MInterfaceEvent => MemberGroups.mk cs ms ps fs (es ++ [member])
  | MFinalizer | MOperator | MConversion => groups
  end.

(** One turn of the loop of [groupMethodsByName]; the object [groups]
    is kept as the list of its entries in insertion order, which is the
    order [Object.entries] lists them in. *)
Fixpoint pushMethod (groups : list (string * list AnyMember)) (method : AnyMember)
  : list (string * list AnyMember) :=
  match groups with
  | [] => [(AnyMember.name method, [method])]
  | (name, ms) :: rest =>
      if String.eqb name (AnyMember.name method)
      then (name, ms ++ [method]) :: rest
      else (name, ms) :: pushMethod rest method
  end.

Definition groupMethodsByName (methods : list AnyMember)
  : list (string * list AnyMember) :=
  foldl pushMethod [] methods.

(** An element of the array handed to [generateFields]: a member
    object, or (from the enum branch of [generateType]) a bare UID. *)
Inductive fieldArg :=
  | FieldObject (member : AnyMember)
  | FieldUid (uid : UID).

(** *** The generator class *)

Section FileStructureGenerator.
(** [this.config]; [this.manifest] and [this.targetDir] are read off it
    by the constructor. *)
Variable config : FSConfiguration.
(** The argument given to [shouldIgnoreType] in [generateGlobalNamespace],
    where the source reads [this.] with the member name missing. *)
Variable globalIgnoreArg : ignoreArg.

Definition targetDir : string := FSConfiguration.outputDir config.
Definition manifest : ManifestRoot := FSConfiguration.manifest config.

Definition createFile (dir fileName content : string) : Gen unit :=
  tell (WriteFile (pathJoin dir fileName) content).

Definition generateNamespaceContent (namespace : Namespace) : string :=
  let title := orElse (Some (Namespace.name namespace)) "Global Namespace" in
  unlines [
    "---";
    "uid: " +:+ Namespace.uid namespace;
    "title: " +:+ title;
    "type: namespace";
    "---";
    "";
    "# " +:+ title;
    "";
    "Namespace documentation placeholder.";
    "";
    "**UID:** `" +:+ Namespace.uid namespace +:+ "`";
    if truthyString (Namespace.parent namespace)
    then "**Parent:** `" +:+ default "" (Namespace.parent namespace) +:+ "`"
    else ""
  ].

Definition generateTypeContent (type : AnyType) : string :=
  unlines [
    "---";
    "uid: " +:+ AnyType.uid type;
    "title: " +:+ AnyType.name type;
    "type: " +:+ typeKindName (AnyType.typekind type);
    "---";
    "";
    "# " +:+ AnyType.name type;
    "";
    "Type documentation placeholder.";
    "";
    "**UID:** `" +:+ AnyType.uid type +:+ "`";
    "**Kind:** " +:+ typeKindName (AnyType.typekind type)
  ].

Definition generateStaticConstructorContent (ctor : StaticConstructor.t) : string :=
  unlines [
    "---";
    "uid: " +:+ StaticConstructor.uid ctor;
    "title: Static Constructor";
    "---";
    "";
    "# Static Constructor";
    "";
    "Static constructor documentation placeholder."
  ].

Definition generateConstructorContent (ctor : AnyMember) : string :=
  unlines [
    "---";
    "uid: " +:+ AnyMember.uid ctor;
    "title: Constructor";
    "---";
    "";
    "# Constructor";
    "";
    "Constructor documentation placeholder."
  ].

(** [methods[0]] is [undefined] for an empty array, and reading its
    [uid] throws. *)
Definition generateMethodContent (methods : list AnyMember) : result string :=
  match methods with
  | [] => Throw (typeError "uid")
  | method :: _ =>
      Ok (unlines [
        "---";
        "uid: " +:+ AnyMember.uid method;
        "title: " +:+ AnyMember.name method;
        "---";
        "";
        "# " +:+ AnyMember.name method;
        "";
        "Method documentation placeholder.";
        "";
        if 1 <? length methods
        then nl +:+ "**Overloads:** " +:+ pretty (length methods) +:+ nl
        else ""
      ])
  end.

Definition memberPage (kind : string) (member : AnyMember) : string :=
  unlines [
    "---";
    "uid: " +:+ AnyMember.uid member;
    "title: " +:+ AnyMember.name member;
    "---";
    "";
    "# " +:+ AnyMember.name member;
    "";
    kind +:+ " documentation placeholder."
  ].

Definition generatePropertyContent (prop : AnyMember) : string :=
  memberPage "Property" prop.
Definition generateFieldContent (field : AnyMember) : string :=
  memberPage "Field" field.
Definition generateEventContent (event : AnyMember) : string :=
  memberPage "Event" event.

Definition groupMembersByKind (memberUids : list UID) : Gen MemberGroups.t :=
  foldl (λ acc uid,
           groups <~ acc ;;
           match ManifestRoot.members manifest !! uid with
           | None => ret groups
           | Some member =>
               ignored <~ liftResult (shouldIgnoreMember member (ArgManifest manifest)) ;;
               if (ignored : bool) then ret groups
               else ret (pushMember groups member)
           end)
        (ret (MemberGroups.mk [] [] [] [] [])) memberUids.

Definition generateConstructors (type : AnyType) (typePath : string)
  (constructors : list AnyMember) : Gen unit :=
  let ctorPath := pathJoin typePath "Constructors" in
  tell (Mkdir ctorPath) ;;;
  forEach (imap (λ index ctor, (index, ctor)) constructors)
    (λ '(index, ctor),
       let fileName :=
         if length constructors =? 1 then "Constructor.mdx"
         else "Constructor" +:+ pretty (index + 1) +:+ ".mdx" in
       createFile ctorPath fileName (generateConstructorContent ctor)).

Definition generateMethods (typePath : string) (methods : list AnyMember)
  : Gen unit :=
  let methodPath := pathJoin typePath "Methods" in
  tell (Mkdir methodPath) ;;;
  let methodsByName := groupMethodsByName methods in
  forEach methodsByName
    (λ '(methodName, methodList),
       let fileName := sanitizeFileName methodName +:+ ".mdx" in
       content <~ liftResult (generateMethodContent methodList) ;;
       createFile methodPath fileName content).

Definition generateProperties (typePath : string) (properties : list AnyMember)
  : Gen unit :=
  let propPath := pathJoin typePath "Properties" in
  tell (Mkdir propPath) ;;;
  forEach properties
    (λ prop,
       let fileName := sanitizeFileName (AnyMember.name prop) +:+ ".mdx" in
       createFile propPath fileName (generatePropertyContent prop)).

(** A bare UID has no [name]: [sanitizeFileName(undefined)] throws. *)
Definition generateFields (typePath : string) (fields : list fieldArg) : Gen unit :=
  let fieldPath := pathJoin typePath "Fields" in
  tell (Mkdir fieldPath) ;;;
  forEach fields
    (λ field,
       match field with
       | FieldObject member =>
           let fileName := sanitizeFileName (AnyMember.name member) +:+ ".mdx" in
           createFile fieldPath fileName (generateFieldContent member)
       | FieldUid _ => throw (typeError "replace")
       end).

Definition generateEvents (typePath : string) (events : list AnyMember)
  : Gen unit :=
  let eventPath := pathJoin typePath "Events" in
  tell (Mkdir eventPath) ;;;
  forEach events
    (λ event,
       let fileName := sanitizeFileName (AnyMember.name event) +:+ ".mdx" in
       createFile eventPath fileName (generateEventContent event)).

(** The member folders of a class, struct or interface. *)
Definition generateMembers (type : AnyType) (typePath : string)
  (members : list UID) : Gen unit :=
  membersByKind <~ groupMembersByKind members ;;
  when (negb (bool_decide (MemberGroups.constructors membersByKind = []))
        && negb (AnyType.isStatic type))
    (generateConstructors type typePath (MemberGroups.constructors membersByKind)) ;;;
  (if truthyString (AnyType.staticConstructor type) then
     match ManifestRoot.staticConstructors manifest
             !! default "" (AnyType.staticConstructor type) with
     | Some staticCtor =>
         ignored <~ liftResult
           (shouldIgnoreStaticConstructor staticCtor (ArgManifest manifest)) ;;
         when (negb ignored)
           (createFile typePath "static-constructor.mdx"
              (generateStaticConstructorContent staticCtor))
     | None => ret tt
     end
   else ret tt) ;;;
  when (negb (bool_decide (MemberGroups.methods membersByKind = [])))
    (generateMethods typePath (MemberGroups.methods membersByKind)) ;;;
  when (negb (bool_decide (MemberGroups.properties membersByKind = [])))
    (generateProperties typePath (MemberGroups.properties membersByKind)) ;;;
  when (negb (bool_decide (MemberGroups.fields membersByKind = [])))
    (generateFields typePath (FieldObject <$> MemberGroups.fields membersByKind)) ;;;
  when (negb (bool_decide (MemberGroups.events membersByKind = [])))
    (generateEvents typePath (MemberGroups.events membersByKind)).

(** [generateNestedTypes], with the recursive call to [generateType]
    as a parameter. *)
Definition generateNestedTypesWith (generateType : AnyType → string → Gen unit)
  (parentType : AnyType) (parentPath : string) : Gen unit :=
  let nestedPath := pathJoin parentPath "Nested-Types" in
  tell (Mkdir nestedPath) ;;;
  forEach (default [] (AnyType.nestedTypes parentType))
    (λ nestedUid,
       match ManifestRoot.types manifest !! nestedUid with
       | None => ret tt
       | Some nestedType =>
           ignored <~ liftResult (shouldIgnoreType nestedType (ArgManifest manifest)) ;;
           if (ignored : bool) then ret tt
           else generateType nestedType nestedPath
       end).

(** [generateType], with the call to [generateNestedTypes] as a
    parameter. *)
Definition generateTypeWith (generateNestedTypes : AnyType → string → Gen unit)
  (type : AnyType) (parentPath : string) : Gen unit :=
  let typeName := sanitizeFileName (AnyType.name type) in
  let typePath := pathJoin parentPath typeName in
  match AnyType.typekind type with
  | KDelegate =>
      createFile parentPath (typeName +:+ ".mdx") (generateTypeContent type)
  | KEnum =>
      tell (Mkdir typePath) ;;;
      createFile typePath "index.mdx" (generateTypeContent type) ;;;
      match AnyType.members type with
      | Some members => generateFields typePath (FieldUid <$> members)
      | None => ret tt
      end
  | KClass | KStruct | KInterface =>
      tell (Mkdir typePath) ;;;
      createFile typePath "index.mdx" (generateTypeContent type) ;;;
      match AnyType.members type with
      | Some members => generateMembers type typePath members
      | None => ret tt
      end ;;;
      match AnyType.nestedTypes type with
      | Some (_ :: _) => generateNestedTypes type typePath
      | _ => ret tt
      end
  end.

(** The two methods call each other; every call of [generateType] takes
    one unit of fuel. *)
Fixpoint generateType (fuel : nat) (type : AnyType) (parentPath : string)
  : Gen unit :=
  match fuel with
  | O => outOfFuel
  | S fuel' =>
      generateTypeWith (generateNestedTypesWith (generateType fuel'))
        type parentPath
  end.

Definition generateNestedTypes (fuel : nat) (parentType : AnyType)
  (parentPath : string) : Gen unit :=
  generateNestedTypesWith (generateType fuel) parentType parentPath.

(** The loop over [namespace.types] of [generateNamespace] and of
    [generateGlobalNamespace]; [arg] is what [shouldIgnoreType] gets. *)
Definition generateDeclaredTypes (fuel : nat) (arg : ignoreArg)
  (types : list UID) (typesPath : string) : Gen unit :=
  forEach types
    (λ typeUid,
       match ManifestRoot.types manifest !! typeUid with
       | None => ret tt
       | Some type =>
           ignored <~ liftResult (shouldIgnoreType type arg) ;;
           if (ignored : bool) || truthyString (AnyType.enclosingType type)
           then ret tt
           else generateType fuel type typesPath
       end).

Definition generateGlobalNamespace (fuel : nat) (namespace : Namespace)
  : Gen unit :=
  match Namespace.types namespace with
  | None | Some [] => ret tt
  | Some types =>
      let globalPath := pathJoin targetDir "Global Namespace" in
      tell (Mkdir globalPath) ;;;
      createFile globalPath "index.mdx" (generateNamespaceContent namespace) ;;;
      let typesPath := pathJoin globalPath "Types" in
      tell (Mkdir typesPath) ;;;
      generateDeclaredTypes fuel globalIgnoreArg types typesPath
  end.

(** [generateNamespace], with its recursive call and the generation of
    the declared types as parameters. *)
Definition generateNamespaceWith
  (generateNamespace : Namespace → string → Gen unit)
  (generateTypes : list UID → string → Gen unit)
  (namespace : Namespace) (parentPath : string) : Gen unit :=
  let namespaceName := sanitizeFileName (Namespace.name namespace) in
  let namespacePath := pathJoin parentPath namespaceName in
  tell (Mkdir namespacePath) ;;;
  createFile namespacePath "index.mdx" (generateNamespaceContent namespace) ;;;
  match Namespace.children namespace with
  | Some (c :: cs) =>
      let namespacesPath := pathJoin namespacePath "Namespaces" in
      tell (Mkdir namespacesPath) ;;;
      forEach (c :: cs)
        (λ childUid,
           match ManifestRoot.namespaces manifest !! childUid with
           | Some childNamespace =>
               generateNamespace childNamespace namespacesPath
           | None => ret tt
           end)
  | _ => ret tt
  end ;;;
  match Namespace.types namespace with
  | Some (t :: ts) =>
      let typesPath := pathJoin namespacePath "Types" in
      tell (Mkdir typesPath) ;;;
      generateTypes (t :: ts) typesPath
  | _ => ret tt
  end.

Fixpoint generateNamespace (fuel : nat) (namespace : Namespace)
  (parentPath : string) : Gen unit :=
  match fuel with
  | O => outOfFuel
  | S fuel' =>
      generateNamespaceWith (generateNamespace fuel')
        (generateDeclaredTypes fuel' (ArgConfig config)) namespace parentPath
  end.

(** [generate()]; [targetExists] is the answer of
    [fs.existsSync(this.targetDir)].  [namespaceEntries] is
    [Object.entries(this.manifest.namespaces)]: the entries of the
    record in the order of their insertion, which the finite map does
    not keep. *)
Definition generate (namespaceEntries : list (UID * Namespace)) (fuel : nat)
  (targetExists : bool) : Gen unit :=
  when (negb targetExists) (tell (Mkdir targetDir)) ;;;
  forEach namespaceEntries
    (λ '(uid, namespace),
       if String.eqb uid "ns:<global>"
       then generateGlobalNamespace fuel namespace
       else if bool_decide (Namespace.parent namespace = Some "ns:<global>")
       then generateNamespace fuel namespace targetDir
       else ret tt).

End FileStructureGenerator.

(* ================================================================== *)
(** ** Notions used by the specification *)

(** The union of a list's elements in first-seen order: the head is
    kept and removed from what follows. *)
Fixpoint unionFirstSeen {A} `{EqDecision A} (l : list A) : list A :=
  match l with
  | [] => []
  | x :: l' => x :: filter (λ y, y ≠ x) (unionFirstSeen l')
  end.

(** Appending an element at the end unless it is already there. *)
Definition pushNew {A} `{EqDecision A} (acc : list A) (x : A) : list A :=
  if decide (x ∈ acc) then acc else acc ++ [x].

(** The last non-empty description among the entries, if any. *)
Definition lastNonEmptyDescription (entries : list SidecarEntry) : option string :=
  last (omap (λ e, if truthyString (SidecarEntry.description e)
                   then SidecarEntry.description e else None) entries).

(** All sections, and all see-also references, of the entries in order. *)
Definition allSections (entries : list SidecarEntry) : list SidecarSection :=
  entries ≫= (λ e, default [] (SidecarEntry.sections e)).

Definition allSeeAlso (entries : list SidecarEntry) : list UID :=
  entries ≫= (λ e, default [] (SidecarEntry.seeAlso e)).

(** The last section with a given heading. *)
Definition lastWithHeading (h : string) (l : list SidecarSection)
  : option SidecarSection :=
  last (filter (λ s, SidecarSection.heading s = h) l).

(** The order hint of a hinted section. *)
Definition hint (s : SidecarSection) : Z := default 0%Z (SidecarSection.order s).

(** The builder calls that render a list of sections, and the ones of
    the closing block of cross-references. *)
Definition sectionCalls (ss : list SidecarSection) : list builderCall :=
  ss ≫= (λ s, [AddHeading (SidecarSection.heading s) 2;
               AddText (Str (SidecarSection.content s))]).

Definition seeAlsoCalls (uidToSlugFn : UID → string) (manifest : ManifestRoot)
  (refs : list UID) : list builderCall :=
  match refs with
  | [] => []
  | _ => [AddHeading "See Also" 2;
          AddText (MdList (seeAlsoItem uidToSlugFn manifest <$> refs) false)]
  end.

(** Every character of a name is a word character. *)
Fixpoint allWordChars (s : string) : bool :=
  match s with
  | EmptyString => true
  | String c s' => isWordChar c && allWordChars s'
  end.

(** A UID that no collection consulted by [getNameFromUid] knows. *)
Definition unresolved (manifest : ManifestRoot) (uid : UID) : Prop :=
  ManifestRoot.types manifest !! uid = None
  ∧ ManifestRoot.members manifest !! uid = None
  ∧ ManifestRoot.namespaces manifest !! uid = None
  ∧ ManifestRoot.assemblies manifest !! uid = None.

(** The edges the two recursions of the generator follow: from a
    namespace to a child namespace that resolves, and from a type to a
    nested type that resolves. *)
Definition childNamespaceOf (manifest : ManifestRoot) (c p : Namespace) : Prop :=
  ∃ uid, uid ∈ default [] (Namespace.children p)
         ∧ ManifestRoot.namespaces manifest !! uid = Some c.

Definition nestedTypeOf (manifest : ManifestRoot) (c p : AnyType) : Prop :=
  ∃ uid, uid ∈ default [] (AnyType.nestedTypes p)
         ∧ ManifestRoot.types manifest !! uid = Some c.

(** Every call of the log of a run satisfies [P]. *)
Definition logAll {A} (P : fsCall → Prop) (m : Gen A) : Prop :=
  Forall P (fst m).

(** A run that did not stop for lack of fuel. *)
Definition inFuel {A} (m : Gen A) : Prop := snd m ≠ OutOfFuel.

(** A run is over once the fuel is large enough. *)
Definition terminates {A} (run : nat → Gen A) : Prop :=
  ∃ fuel, ∀ fuel', fuel ≤ fuel' →
    snd (run fuel') = snd (run fuel) ∧ fst (run fuel') = fst (run fuel)
    ∧ snd (run fuel) ≠ OutOfFuel.

(** [entersAgain config inCycle]: a traversal that is at a namespace of
    [inCycle] comes to a namespace of [inCycle] again: the namespace
    lists a child that resolves to one, and no child listed before that
    one throws. *)
Definition entersAgain (config : FSConfiguration) (inCycle : Namespace → Prop)
  : Prop :=
  ∀ namespace, inCycle namespace →
    ∃ before uid after next,
      Namespace.children namespace = Some (before ++ uid :: after)
      ∧ ManifestRoot.namespaces (FSConfiguration.manifest config) !! uid
        = Some next
      ∧ inCycle next
      ∧ ∀ u earlier, u ∈ before →
          ManifestRoot.namespaces (FSConfiguration.manifest config) !! u
          = Some earlier →
          ∀ fuel path e,
            snd (generateNamespace config fuel earlier path) ≠ Thrown e.

(* ================================================================== *)
(** ** Sample inputs *)

Module Sample.
Definition slug (uid : UID) : string := "/api/" +:+ uid.

Definition emptyManifest : ManifestRoot :=
  ManifestRoot.mk ∅ ∅ ∅ ∅ ∅ ∅ ∅.

Definition configOf (outputDir sidecarsOutputDir : string)
  (ignoreAttributes : gmap string bool) (m : ManifestRoot) : FSConfiguration :=
  FSConfiguration.mk ignoreAttributes "Global Namespace" outputDir true
    sidecarsOutputDir "1.0.0" m.

Definition config (m : ManifestRoot) : FSConfiguration :=
  configOf "docs" "sidecars" ∅ m.

Definition sidecarsOf (entries : gmap UID SidecarEntry) : SidecarCollection :=
  SidecarCollection.mk "1" entries None None.

Definition withNamespaces (l : list Namespace) (m : ManifestRoot) : ManifestRoot :=
  ManifestRoot.mk (ManifestRoot.assemblies m)
    (list_to_map ((λ n, (Namespace.uid n, n)) <$> l))
    (ManifestRoot.types m) (ManifestRoot.members m)
    (ManifestRoot.genericParameters m) (ManifestRoot.attributes m)
    (ManifestRoot.staticConstructors m).

Definition withTypes (l : list AnyType) (m : ManifestRoot) : ManifestRoot :=
  ManifestRoot.mk (ManifestRoot.assemblies m) (ManifestRoot.namespaces m)
    (list_to_map ((λ t, (AnyType.uid t, t)) <$> l)) (ManifestRoot.members m)
    (ManifestRoot.genericParameters m) (ManifestRoot.attributes m)
    (ManifestRoot.staticConstructors m).

Definition withAttributes (l : list AttributeData.t) (m : ManifestRoot)
  : ManifestRoot :=
  ManifestRoot.mk (ManifestRoot.assemblies m) (ManifestRoot.namespaces m)
    (ManifestRoot.types m) (ManifestRoot.members m)
    (ManifestRoot.genericParameters m)
    (list_to_map ((λ a, (AttributeData.uid a, a)) <$> l))
    (ManifestRoot.staticConstructors m).

(** A root namespace [Foo] without types or children. *)
Definition nsFoo : Namespace :=
  Namespace.mk "ns:Foo" "Foo" (Some "ns:<global>") None None.

Definition manifestFoo : ManifestRoot := withNamespaces [nsFoo] emptyManifest.

(** An entry whose first section carries the reserved heading and a
    hint, and which has no cross-references. *)
Definition entryWithSeeAlsoSection : SidecarEntry :=
  SidecarEntry.mk None
    (Some [SidecarSection.mk "See Also" "Related reading" (Some 1%Z);
           SidecarSection.mk "Remarks" "Some remarks" None])
    None.

(** Sections with and without hints. *)
Definition entryWithHints : SidecarEntry :=
  SidecarEntry.mk (Some "An entry")
    (Some [SidecarSection.mk "Notes" "n" None;
           SidecarSection.mk "Examples" "e" (Some 20%Z);
           SidecarSection.mk "See Also" "x" (Some 1%Z);
           SidecarSection.mk "Usage" "u" None;
           SidecarSection.mk "Remarks" "r" (Some 10%Z)])
    (Some ["type:Foo.Bar"]).

(** An entry that refers to a UID that the manifest does not know. *)
Definition entryWithDanglingRef : SidecarEntry :=
  SidecarEntry.mk None None (Some ["type:Foo.Missing"]).

(** Two namespaces that list each other as a child. *)
Definition nsA : Namespace :=
  Namespace.mk "ns:A" "A" (Some "ns:<global>") (Some ["ns:B"]) None.
Definition nsB : Namespace :=
  Namespace.mk "ns:B" "B" (Some "ns:A") (Some ["ns:A"]) None.
Definition manifestCycle : ManifestRoot := withNamespaces [nsA; nsB] emptyManifest.

(** A root namespace with the name of the sidecar folder. *)
Definition nsSidecars : Namespace :=
  Namespace.mk "ns:sidecars" "sidecars" (Some "ns:<global>") None None.
Definition manifestSidecars : ManifestRoot :=
  withNamespaces [nsSidecars] emptyManifest.

(** The global namespace listing a compiler-generated class and a
    nested class, and nothing else. *)
Definition closure : AnyType :=
  AnyType.mk "type:Closure" "Closure" KClass "ns:<global>" "asm:Game"
    None None None None false true None.
Definition innerOfGlobal : AnyType :=
  AnyType.mk "type:Outer.Inner" "Inner" KClass "ns:<global>" "asm:Game"
    (Some "type:Outer") None None None false false None.
Definition nsGlobal : Namespace :=
  Namespace.mk "ns:<global>" "" None None
    (Some ["type:Closure"; "type:Outer.Inner"]).
Definition manifestGlobal : ManifestRoot :=
  withTypes [closure; innerOfGlobal] (withNamespaces [nsGlobal] emptyManifest).

(** The namespace [Lib] with a class [Hidden] that carries an attribute
    of an ignored kind, and a class [Outer] with a nested class [Inner]
    that carries the same attribute. *)
Definition hideAttribute : AttributeData.t :=
  AttributeData.mk "attr:00000001" "type:Lib.HideInDocsAttribute".
Definition hidden : AnyType :=
  AnyType.mk "type:Lib.Hidden" "Hidden" KClass "ns:Lib" "asm:Game"
    None None None (Some ["attr:00000001"]) false false None.
Definition outer : AnyType :=
  AnyType.mk "type:Lib.Outer" "Outer" KClass "ns:Lib" "asm:Game"
    None (Some ["type:Lib.Outer.Inner"]) None None false false None.
Definition inner : AnyType :=
  AnyType.mk "type:Lib.Outer.Inner" "Inner" KClass "ns:Lib" "asm:Game"
    (Some "type:Lib.Outer") None None (Some ["attr:00000001"]) false false None.
Definition nsLib : Namespace :=
  Namespace.mk "ns:Lib" "Lib" (Some "ns:<global>") None
    (Some ["type:Lib.Hidden"; "type:Lib.Outer"]).
Definition manifestLib : ManifestRoot :=
  withAttributes [hideAttribute]
    (withTypes [hidden; outer; inner] (withNamespaces [nsLib] emptyManifest)).
Definition configLib : FSConfiguration :=
  configOf "docs" "sidecars" {[ "type:Lib.HideInDocsAttribute" := true ]}
    manifestLib.

(** A namespace that lists a compiler-generated class. *)
Definition nsGen : Namespace :=
  Namespace.mk "ns:Gen" "Gen" (Some "ns:<global>") None (Some ["type:Closure"]).
Definition manifestGen : ManifestRoot :=
  withTypes [closure] (withNamespaces [nsGen] emptyManifest).
End Sample.


(* ================================================================== *)
(** ** sidecars.ts: the builder *)

(** [SidecarBuilder]: the state of a builder is the entry under
    construction; every method returns the builder, that is the new
    state. *)
Module SidecarBuilder.
Definition new : SidecarEntry := SidecarEntry.mk None None None.

Definition description (text : string) (entry : SidecarEntry) : SidecarEntry :=
  SidecarEntry.mk (Some text) (SidecarEntry.sections entry)
    (SidecarEntry.seeAlso entry).

Definition section (heading content : string) (order : option Z)
  (entry : SidecarEntry) : SidecarEntry :=
  SidecarEntry.mk (SidecarEntry.description entry)
    (Some (default [] (SidecarEntry.sections entry)
           ++ [SidecarSection.mk heading content order]))
    (SidecarEntry.seeAlso entry).

Definition remarks (content : string) : SidecarEntry → SidecarEntry :=
  section StandardHeadings.REMARKS content (Some 10%Z).
Definition examples (content : string) : SidecarEntry → SidecarEntry :=
  section StandardHeadings.EXAMPLES content (Some 20%Z).
Definition exceptions (content : string) : SidecarEntry → SidecarEntry :=
  section StandardHeadings.EXCEPTIONS content (Some 30%Z).
Definition threadSafety (content : string) : SidecarEntry → SidecarEntry :=
  section StandardHeadings.THREAD_SAFETY content (Some 40%Z).
Definition performance (content : string) : SidecarEntry → SidecarEntry :=
  section StandardHeadings.PERFORMANCE content (Some 50%Z).

Definition seeAlso (uids : list UID) (entry : SidecarEntry) : SidecarEntry :=
  SidecarEntry.mk (SidecarEntry.description entry) (SidecarEntry.sections entry)
    (Some (default [] (SidecarEntry.seeAlso entry) ++ uids)).

Definition build (entry : SidecarEntry) : SidecarEntry := entry.
End SidecarBuilder.

Definition createSidecar : SidecarEntry := SidecarBuilder.new.

(* ================================================================== *)
(** ** components/NamespaceList: the hierarchy of a namespace key *)

Module HierarchyEntry.
Record t := mk {
  name : string;
  path : string
}.
End HierarchyEntry.

(** [getHierarchy]: [parts.slice(0, i + 1).join(".")] is
    [String.concat "." (take (i + 1) parts)]. *)
Definition getHierarchy (namespaceKey : string) : list HierarchyEntry.t :=
  if String.eqb namespaceKey ""
     || String.eqb namespaceKey "global-namespace"
     || String.eqb namespaceKey ".global"
  then []
  else
    let parts := splitOn "." namespaceKey in
    if length parts <=? 1 then []
    else imap (λ i name,
                 HierarchyEntry.mk name
                   ("/api/" +:+ String.concat "." (take (i + 1) parts)))
              parts.

(* ================================================================== *)
(** ** Notions used by the further properties *)

(** Every character of a string passes a test. *)
Fixpoint stringForall (p : ascii → bool) (s : string) : bool :=
  match s with
  | EmptyString => true
  | String c s' => p c && stringForall p s'
  end.

(** A key with a dot in it. *)
Definition hasDot (key : string) : bool :=
  negb (stringForall (λ c, negb (Ascii.eqb c ".")) key).

(** The five methods of the builder that add a section under a standard
    heading, and a chain of calls of them. *)
Inductive helper :=
  | HRemarks | HExamples | HExceptions | HThreadSafety | HPerformance.

Global Instance helper_eq_dec : EqDecision helper.
Proof. solve_decision. Defined.

Definition callHelper (entry : SidecarEntry) (call : helper * string)
  : SidecarEntry :=
  match call.1 with
  | HRemarks => SidecarBuilder.remarks call.2 entry
  | HExamples => SidecarBuilder.examples call.2 entry
  | HExceptions => SidecarBuilder.exceptions call.2 entry
  | HThreadSafety => SidecarBuilder.threadSafety call.2 entry
  | HPerformance => SidecarBuilder.performance call.2 entry
  end.

Definition helperHeading (h : helper) : string :=
  match h with
  | HRemarks => StandardHeadings.REMARKS
  | HExamples => StandardHeadings.EXAMPLES
  | HExceptions => StandardHeadings.EXCEPTIONS
  | HThreadSafety => StandardHeadings.THREAD_SAFETY
  | HPerformance => StandardHeadings.PERFORMANCE
  end.

Definition helperOrder (h : helper) : Z :=
  match h with
  | HRemarks => 10 | HExamples => 20 | HExceptions => 30
  | HThreadSafety => 40 | HPerformance => 50
  end.

(** The sections that the calls of one helper add, in the order of
    the calls. *)
Definition sectionsBy (h : helper) (calls : list (helper * string))
  : list SidecarSection :=
  (λ call, SidecarSection.mk (helperHeading h) call.2 (Some (helperOrder h)))
    <$> filter (λ call, call.1 = h) calls.

(** The headings of a page with their levels, and its front matter, in
    the order in which the builder received them. *)
Definition outline (page : MarkdownBuilder) : list (string * nat) :=
  omap (λ c, match c with AddHeading text level => Some (text, level) | _ => None end)
       page.

Definition frontMatter (page : MarkdownBuilder) : list (string * string) :=
  omap (λ c, match c with SetFrontMatter key value => Some (key, value) | _ => None end)
       page.

(** The rows of a type and of a namespace in the tables of types and
    of nested namespaces. *)
Definition typeRow (uidToSlugFn : UID → string) (sidecars : SidecarCollection)
  (type : AnyType) : list md :=
  [MdLink (AnyType.name type) (uidToSlugFn (AnyType.uid type));
   Str (getInlineDescription (AnyType.uid type) sidecars)].

Definition namespaceRow (uidToSlugFn : UID → string)
  (sidecars : SidecarCollection) (namespace : Namespace) : list md :=
  [MdLink (Namespace.name namespace) (uidToSlugFn (Namespace.uid namespace));
   Str (getInlineDescription (Namespace.uid namespace) sidecars)].

(** The row of a member in the table of members. *)
Definition memberRow (uidToSlugFn : UID → string) (sidecars : SidecarCollection)
  (member : AnyMember) : list md :=
  [MdLink (AnyMember.name member) (uidToSlugFn (AnyMember.uid member));
   Str (getInlineDescription (AnyMember.uid member) sidecars)].

(** The kinds a filter of [getMembersTable] lets through. *)
Definition kindShown (filterMemberKind : option (list MemberKind))
  (member : AnyMember) : Prop :=
  match filterMemberKind with
  | Some kinds => AnyMember.memberKind member ∈ kinds
  | None => True
  end.

#[global] Instance kindShown_dec filterMemberKind member :
  Decision (kindShown filterMemberKind member).
Proof. destruct filterMemberKind; simpl; apply _. Defined.

(** An attribute that resolves and whose type the configuration marks
    as ignored. *)
Definition ignoredAttribute (config : FSConfiguration) (attrUid : UID) : bool :=
  match ManifestRoot.attributes (FSConfiguration.manifest config) !! attrUid with
  | Some attr =>
      default false (FSConfiguration.ignoreAttributes config
                       !! AttributeData.attributeType attr)
  | None => false
  end.

(** A member that is not compiler generated and carries an attribute. *)
Definition attributed (member : AnyMember) : bool :=
  negb (AnyMember.isCompilerGenerated member)
  && match AnyMember.attributes member with
     | Some (_ :: _) => true
     | _ => false
     end.

(** The members of the given kinds. *)
Definition ofKinds (kinds : list MemberKind) (members : list AnyMember)
  : list AnyMember :=
  filter (λ m, AnyMember.memberKind m ∈ kinds) members.

(** A key that an object used as a map holds as an own key in insertion
    order: not an inherited name and not an array index. *)
Definition plainKey (name : string) : Prop :=
  (name ∉ inheritedKeys) ∧ allDigits name = false.

(** A declared type that gets a node of its own in the folder of its
    namespace: not ignored by the configuration and not nested. *)
Definition topLevelKept (config : FSConfiguration) (type : AnyType) : bool :=
  negb (AnyType.isCompilerGenerated type
        || existsb (ignoredAttribute config) (default [] (AnyType.attributes type)))
  && negb (truthyString (AnyType.enclosingType type)).

(** A name that is one path segment. *)
Definition noSlash (name : string) : bool :=
  stringForall (λ c, negb (nat_of_ascii c =? 47)) name.

(** The directories a log creates. *)
Definition created (log : list fsCall) : list string :=
  log ≫= (λ c, match c with Mkdir p => [p] | WriteFile _ _ => [] end).

(** A name that is one real path segment: not empty, not [.] or [..],
    and without a slash. *)
Definition properSegment (name : string) : bool :=
  negb (String.eqb name "") && negb (String.eqb name ".")
  && negb (String.eqb name "..") && noSlash name.

(** A directory path that [path.join] leaves as it is and extends by
    plain concatenation: normalized, not [.], without a slash at the
    end. *)
Definition normalDir (dir : string) : bool :=
  negb (String.eqb dir ".") && String.eqb (normalize dir) dir
  && negb (endsWithSlash dir).

(** [within dir p]: the path [p] is [dir] or lies in the tree below it:
    it is reached from [dir] through proper segments. *)
Definition within (dir p : string) : Prop :=
  ∃ segments : list string,
    Forall (λ segment, properSegment segment = true) segments
    ∧ p = foldl (λ d segment, d +:+ "/" +:+ segment) dir segments.

(** The names from which the generator makes a directory are proper
    segments once sanitized: the names of the namespaces it is given and
    of the namespaces and types of the manifest. *)
Definition properName (name : string) : Prop :=
  properSegment (sanitizeFileName name) = true.

Definition namesProper (manifest : ManifestRoot)
  (namespaceEntries : list (UID * Namespace)) : Prop :=
  (∀ uid namespace, (uid, namespace) ∈ namespaceEntries →
     properName (Namespace.name namespace))
  ∧ (∀ uid namespace, ManifestRoot.namespaces manifest !! uid = Some namespace →
       properName (Namespace.name namespace))
  ∧ (∀ uid type, ManifestRoot.types manifest !! uid = Some type →
       properName (AnyType.name type)).

(** A configuration with other sidecar settings, and the same change
    in the argument of the ignore predicate. *)
Definition withSidecarSettings (shouldGenerateSidecars : bool)
  (sidecarsOutputDir : string) (config : FSConfiguration) : FSConfiguration :=
  FSConfiguration.mk (FSConfiguration.ignoreAttributes config)
    (FSConfiguration.globalNamespaceName config)
    (FSConfiguration.outputDir config) shouldGenerateSidecars sidecarsOutputDir
    (FSConfiguration.gameVersion config) (FSConfiguration.manifest config).

Definition argWithSidecarSettings (shouldGenerateSidecars : bool)
  (sidecarsOutputDir : string) (arg : ignoreArg) : ignoreArg :=
  match arg with
  | ArgConfig config =>
      ArgConfig (withSidecarSettings shouldGenerateSidecars sidecarsOutputDir config)
  | ArgManifest manifest => ArgManifest manifest
  end.

(** [parentsFirst known log]: every call of the log names a path that
    lies directly in a directory that is known or that an earlier call
    of the log created: the path is that directory, a slash and one
    proper segment. *)
Fixpoint parentsFirst (known : list string) (log : list fsCall) : Prop :=
  match log with
  | [] => True
  | c :: rest =>
      (∃ dir name,
          callPath c = dir +:+ "/" +:+ name ∧ properSegment name = true
          ∧ dir ∈ known)
      ∧ parentsFirst (created [c] ++ known) rest
  end.

(** A run whose log is [parentsFirst] whenever the directories [dirs]
    are known. *)
Definition rootedIn {A} (dirs : list string) (m : Gen A) : Prop :=
  ∀ known, (∀ d, d ∈ dirs → d ∈ known) → parentsFirst known (fst m).

Module Fixture.
(** An entry that exists and documents nothing. *)
Definition blankEntry : SidecarEntry := SidecarEntry.mk (Some "") (Some []) None.

Definition sidecarsBlank : SidecarCollection :=
  Sample.sidecarsOf {[ "ns:Foo" := blankEntry ]}.

Definition sidecarsHints : SidecarCollection :=
  Sample.sidecarsOf {[ "ns:Foo" := Sample.entryWithHints ]}.

Definition withMembers (l : list AnyMember) (m : ManifestRoot) : ManifestRoot :=
  ManifestRoot.mk (ManifestRoot.assemblies m) (ManifestRoot.namespaces m)
    (ManifestRoot.types m)
    (list_to_map ((λ x, (AnyMember.uid x, x)) <$> l))
    (ManifestRoot.genericParameters m) (ManifestRoot.attributes m)
    (ManifestRoot.staticConstructors m).

(** A class [Rocket] with a constructor, two overloads of a method, a
    field and a member UID that the manifest does not know. *)
Definition ctor : AnyMember :=
  AnyMember.mk "member:Game.Rocket..ctor" ".ctor" MConstructor "type:Game.Rocket"
    None false.
Definition launch : AnyMember :=
  AnyMember.mk "member:Game.Rocket.Launch" "Launch" MMethod "type:Game.Rocket"
    None false.
Definition launchAt : AnyMember :=
  AnyMember.mk "member:Game.Rocket.Launch(System.Int32)" "Launch" MMethod
    "type:Game.Rocket" None false.
Definition mass : AnyMember :=
  AnyMember.mk "member:Game.Rocket.mass" "mass" MField "type:Game.Rocket"
    None false.
Definition rocket : AnyType :=
  AnyType.mk "type:Game.Rocket" "Rocket" KClass "ns:Game" "asm:Game" None None
    (Some ["member:Game.Rocket..ctor"; "member:Game.Rocket.Launch";
           "member:Game.Rocket.Missing"; "member:Game.Rocket.mass";
           "member:Game.Rocket.Launch(System.Int32)"])
    None false false None.
Definition nsGame : Namespace :=
  Namespace.mk "ns:Game" "Game" (Some "ns:<global>") None (Some ["type:Game.Rocket"]).
Definition manifestGame : ManifestRoot :=
  withMembers [ctor; launch; launchAt; mass]
    (Sample.withTypes [rocket] (Sample.withNamespaces [nsGame] Sample.emptyManifest)).

(** A class [Engine] whose only field carries an attribute. *)
Definition thrust : AnyMember :=
  AnyMember.mk "member:Game.Engine.thrust" "thrust" MField "type:Game.Engine"
    (Some ["attr:00000002"]) false.
Definition engine : AnyType :=
  AnyType.mk "type:Game.Engine" "Engine" KClass "ns:Game" "asm:Game" None None
    (Some ["member:Game.Engine.thrust"]) None false false None.
Definition manifestEngine : ManifestRoot :=
  withMembers [thrust] (Sample.withTypes [engine] Sample.emptyManifest).

(** A namespace [Game] with a class that has a nested class, and with a
    child namespace [Game.Parts] that has a struct. *)
Definition booster : AnyType :=
  AnyType.mk "type:Game.Booster" "Booster" KClass "ns:Game" "asm:Game" None
    (Some ["type:Game.Booster.Nozzle"]) None None false false None.
Definition nozzle : AnyType :=
  AnyType.mk "type:Game.Booster.Nozzle" "Nozzle" KClass "ns:Game" "asm:Game"
    (Some "type:Game.Booster") None None None false false None.
Definition tank : AnyType :=
  AnyType.mk "type:Game.Parts.Tank" "Tank" KStruct "ns:Game.Parts" "asm:Game"
    None None None None false false None.
Definition nsParts : Namespace :=
  Namespace.mk "ns:Game.Parts" "Parts" (Some "ns:Game") None
    (Some ["type:Game.Parts.Tank"]).
Definition nsTree : Namespace :=
  Namespace.mk "ns:Game" "Game" (Some "ns:<global>") (Some ["ns:Game.Parts"])
    (Some ["type:Game.Booster"; "type:Game.Booster.Nozzle"]).
Definition manifestTree : ManifestRoot :=
  Sample.withTypes [booster; nozzle; tank]
    (Sample.withNamespaces [nsTree; nsParts] Sample.emptyManifest).
Definition entriesTree : list (UID * Namespace) :=
  [("ns:Game", nsTree); ("ns:Game.Parts", nsParts)].

(** A root namespace whose name is the parent directory. *)
Definition nsUp : Namespace :=
  Namespace.mk "ns:Up" ".." (Some "ns:<global>") None None.
Definition manifestUp : ManifestRoot :=
  Sample.withNamespaces [nsUp] Sample.emptyManifest.

(** A namespace [Hub] that lists a child and a type that the manifest
    does not know, in front of and behind ones that it knows. *)
Definition nsHub : Namespace :=
  Namespace.mk "ns:Hub" "Hub" (Some "ns:<global>")
    (Some ["ns:Gone"; "ns:Game.Parts"]) (Some ["type:Game.Parts.Tank"; "type:Gone"]).
Definition manifestHub : ManifestRoot :=
  Sample.withTypes [tank]
    (Sample.withNamespaces [nsHub; nsParts] Sample.emptyManifest).

(** An enum [Stage] with one member. *)
Definition stage : AnyType :=
  AnyType.mk "type:Game.Stage" "Stage" KEnum "ns:Game" "asm:Game" None None
    (Some ["member:Game.Stage.Ascent"]) None false false None.
End Fixture.

(* ================================================================== *)
(** * Properties *)

(** ** First-seen union *)

Section FirstSeen.
Context {A : Type} `{EqDecision A}.
Implicit Types l : list A.

Lemma elem_of_unionFirstSeen l x : x ∈ unionFirstSeen l ↔ x ∈ l.
Proof.
  induction l as [|y l IH]; simpl; [done|].
  rewrite !elem_of_cons, list_elem_of_filter, IH.
  destruct (decide (x = y)); subst; intuition congruence.
Qed.

Lemma NoDup_unionFirstSeen l : NoDup (unionFirstSeen l).
Proof.
  induction l as [|y l IH]; simpl; [constructor|].
  constructor.
  - rewrite list_elem_of_filter. intros [Hne _]. by apply Hne.
  - by apply NoDup_filter.
Qed.

Lemma unionFirstSeen_snoc l x :
  unionFirstSeen (l ++ [x]) = pushNew (unionFirstSeen l) x.
Proof.
  unfold pushNew. induction l as [|y l IH]; simpl.
  - done.
  - rewrite IH. destruct (decide (x ∈ unionFirstSeen l)) as [Hin|Hin].
    + rewrite decide_True; [done|].
      destruct (decide (x = y)) as [->|Hne]; [left|].
      right. rewrite list_elem_of_filter. done.
    + rewrite filter_app, filter_cons, filter_nil.
      destruct (decide (x = y)) as [->|Hne].
      * rewrite decide_False by naive_solver.
        rewrite decide_True by left. by rewrite app_nil_r.
      * rewrite decide_True by done.
        rewrite decide_False; [done|].
        rewrite elem_of_cons, list_elem_of_filter. intuition congruence.
Qed.

Lemma foldl_pushNew l : foldl pushNew [] l = unionFirstSeen l.
Proof.
  induction l as [|x l IH] using rev_ind; [done|].
  by rewrite foldl_app, unionFirstSeen_snoc, <- IH.
Qed.
End FirstSeen.

(** ** mergeSidecars *)

Lemma mergeRef_pushNew (refs : list UID) (r : UID) :
  mergeRef (refs, list_to_set refs) r
  = (pushNew refs r, list_to_set (pushNew refs r)).
Proof.
  unfold mergeRef, pushNew. destruct (decide (r ∈ refs)) as [Hin|Hin].
  - by rewrite decide_True by (by apply elem_of_list_to_set).
  - rewrite decide_False by (by rewrite elem_of_list_to_set).
    f_equal. rewrite list_to_set_app_L. simpl.
    rewrite (right_id_L ∅ (∪)). apply (comm_L (∪)).
Qed.

Lemma foldl_mergeRef (rs refs : list UID) :
  foldl mergeRef (refs, list_to_set refs) rs
  = (foldl pushNew refs rs, list_to_set (foldl pushNew refs rs)).
Proof.
  revert refs. induction rs as [|r rs IH]; intros refs; cbn [foldl]; [done|].
  by rewrite mergeRef_pushNew, IH.
Qed.

Lemma mergeSidecars_seeAlso_fold entries merged refs :
  SidecarEntry.seeAlso merged = Some refs →
  SidecarEntry.seeAlso (foldl mergeEntry merged entries)
  = Some (foldl pushNew refs (allSeeAlso entries)).
Proof.
  revert merged refs. induction entries as [|e entries IH]; intros merged refs Hm.
  - done.
  - cbn [foldl]. unfold allSeeAlso. rewrite bind_cons, foldl_app.
    apply IH. simpl. rewrite Hm. simpl.
    destruct (SidecarEntry.seeAlso e) as [rs|]; simpl; [|done].
    by rewrite foldl_mergeRef.
Qed.

Lemma mergeSidecars_sections_fold entries merged ss :
  SidecarEntry.sections merged = Some ss →
  SidecarEntry.sections (foldl mergeEntry merged entries)
  = Some (foldl mergeSection ss (allSections entries)).
Proof.
  revert merged ss. induction entries as [|e entries IH]; intros merged ss Hm.
  - done.
  - cbn [foldl]. unfold allSections. rewrite bind_cons, foldl_app.
    apply IH. simpl. rewrite Hm. simpl.
    by destruct (SidecarEntry.sections e).
Qed.

Lemma omap_cons_eq {A B} (f : A → option B) x (l : list A) :
  omap f (x :: l)
  = match f x with Some y => y :: omap f l | None => omap f l end.
Proof. reflexivity. Qed.

Lemma lastNonEmptyDescription_cons e entries :
  lastNonEmptyDescription (e :: entries)
  = match lastNonEmptyDescription entries with
    | Some d => Some d
    | None => if truthyString (SidecarEntry.description e)
              then SidecarEntry.description e else None
    end.
Proof.
  unfold lastNonEmptyDescription. rewrite omap_cons_eq.
  destruct (truthyString (SidecarEntry.description e)).
  - destruct (SidecarEntry.description e) as [d|]; [|case_match; reflexivity].
    rewrite last_cons. case_match; reflexivity.
  - case_match; reflexivity.
Qed.

Lemma mergeSidecars_description_fold entries merged :
  SidecarEntry.description (foldl mergeEntry merged entries)
  = match lastNonEmptyDescription entries with
    | Some d => Some d
    | None => SidecarEntry.description merged
    end.
Proof.
  revert merged. induction entries as [|e entries IH]; intros merged; [done|].
  cbn [foldl]. rewrite IH, lastNonEmptyDescription_cons.
  destruct (lastNonEmptyDescription entries); [done|].
  simpl. by destruct (SidecarEntry.description e) as [[|]|].
Qed.

(** The headings of the merged sections, in order. *)
Lemma mergeSection_headings (all : list SidecarSection) :
  SidecarSection.heading <$> foldl mergeSection [] all
  = unionFirstSeen (SidecarSection.heading <$> all).
Proof.
  induction all as [|s all IH] using rev_ind; [done|].
  rewrite foldl_app, fmap_app. simpl. rewrite unionFirstSeen_snoc, <- IH.
  unfold mergeSection, pushNew.
  destruct (list_find _ _) as [[i s']|] eqn:Hf.
  - apply list_find_Some in Hf as (Hi & Hh & _).
    rewrite list_fmap_insert.
    rewrite list_insert_id by (by rewrite list_lookup_fmap, Hi; simpl; f_equal).
    rewrite decide_True; [done|].
    apply list_elem_of_fmap. exists s'. split; [done|].
    by eapply list_elem_of_lookup_2.
  - rewrite list_find_None in Hf.
    rewrite decide_False; [by rewrite fmap_app|].
    intros (s' & Hh & Hin)%list_elem_of_fmap.
    rewrite Forall_forall in Hf. by apply (Hf s').
Qed.

Lemma lastWithHeading_snoc h all s :
  lastWithHeading h (all ++ [s])
  = if decide (SidecarSection.heading s = h) then Some s
    else lastWithHeading h all.
Proof.
  unfold lastWithHeading. rewrite filter_app, filter_cons, filter_nil.
  destruct (decide _); [by rewrite last_snoc|by rewrite app_nil_r].
Qed.

(** Every merged section is the last input section of its heading. *)
Lemma mergeSection_last (all : list SidecarSection) s :
  s ∈ foldl mergeSection [] all →
  lastWithHeading (SidecarSection.heading s) all = Some s.
Proof.
  revert s. induction all as [|s0 all IH] using rev_ind; intros s.
  - simpl. by intros ?%elem_of_nil.
  - rewrite foldl_app. simpl. rewrite lastWithHeading_snoc.
    pose proof (NoDup_unionFirstSeen (SidecarSection.heading <$> all)) as Hnd.
    rewrite <- mergeSection_headings in Hnd.
    specialize (IH s).
    set (M := foldl mergeSection [] all) in *. clearbody M.
    unfold mergeSection.
    destruct (list_find _ _) as [[i s']|] eqn:Hf.
    + apply list_find_Some in Hf as (Hi & Hh & _).
      intros (j & Hj)%list_elem_of_lookup.
      destruct (decide (i = j)) as [<-|Hij].
      * rewrite list_lookup_insert_eq in Hj by (by eapply lookup_lt_Some).
        injection Hj as <-. by rewrite decide_True.
      * rewrite list_lookup_insert_ne in Hj by done.
        rewrite decide_False; [apply IH; by eapply list_elem_of_lookup_2|].
        intros Heq. apply Hij.
        eapply NoDup_lookup; [exact Hnd| |].
        -- rewrite list_lookup_fmap, Hi. simpl. reflexivity.
        -- rewrite list_lookup_fmap, Hj. simpl. by rewrite <- Heq, Hh.
    + rewrite list_find_None, Forall_forall in Hf.
      intros [Hin| ->%list_elem_of_singleton]%elem_of_app.
      * rewrite decide_False; [by apply IH|].
        intros Heq. by apply (Hf s).
      * by rewrite decide_True.
Qed.

Lemma filter_none {A} (P : A → Prop) `{∀ x, Decision (P x)} (l : list A) :
  (∀ x, x ∈ l → ¬ P x) → filter P l = [].
Proof.
  induction l as [|y l IH]; intros Hl; [done|].
  rewrite filter_cons, decide_False by (apply Hl; left).
  apply IH. intros x Hx. apply Hl. by right.
Qed.

Lemma filter_heading_NoDup (l : list SidecarSection) s :
  NoDup (SidecarSection.heading <$> l) → s ∈ l →
  filter (λ x, SidecarSection.heading x = SidecarSection.heading s) l = [s].
Proof.
  induction l as [|y l IH]; [by intros _ ?%elem_of_nil|].
  rewrite fmap_cons, NoDup_cons. intros [Hy Hnd] Hin.
  rewrite filter_cons. apply elem_of_cons in Hin as [->|Hin].
  - rewrite decide_True by done. f_equal.
    apply filter_none. intros x Hx Heq.
    apply Hy. rewrite <- Heq. apply list_elem_of_fmap. eauto.
  - rewrite decide_False; [by apply IH|].
    intros Heq. apply Hy. rewrite Heq. apply list_elem_of_fmap. eauto.
Qed.

(** C3. Merging sidecar entries given from the least to the most
    specific one: the description of the result is the last non-empty
    description of the inputs (none if there is none); its sections
    carry the headings of all input sections in first-seen order (a
    repeated heading keeps its place, a new one is appended) and each
    of them is the last input section of its heading.  In particular,
    when [A] and [B] both declare a section headed [h] (such as
    "Remarks"), merging [A] then [B] leaves exactly one section headed
    [h], and it is the section of [B]. *)
Theorem mergeSidecars_description_sections :
  (∀ entries : list SidecarEntry,
     SidecarEntry.description (mergeSidecars entries)
     = lastNonEmptyDescription entries
     ∧ ∃ ss, SidecarEntry.sections (mergeSidecars entries) = Some ss
         ∧ SidecarSection.heading <$> ss
           = unionFirstSeen (SidecarSection.heading <$> allSections entries)
         ∧ ∀ s, s ∈ ss →
             lastWithHeading (SidecarSection.heading s) (allSections entries)
             = Some s)
  ∧ (∀ (A B : SidecarEntry) (h : string) (sa sb : SidecarSection),
       sa ∈ default [] (SidecarEntry.sections A) →
       SidecarSection.heading sa = h →
       sb ∈ default [] (SidecarEntry.sections B) →
       SidecarSection.heading sb = h →
       ∃ s ss, SidecarEntry.sections (mergeSidecars [A; B]) = Some ss
         ∧ filter (λ x, SidecarSection.heading x = h) ss = [s]
         ∧ lastWithHeading h (default [] (SidecarEntry.sections B)) = Some s).
Proof.
  assert (Hgen : ∀ entries : list SidecarEntry,
     SidecarEntry.description (mergeSidecars entries)
     = lastNonEmptyDescription entries
     ∧ ∃ ss, SidecarEntry.sections (mergeSidecars entries) = Some ss
         ∧ SidecarSection.heading <$> ss
           = unionFirstSeen (SidecarSection.heading <$> allSections entries)
         ∧ ∀ s, s ∈ ss →
             lastWithHeading (SidecarSection.heading s) (allSections entries)
             = Some s).
  { intros entries. unfold mergeSidecars. split.
    - rewrite mergeSidecars_description_fold. by case_match.
    - eexists. split; [by apply mergeSidecars_sections_fold|].
      split; [apply mergeSection_headings|apply mergeSection_last]. }
  split; [exact Hgen|].
  intros A B h sa sb Hsa Hha Hsb Hhb.
  destruct (Hgen [A; B]) as (_ & ss & Hss & Hheads & Hlast).
  set (secA := default [] (SidecarEntry.sections A)) in *.
  set (secB := default [] (SidecarEntry.sections B)) in *.
  assert (Hall : allSections [A; B] = secA ++ secB).
  { unfold allSections. rewrite !bind_cons. simpl. by rewrite app_nil_r. }
  rewrite Hall in Hheads, Hlast.
  assert (Hin : h ∈ SidecarSection.heading <$> ss).
  { rewrite Hheads, elem_of_unionFirstSeen, fmap_app, elem_of_app.
    right. apply list_elem_of_fmap. eauto. }
  apply list_elem_of_fmap in Hin as (s & -> & Hs).
  exists s, ss. split; [done|]. split.
  - apply filter_heading_NoDup; [|done].
    rewrite Hheads. apply NoDup_unionFirstSeen.
  - specialize (Hlast s Hs). unfold lastWithHeading in *.
    rewrite filter_app, last_app in Hlast.
    destruct (last (filter _ secB)) as [s'|] eqn:Hl; [done|].
    apply last_None in Hl.
    exfalso. by eapply (filter_nil_not_elem_of _ secB sb).
Qed.

(** The instance of C3 on two entries that both declare "Remarks". *)
Lemma mergeSidecars_remarks_witness :
  ∃ s ss,
    SidecarEntry.sections
      (mergeSidecars
         [SidecarEntry.mk (Some "base")
            (Some [SidecarSection.mk "Remarks" "from A" None;
                   SidecarSection.mk "Examples" "ex" None]) None;
          SidecarEntry.mk None
            (Some [SidecarSection.mk "Remarks" "from B" (Some 10%Z)]) None])
    = Some ss
    ∧ filter (λ x, SidecarSection.heading x = "Remarks") ss = [s]
    ∧ lastWithHeading "Remarks"
        (default []
           (SidecarEntry.sections
              (SidecarEntry.mk None
                 (Some [SidecarSection.mk "Remarks" "from B" (Some 10%Z)]) None)))
      = Some s.
Proof.
  apply (proj2 mergeSidecars_description_sections _ _ "Remarks"
           (SidecarSection.mk "Remarks" "from A" None)
           (SidecarSection.mk "Remarks" "from B" (Some 10%Z))).
  - simpl. left.
  - reflexivity.
  - simpl. left.
  - reflexivity.
Defined.

(** C4. The see-also list of a merge is the union of the see-also
    lists of the inputs in first-seen order and without duplicates; in
    particular [x, y] merged with [y, z] gives [x, y, z]. *)
Theorem mergeSidecars_seeAlso_union :
  (∀ entries : list SidecarEntry,
     SidecarEntry.seeAlso (mergeSidecars entries)
     = Some (unionFirstSeen (allSeeAlso entries))
     ∧ NoDup (unionFirstSeen (allSeeAlso entries))
     ∧ ∀ ref, ref ∈ unionFirstSeen (allSeeAlso entries)
              ↔ ∃ e, e ∈ entries ∧ ref ∈ default [] (SidecarEntry.seeAlso e))
  ∧ (∀ (x y z : UID) d1 s1 d2 s2,
       x ≠ y → y ≠ z → x ≠ z →
       SidecarEntry.seeAlso
         (mergeSidecars [SidecarEntry.mk d1 s1 (Some [x; y]);
                         SidecarEntry.mk d2 s2 (Some [y; z])])
       = Some [x; y; z]).
Proof.
  assert (Hgen : ∀ entries : list SidecarEntry,
     SidecarEntry.seeAlso (mergeSidecars entries)
     = Some (unionFirstSeen (allSeeAlso entries))).
  { intros entries. unfold mergeSidecars.
    erewrite mergeSidecars_seeAlso_fold by reflexivity.
    by rewrite foldl_pushNew. }
  split.
  - intros entries. split; [apply Hgen|]. split; [apply NoDup_unionFirstSeen|].
    intros ref. rewrite elem_of_unionFirstSeen. unfold allSeeAlso.
    rewrite list_elem_of_bind. split; intros (e & ? & ?); eauto.
  - intros x y z d1 s1 d2 s2 Hxy Hyz Hxz. rewrite Hgen.
    unfold allSeeAlso. rewrite !bind_cons. simpl.
    repeat (first [rewrite filter_cons | rewrite filter_nil | case_decide];
            try congruence).
Qed.

(** The instance of C4 on the references [x], [y] and [z]. *)
Lemma mergeSidecars_seeAlso_witness :
  SidecarEntry.seeAlso
    (mergeSidecars [SidecarEntry.mk None None (Some ["x"; "y"]);
                    SidecarEntry.mk None None (Some ["y"; "z"])])
  = Some ["x"; "y"; "z"].
Proof.
  apply (proj2 mergeSidecars_seeAlso_union "x" "y" "z"); discriminate.
Defined.

(** ** getSectionsInOrder *)

Section SectionOrder.
Implicit Types s x y : SidecarSection.
Implicit Types l hs us : list SidecarSection.

Lemma sortInsert_Forall {A} (cmp : A → A → Z) (P : A → Prop) a (l : list A) :
  Forall P (sortInsert cmp a l) ↔ P a ∧ Forall P l.
Proof.
  induction l as [|b l IH]; simpl.
  - rewrite Forall_singleton, Forall_nil. tauto.
  - destruct (cmp a b <=? 0)%Z.
    + by rewrite Forall_cons.
    + rewrite !Forall_cons, IH. tauto.
Qed.

Lemma jsSort_Forall {A} (cmp : A → A → Z) (P : A → Prop) (l : list A) :
  Forall P (jsSort cmp l) ↔ Forall P l.
Proof.
  induction l as [|a l IH]; [done|].
  unfold jsSort in *. cbn [foldr]. by rewrite sortInsert_Forall, Forall_cons, IH.
Qed.

Lemma sortInsert_Permutation {A} (cmp : A → A → Z) a (l : list A) :
  sortInsert cmp a l ≡ₚ a :: l.
Proof.
  induction l as [|b l IH]; simpl; [done|].
  destruct (cmp a b <=? 0)%Z; [done|].
  rewrite IH. apply Permutation_swap.
Qed.

Lemma jsSort_Permutation {A} (cmp : A → A → Z) (l : list A) :
  jsSort cmp l ≡ₚ l.
Proof.
  induction l as [|a l IH]; [done|].
  unfold jsSort in *. cbn [foldr]. by rewrite sortInsert_Permutation, IH.
Qed.

(** An unhinted section goes behind every hinted one and in front of
    the unhinted ones that are already placed. *)
Lemma sortInsert_unhinted x hs us :
  SidecarSection.order x = None →
  Forall (λ s, is_Some (SidecarSection.order s)) hs →
  Forall (λ s, SidecarSection.order s = None) us →
  sortInsert compareSections x (hs ++ us) = hs ++ x :: us.
Proof.
  intros Hx Hhs Hus. induction Hhs as [|y hs [k Hy] _ IH]; simpl.
  - destruct Hus as [|y us Hy _]; [done|]. simpl.
    unfold compareSections. by rewrite Hx, Hy.
  - unfold compareSections at 1. rewrite Hx, Hy. simpl. by rewrite IH.
Qed.

(** A hinted section finds its place among the hinted ones. *)
Lemma sortInsert_hinted x hs us :
  is_Some (SidecarSection.order x) →
  Forall (λ s, SidecarSection.order s = None) us →
  sortInsert compareSections x (hs ++ us)
  = sortInsert compareSections x hs ++ us.
Proof.
  intros [k Hx] Hus. induction hs as [|y hs IH]; simpl.
  - destruct Hus as [|y us Hy _]; [done|]. simpl.
    unfold compareSections. by rewrite Hx, Hy.
  - destruct (compareSections x y <=? 0)%Z; [done|]. by rewrite IH.
Qed.

Lemma jsSort_split l :
  jsSort compareSections l
  = jsSort compareSections (filter (λ s, is_Some (SidecarSection.order s)) l)
    ++ filter (λ s, SidecarSection.order s = None) l.
Proof.
  induction l as [|x l IH]; [done|].
  unfold jsSort in *. cbn [foldr]. rewrite IH, !filter_cons.
  destruct (SidecarSection.order x) as [k|] eqn:Hx.
  - rewrite decide_True by eauto. rewrite decide_False by done.
    cbn [foldr]. apply sortInsert_hinted; [by rewrite Hx|].
    apply Forall_forall. by intros s [? _]%list_elem_of_filter.
  - rewrite decide_False by (by intros [? ?]). rewrite decide_True by done.
    apply sortInsert_unhinted; [done| |].
    + apply (jsSort_Forall compareSections), Forall_forall.
      by intros s [? _]%list_elem_of_filter.
    + apply Forall_forall. by intros s [? _]%list_elem_of_filter.
Qed.

Lemma sortInsert_sorted x hs :
  is_Some (SidecarSection.order x) →
  Forall (λ s, is_Some (SidecarSection.order s)) hs →
  StronglySorted (λ a b, (hint a ≤ hint b)%Z) hs →
  StronglySorted (λ a b, (hint a ≤ hint b)%Z) (sortInsert compareSections x hs).
Proof.
  intros [k Hx] Hhs Hs. induction Hs as [|y hs Hs IH Hy]; simpl.
  - repeat constructor.
  - apply Forall_cons in Hhs as [[ky Hky] Hhs].
    unfold compareSections at 1. rewrite Hx, Hky.
    destruct (k - ky <=? 0)%Z eqn:Hc.
    + apply Z.leb_le in Hc. constructor; [by constructor|].
      constructor; [unfold hint; rewrite Hx, Hky; simpl; lia|].
      eapply Forall_impl; [exact Hy|]. intros s. simpl.
      unfold hint. rewrite Hx, Hky. simpl. lia.
    + apply Z.leb_gt in Hc. constructor; [by apply IH|].
      apply sortInsert_Forall. split; [|done].
      unfold hint. rewrite Hx, Hky. simpl. lia.
Qed.

Lemma jsSort_sorted l :
  Forall (λ s, is_Some (SidecarSection.order s)) l →
  StronglySorted (λ a b, (hint a ≤ hint b)%Z) (jsSort compareSections l).
Proof.
  induction 1 as [|x l Hx Hl IH]; [constructor|].
  unfold jsSort in *. cbn [foldr].
  apply sortInsert_sorted; [done| |done].
  by apply (jsSort_Forall compareSections).
Qed.

(** Sections with the same hint keep their order: a section is placed
    in front of the first one whose hint is not smaller. *)
Lemma sortInsert_stable x hs k :
  is_Some (SidecarSection.order x) →
  Forall (λ s, is_Some (SidecarSection.order s)) hs →
  filter (λ s, SidecarSection.order s = Some k) (sortInsert compareSections x hs)
  = filter (λ s, SidecarSection.order s = Some k) (x :: hs).
Proof.
  intros [kx Hx] Hhs. induction Hhs as [|y hs [ky Hy] _ IH]; simpl; [done|].
  unfold compareSections at 1. rewrite Hx, Hy.
  destruct (kx - ky <=? 0)%Z eqn:Hc; [done|].
  apply Z.leb_gt in Hc.
  rewrite filter_cons, IH, !filter_cons.
  repeat case_decide; try done. simplify_eq. lia.
Qed.

Lemma jsSort_stable l k :
  Forall (λ s, is_Some (SidecarSection.order s)) l →
  filter (λ s, SidecarSection.order s = Some k) (jsSort compareSections l)
  = filter (λ s, SidecarSection.order s = Some k) l.
Proof.
  induction 1 as [|x l Hx Hl IH]; [done|].
  unfold jsSort in *. cbn [foldr].
  rewrite sortInsert_stable; [|done|by apply (jsSort_Forall compareSections)].
  by rewrite !filter_cons, IH.
Qed.
End SectionOrder.

(** ** The page of a namespace *)

Section Pages.
Variable uidToSlugFn : UID → string.

Lemma foldl_addSection_calls (l : list SidecarSection) (b : MarkdownBuilder) :
  foldl (λ b section,
           addText (addHeading b (SidecarSection.heading section) 2)
                   (Str (SidecarSection.content section))) b l
  = b ++ sectionCalls l.
Proof.
  revert b. induction l as [|s l IH]; intros b; cbn [foldl].
  - symmetry. apply app_nil_r.
  - rewrite IH. unfold addText, addHeading, sectionCalls.
    rewrite bind_cons. by rewrite <- !app_assoc.
Qed.

Lemma addSections_calls b uid sidecars :
  addSections b uid sidecars
  = b ++ match SidecarCollection.entries sidecars !! uid with
         | Some entry => sectionCalls (getSectionsInOrder entry)
         | None => []
         end.
Proof.
  unfold addSections. destruct (_ !! uid) as [entry|]; [|by rewrite app_nil_r].
  unfold getSectionsInOrder.
  destruct (SidecarEntry.sections entry) as [ss|] eqn:Hss.
  - apply foldl_addSection_calls.
  - by rewrite app_nil_r.
Qed.

Lemma addSeeAlso_calls b uid sidecars manifest :
  addSeeAlso uidToSlugFn b uid sidecars manifest
  = b ++ match SidecarCollection.entries sidecars !! uid with
         | Some entry =>
             seeAlsoCalls uidToSlugFn manifest
               (default [] (SidecarEntry.seeAlso entry))
         | None => []
         end.
Proof.
  unfold addSeeAlso. destruct (_ !! uid) as [entry|]; [|by rewrite app_nil_r].
  destruct (SidecarEntry.seeAlso entry) as [[|r rs]|]; simpl;
    try (by rewrite app_nil_r).
  unfold addText, addHeading. by rewrite <- app_assoc.
Qed.
End Pages.

Section PageTheorems.
Variable uidToSlugFn : UID → string.

Lemma addDescription_headings (P : builderCall → Prop) b uid sidecars :
  (∀ text, P (AddText text)) → Forall P b →
  Forall P (addDescription b uid sidecars).
Proof.
  intros HP Hb. unfold addDescription, addText.
  destruct (_ !! uid) as [entry|]; [|done].
  destruct (truthyString _); [|done].
  apply Forall_app. split; [done|]. repeat constructor. apply HP.
Qed.

(** The calls made before the sidecar sections are added. *)
Lemma createNamespaceMDX_calls config namespace sidecars :
  is_Some (ManifestRoot.namespaces (FSConfiguration.manifest config)
             !! Namespace.uid namespace) →
  ∃ front,
    createNamespaceMDX uidToSlugFn config namespace sidecars
    = Ok (front
          ++ match SidecarCollection.entries sidecars !! Namespace.uid namespace with
             | Some entry =>
                 sectionCalls (getSectionsInOrder entry)
                 ++ seeAlsoCalls uidToSlugFn (FSConfiguration.manifest config)
                      (default [] (SidecarEntry.seeAlso entry))
             | None => []
             end)
    ∧ ∀ text level, AddHeading text level ∈ front →
        text ∈ ["Overview"; "Types"; "Nested Namespaces"].
Proof.
  intros [n Hn]. unfold createNamespaceMDX. rewrite Hn. cbv zeta.
  rewrite addSeeAlso_calls, addSections_calls.
  eexists. split.
  - f_equal. rewrite <- app_assoc. f_equal.
    destruct (SidecarCollection.entries sidecars !! Namespace.uid namespace);
      reflexivity.
  - set (P := λ c, ∀ text level, c = AddHeading text level →
                text ∈ ["Overview"; "Types"; "Nested Namespaces"]).
    assert (Htext : ∀ x, P (AddText x)) by (by intros x text level).
    assert (Hfm : ∀ k v, P (SetFrontMatter k v)) by (by intros k v text level).
    assert (Hh1 : P (AddHeading "Overview" 2))
      by (intros text level [= <- _]; set_solver).
    assert (Hh2 : P (AddHeading "Types" 2))
      by (intros text level [= <- _]; set_solver).
    assert (Hh3 : P (AddHeading "Nested Namespaces" 2))
      by (intros text level [= <- _]; set_solver).
    match goal with
    | |- ∀ text level, _ ∈ ?front → _ =>
        cut (Forall P front);
        [intros HF text level Hin; rewrite Forall_forall in HF;
         exact (HF _ Hin text level eq_refl)|]
    end.
    clearbody P.
    assert (H4 : Forall P
      (setFrontMatter
         (setFrontMatter
            (setFrontMatter
               (setFrontMatter [] "title" (Namespace.name namespace +:+ " Namespace"))
               "description"
               (orElse (Some (getInlineDescription (Namespace.uid namespace) sidecars))
                  ("Documentation for the " +:+ Namespace.name namespace
                   +:+ " namespace.")))
            "slug" (uidToSlugFn (Namespace.uid namespace)))
         "sidebar_label" (Namespace.name namespace))).
    { unfold setFrontMatter. repeat (apply Forall_app; split);
        repeat constructor; apply Hfm. }
    revert H4. generalize (setFrontMatter
         (setFrontMatter
            (setFrontMatter
               (setFrontMatter [] "title" (Namespace.name namespace +:+ " Namespace"))
               "description"
               (orElse (Some (getInlineDescription (Namespace.uid namespace) sidecars))
                  ("Documentation for the " +:+ Namespace.name namespace
                   +:+ " namespace.")))
            "slug" (uidToSlugFn (Namespace.uid namespace)))
         "sidebar_label" (Namespace.name namespace)).
    intros b0 Hb0. unfold addText, addHeading.
    destruct (hasSidecar _ _);
      destruct (match Namespace.children namespace with
                | Some (_ :: _) => true | _ => false end);
      repeat first
        [ done
        | solve [repeat constructor; done]
        | apply addDescription_headings; [done|]
        | apply Forall_app; split ].
Qed.
End PageTheorems.

(** C5. The render order of the sections of an entry: the sections
    headed "See Also" are left out; the remaining sections that carry
    an order hint come first, in ascending order of the hint (sections
    with equal hints in declaration order); the ones without a hint
    follow in declaration order.  On the page of a namespace these
    sections are followed by the closing "See Also" block, which is
    built from the cross-references of the entry alone and is the last
    thing on the page; no earlier heading is "See Also". *)
Theorem sections_render_order :
  (∀ (entry : SidecarEntry) (ss : list SidecarSection),
     SidecarEntry.sections entry = Some ss →
     ∃ hs,
       getSectionsInOrder entry
       = hs ++ filter (λ s, SidecarSection.order s = None)
                 (filter (λ s, SidecarSection.heading s ≠ "See Also") ss)
       ∧ Forall (λ s, is_Some (SidecarSection.order s)) hs
       ∧ StronglySorted (λ a b, (hint a ≤ hint b)%Z) hs
       ∧ (∀ k, filter (λ s, SidecarSection.order s = Some k) hs
               = filter (λ s, SidecarSection.order s = Some k)
                   (filter (λ s, SidecarSection.heading s ≠ "See Also") ss))
       ∧ getSectionsInOrder entry
         ≡ₚ filter (λ s, SidecarSection.heading s ≠ "See Also") ss)
  ∧ (∀ (uidToSlugFn : UID → string) (config : FSConfiguration)
       (namespace : Namespace) (sidecars : SidecarCollection),
       is_Some (ManifestRoot.namespaces (FSConfiguration.manifest config)
                  !! Namespace.uid namespace) →
       ∃ front,
         createNamespaceMDX uidToSlugFn config namespace sidecars
         = Ok (front
               ++ match SidecarCollection.entries sidecars
                          !! Namespace.uid namespace with
                  | Some entry =>
                      sectionCalls (getSectionsInOrder entry)
                      ++ seeAlsoCalls uidToSlugFn (FSConfiguration.manifest config)
                           (default [] (SidecarEntry.seeAlso entry))
                  | None => []
                  end)
         ∧ ∀ text level, AddHeading text level ∈ front →
             text ∈ ["Overview"; "Types"; "Nested Namespaces"]).
Proof.
  split; [|intros; by apply createNamespaceMDX_calls].
  intros entry ss Hss. unfold getSectionsInOrder. rewrite Hss.
  change StandardHeadings.SEE_ALSO with "See Also".
  set (shown := filter (λ s, SidecarSection.heading s ≠ "See Also") ss).
  assert (Hh : Forall (λ s, is_Some (SidecarSection.order s))
                 (filter (λ s, is_Some (SidecarSection.order s)) shown)).
  { apply Forall_forall. by intros s [? _]%list_elem_of_filter. }
  exists (jsSort compareSections
            (filter (λ s, is_Some (SidecarSection.order s)) shown)).
  split; [apply jsSort_split|].
  split; [by apply (jsSort_Forall compareSections)|].
  split; [by apply jsSort_sorted|].
  split.
  - intros k. rewrite jsSort_stable by done.
    apply list_filter_filter_l. intros s ->. eauto.
  - apply jsSort_Permutation.
Qed.

(** The instance of C5 on an entry with hinted and unhinted sections. *)
Lemma sections_render_order_witness :
  ∃ hs,
    getSectionsInOrder Sample.entryWithHints
    = hs ++ filter (λ s, SidecarSection.order s = None)
              (filter (λ s, SidecarSection.heading s ≠ "See Also")
                 [SidecarSection.mk "Notes" "n" None;
                  SidecarSection.mk "Examples" "e" (Some 20%Z);
                  SidecarSection.mk "See Also" "x" (Some 1%Z);
                  SidecarSection.mk "Usage" "u" None;
                  SidecarSection.mk "Remarks" "r" (Some 10%Z)])
    ∧ Forall (λ s, is_Some (SidecarSection.order s)) hs
    ∧ StronglySorted (λ a b, (hint a ≤ hint b)%Z) hs
    ∧ (∀ k, filter (λ s, SidecarSection.order s = Some k) hs
            = filter (λ s, SidecarSection.order s = Some k)
                (filter (λ s, SidecarSection.heading s ≠ "See Also")
                   [SidecarSection.mk "Notes" "n" None;
                    SidecarSection.mk "Examples" "e" (Some 20%Z);
                    SidecarSection.mk "See Also" "x" (Some 1%Z);
                    SidecarSection.mk "Usage" "u" None;
                    SidecarSection.mk "Remarks" "r" (Some 10%Z)]))
    ∧ getSectionsInOrder Sample.entryWithHints
      ≡ₚ filter (λ s, SidecarSection.heading s ≠ "See Also")
           [SidecarSection.mk "Notes" "n" None;
            SidecarSection.mk "Examples" "e" (Some 20%Z);
            SidecarSection.mk "See Also" "x" (Some 1%Z);
            SidecarSection.mk "Usage" "u" None;
            SidecarSection.mk "Remarks" "r" (Some 10%Z)].
Proof.
  apply (proj1 sections_render_order Sample.entryWithHints). reflexivity.
Defined.

(** C5, as stated, fails: a section headed "See Also" is not rendered
    last, it is not rendered at all.  The page of the namespace [Foo]
    whose entry has such a section (with a hint) and no
    cross-references shows the other section only. *)
Lemma seeAlso_section_not_rendered :
  createNamespaceMDX Sample.slug (Sample.config Sample.manifestFoo) Sample.nsFoo
    (Sample.sidecarsOf {[ "ns:Foo" := Sample.entryWithSeeAlsoSection ]})
  = Ok [SetFrontMatter "title" "Foo Namespace";
        SetFrontMatter "description" "Documentation for the Foo namespace.";
        SetFrontMatter "slug" "/api/ns:Foo";
        SetFrontMatter "sidebar_label" "Foo";
        AddHeading "Overview" 2;
        AddHeading "Types" 2;
        AddText (Str "This namespace does not contain any types.");
        AddHeading "Remarks" 2;
        AddText (Str "Some remarks")].
Proof. vm_compute. reflexivity. Qed.

(** ** resolveSnippets *)

Section Snippets.
Implicit Types s p q r w : string.

Lemma append_cons c a b : String c a +:+ b = String c (a +:+ b).
Proof. reflexivity. Qed.

Lemma append_empty_l a : EmptyString +:+ a = a.
Proof. reflexivity. Qed.

Lemma append_empty_r a : a +:+ EmptyString = a.
Proof. induction a as [|c a IH]; [done|]. by rewrite append_cons, IH. Qed.

Lemma append_assoc a b c : (a +:+ b) +:+ c = a +:+ (b +:+ c).
Proof. induction a as [|x a IH]; [done|]. by rewrite !append_cons, IH. Qed.

Lemma length_append a b :
  String.length (a +:+ b) = String.length a + String.length b.
Proof. induction a as [|x a IH]; [done|]. rewrite append_cons. simpl. by rewrite IH. Qed.

Lemma append_inj_length a b x y :
  a +:+ x = b +:+ y → String.length a = String.length b → a = b ∧ x = y.
Proof.
  revert b. induction a as [|c a IH]; intros [|d b]; simpl; try done.
  rewrite !append_cons. intros [= -> Heq] [= Hl].
  destruct (IH b Heq Hl) as [-> ->]. done.
Qed.

Lemma stripPrefix_Some p s r : stripPrefix p s = Some r → s = p +:+ r.
Proof.
  revert s. induction p as [|a p IH]; intros s.
  - simpl. by intros [= ->].
  - destruct s as [|b s]; simpl; [done|].
    destruct (Ascii.eqb a b) eqn:Hab; [|done].
    apply Ascii.eqb_eq in Hab as ->. intros ->%IH. done.
Qed.

Lemma stripPrefix_append p r : stripPrefix p (p +:+ r) = Some r.
Proof.
  induction p as [|a p IH]; [done|].
  rewrite append_cons. simpl. by rewrite Ascii.eqb_refl.
Qed.

(** A prefix without an opening brace is found in [q] or not at all,
    whatever follows [q] behind an opening brace. *)
Lemma stripPrefix_brace p q r :
  Forall (λ c, c ≠ "{"%char) (list_ascii_of_string p) →
  stripPrefix p (q +:+ String "{" r)
  = (λ x, x +:+ String "{" r) <$> stripPrefix p q.
Proof.
  revert q. induction p as [|a p IH]; intros q Hp; [done|].
  simpl in Hp. apply Forall_cons in Hp as [Ha Hp].
  destruct q as [|b q].
  - rewrite append_empty_l. simpl.
    destruct (Ascii.eqb a "{") eqn:Hab; [|done].
    by apply Ascii.eqb_eq in Hab.
  - rewrite append_cons. simpl. destruct (Ascii.eqb a b); [by apply IH|done].
Qed.

Lemma spanWord_nonword q c r :
  isWordChar c = false →
  spanWord (q +:+ String c r)
  = (fst (spanWord q), snd (spanWord q) +:+ String c r).
Proof.
  intros Hc. induction q as [|b q IH].
  - rewrite append_empty_l. simpl. by rewrite Hc.
  - rewrite append_cons. simpl. destruct (isWordChar b); [|done].
    rewrite IH. by destruct (spanWord q).
Qed.

Lemma spanWord_word w r :
  allWordChars w = true →
  spanWord (w +:+ String "}" r) = (w, String "}" r).
Proof.
  intros Hw. induction w as [|b w IH]; [done|].
  simpl in Hw. apply andb_true_iff in Hw as [Hb Hw].
  rewrite append_cons. simpl. by rewrite Hb, IH.
Qed.

Lemma spanWord_eq s : s = fst (spanWord s) +:+ snd (spanWord s).
Proof.
  induction s as [|c s IH]; [done|]. simpl.
  destruct (isWordChar c); [|done].
  destruct (spanWord s) as [w r]. simpl in *. by rewrite append_cons, <- IH.
Qed.

(** What follows a text behind an opening brace does not change the
    match at its start. *)
Lemma matchSnippet_brace q r :
  q ≠ EmptyString →
  matchSnippet (q +:+ String "{" r) = matchSnippet q.
Proof.
  intros Hq. destruct q as [|c q]; [done|].
  unfold matchSnippet. rewrite append_cons.
  change (stripPrefix "{snippet:" (String c ?x))
    with (if Ascii.eqb "{" c then stripPrefix "snippet:" x else None).
  destruct (Ascii.eqb "{" c); [|done].
  rewrite stripPrefix_brace by (repeat constructor; discriminate).
  destruct (stripPrefix "snippet:" q) as [r0|]; [|done]. simpl.
  rewrite spanWord_nonword by done.
  destruct (spanWord r0) as [[|a w] [|d rest]]; try done.
Qed.

Lemma matchSnippet_Some s name :
  matchSnippet s = Some name → ∃ rest, s = snippetRef name +:+ rest.
Proof.
  unfold matchSnippet.
  destruct (stripPrefix "{snippet:" s) as [r|] eqn:Hp; [|done].
  apply stripPrefix_Some in Hp as ->.
  pose proof (spanWord_eq r) as Hr.
  destruct (spanWord r) as [[|a w] [|d rest]]; try done.
  simpl in Hr.
  destruct (Ascii.eqb d "}") eqn:Hd.
  - apply Ascii.eqb_eq in Hd as ->. intros [= <-]. exists rest.
    rewrite Hr. unfold snippetRef. by rewrite !append_assoc.
  - intros Hm. exfalso. apply Ascii.eqb_neq in Hd.
    destruct d as [[] [] [] [] [] [] [] []]; try done.
Qed.

Lemma matchSnippet_ref name post :
  name ≠ EmptyString → allWordChars name = true →
  matchSnippet (snippetRef name +:+ post) = Some name.
Proof.
  intros Hne Hw. unfold matchSnippet, snippetRef.
  rewrite append_assoc, stripPrefix_append, append_assoc.
  rewrite append_cons, append_empty_l, spanWord_word by done.
  by destruct name.
Qed.

Lemma replaceSnippets_skip f a b :
  replaceSnippets f (String.length a) (a +:+ b) = replaceSnippets f 0 b.
Proof.
  induction a as [|c a IH]; [by destruct b|].
  rewrite append_cons. simpl. exact IH.
Qed.

(** A match that starts in [pre] ends in [pre] when [pre] is followed
    by an opening brace, so the replacement works on both parts
    independently. *)
Lemma replaceSnippets_brace f pre r skip :
  skip ≤ String.length pre →
  replaceSnippets f skip (pre +:+ String "{" r)
  = replaceSnippets f skip pre +:+ replaceSnippets f 0 (String "{" r).
Proof.
  revert skip. induction pre as [|c pre IH]; intros skip Hskip.
  - simpl in Hskip. assert (skip = 0) as -> by lia. done.
  - destruct skip as [|k].
    + rewrite append_cons.
      change (replaceSnippets f 0 (String c ?x))
        with (match matchSnippet (String c x) with
              | Some name =>
                  f (snippetRef name) name
                  +:+ replaceSnippets f (String.length (snippetRef name) - 1) x
              | None => String c (replaceSnippets f 0 x)
              end).
      rewrite <- append_cons, matchSnippet_brace by done.
      destruct (matchSnippet (String c pre)) as [name|] eqn:Hm.
      * apply matchSnippet_Some in Hm as [rest Hrest].
        rewrite IH, append_assoc; [done|].
        apply (f_equal String.length) in Hrest.
        rewrite length_append in Hrest.
        change (String.length (String c pre)) with (S (String.length pre)) in Hrest.
        lia.
      * rewrite IH by lia. done.
    + rewrite append_cons. simpl in *. apply IH. lia.
Qed.

(** When every replacement is the matched text, nothing changes. *)
Lemma replaceSnippets_id f s skip :
  (∀ name, f (snippetRef name) name = snippetRef name) →
  skip ≤ String.length s →
  ∃ a, String.length a = skip ∧ s = a +:+ replaceSnippets f skip s.
Proof.
  intros Hf. revert skip. induction s as [|c s IH]; intros skip Hskip.
  - simpl in Hskip. assert (skip = 0) as -> by lia. by exists EmptyString.
  - destruct skip as [|k].
    + exists EmptyString. split; [done|]. rewrite append_empty_l.
      change (replaceSnippets f 0 (String c s))
        with (match matchSnippet (String c s) with
              | Some name =>
                  f (snippetRef name) name
                  +:+ replaceSnippets f (String.length (snippetRef name) - 1) s
              | None => String c (replaceSnippets f 0 s)
              end).
      destruct (matchSnippet (String c s)) as [name|] eqn:Hm.
      * apply matchSnippet_Some in Hm as [rest Hrest].
        rewrite Hf.
        assert (Hbody : ∃ body, snippetRef name = String "{" body)
          by (by eexists).
        destruct Hbody as [body Hbody]. rewrite Hbody in *.
        rewrite append_cons in Hrest. injection Hrest as -> Hrest.
        change (String.length (String "{" body) - 1)
          with (String.length body - 0).
        rewrite Nat.sub_0_r.
        destruct (IH (String.length body)) as (a & Ha & Hs).
        { rewrite Hrest, length_append. lia. }
        rewrite append_cons. f_equal.
        rewrite Hs in Hrest at 1.
        apply append_inj_length in Hrest as [-> _]; [|done].
        exact Hs.
      * destruct (IH 0 ltac:(lia)) as (a & Ha & Hs).
        destruct a; [|done]. rewrite append_empty_l in Hs. by rewrite <- Hs.
    + simpl in Hskip. destruct (IH k ltac:(lia)) as (a & Ha & Hs).
      exists (String c a). split; [simpl; lia|].
      rewrite append_cons. simpl. by rewrite <- Hs.
Qed.
End Snippets.

(** A content without an opening brace holds no occurrence. *)
Lemma replaceSnippets_plain f s :
  stringForall (λ c, negb (Ascii.eqb c "{")) s = true →
  replaceSnippets f 0 s = s.
Proof.
  induction s as [|c s IH]; [done|].
  cbn [stringForall]. intros [Hc Hs]%andb_prop.
  apply negb_true_iff, Ascii.eqb_neq in Hc.
  change (replaceSnippets f 0 (String c s))
    with (match matchSnippet (String c s) with
          | Some name =>
              f (snippetRef name) name
              +:+ replaceSnippets f (String.length (snippetRef name) - 1) s
          | None => String c (replaceSnippets f 0 s)
          end).
  destruct (matchSnippet (String c s)) as [name|] eqn:Hm.
  - apply matchSnippet_Some in Hm as [rest Hrest].
    unfold snippetRef in Hrest. rewrite !append_cons in Hrest.
    by injection Hrest as -> _.
  - by rewrite IH.
Qed.

(** What [resolveSnippets] does, with the lookup as the code makes it:
    without snippets, and on a content without a brace, the content is
    returned; an occurrence [{snippet:name}] is replaced exactly when
    reading [name] off the snippets gives a non-empty text, and what
    stands in front of and behind the occurrence is resolved on its
    own. *)
Lemma resolveSnippets_occurrence :
  (∀ content collection,
     SidecarCollection.snippets collection = None →
     resolveSnippets content collection = content)
  ∧ (∀ content collection,
       stringForall (λ c, negb (Ascii.eqb c "{")) content = true →
       resolveSnippets content collection = content)
  ∧ (∀ content collection snippets,
       SidecarCollection.snippets collection = Some snippets →
       (∀ name, readSnippet snippets name = None
                ∨ readSnippet snippets name = Some EmptyString) →
       resolveSnippets content collection = content)
  ∧ (∀ collection snippets pre name post,
       SidecarCollection.snippets collection = Some snippets →
       name ≠ EmptyString → allWordChars name = true →
       resolveSnippets (pre +:+ snippetRef name +:+ post) collection
       = resolveSnippets pre collection
         +:+ match readSnippet snippets name with
             | None => snippetRef name
             | Some text =>
                 if decide (text = EmptyString) then snippetRef name else text
             end
         +:+ resolveSnippets post collection).
Proof.
  split; [|split; [|split]].
  - intros content collection Hs. unfold resolveSnippets. by rewrite Hs.
  - intros content collection Hplain. unfold resolveSnippets.
    destruct (SidecarCollection.snippets collection); [|done].
    by apply replaceSnippets_plain.
  - intros content collection snippets Hs Hempty.
    unfold resolveSnippets. rewrite Hs.
    destruct (replaceSnippets_id
                (λ match_ name, orElse (readSnippet snippets name) match_)
                content 0)
      as (a & Ha & Heq).
    + intros name. unfold orElse. by destruct (Hempty name) as [-> | ->].
    + lia.
    + destruct a; [|done]. by rewrite append_empty_l in Heq.
  - intros collection snippets pre name post Hs Hne Hw.
    unfold resolveSnippets. rewrite Hs.
    set (f := λ match_ name, orElse (readSnippet snippets name) match_).
    assert (Href : snippetRef name +:+ post
                   = String "{" ("snippet:" +:+ name +:+ "}" +:+ post)).
    { unfold snippetRef. by rewrite !append_cons, !append_assoc. }
    rewrite Href, replaceSnippets_brace by lia. f_equal.
    change (replaceSnippets f 0 (String "{" ?x))
      with (match matchSnippet (String "{" x) with
            | Some name =>
                f (snippetRef name) name
                +:+ replaceSnippets f (String.length (snippetRef name) - 1) x
            | None => String "{" (replaceSnippets f 0 x)
            end).
    rewrite <- Href, matchSnippet_ref by done. f_equal.
    + unfold f, orElse. destruct (readSnippet snippets name) as [[|c text]|]; done.
    + assert (Hl : String.length (snippetRef name) - 1
                   = String.length ("snippet:" +:+ name +:+ "}")).
      { unfold snippetRef. rewrite append_cons. simpl. lia. }
      rewrite Hl.
      replace ("snippet:" +:+ name +:+ "}" +:+ post)
        with (("snippet:" +:+ name +:+ "}") +:+ post)
        by (by rewrite !append_assoc).
      apply replaceSnippets_skip.
Qed.

(** C10 on the empty record of snippets: [constructor] and [__proto__]
    are no keys of it, and yet an occurrence that names one of them is
    not left verbatim: [snippets[name]] finds what the record inherits,
    and the occurrence becomes the text of the inherited value.  An
    occurrence whose name the record neither holds nor inherits stays as
    it is. *)
Theorem inherited_snippet_name_replaced :
  (∅ : gmap string string) !! "constructor" = None
  ∧ (∅ : gmap string string) !! "__proto__" = None
  ∧ resolveSnippets "See {snippet:constructor}."
      (SidecarCollection.mk "1" ∅ (Some ∅) None)
    = "See function Object() { [native code] }."
  ∧ resolveSnippets "See {snippet:__proto__}."
      (SidecarCollection.mk "1" ∅ (Some ∅) None)
    = "See [object Object]."
  ∧ resolveSnippets "See {snippet:missing}."
      (SidecarCollection.mk "1" ∅ (Some ∅) None)
    = "See {snippet:missing}.".
Proof. split_and!; vm_compute; reflexivity. Qed.

(** ** Resolution *)

Lemma lookup_registered {V} (registered : list (UID * V)) (uid : UID) :
  NoDup registered.*1 →
  (∀ e, (list_to_map registered : gmap UID V) !! uid = Some e
        ↔ (uid, e) ∈ registered)
  ∧ ((list_to_map registered : gmap UID V) !! uid = None
     ↔ uid ∉ registered.*1).
Proof.
  intros Hnd. split.
  - intros e. symmetry. by apply elem_of_list_to_map.
  - symmetry. apply not_elem_of_list_to_map.
Qed.

Lemma omap_resolved {K A B} (resolve : K → option A) (row : A → B) (l : list K) :
  omap (λ k, match resolve k with
             | None => None
             | Some a => Some (row a)
             end) l
  = row <$> omap resolve l.
Proof.
  induction l as [|k l IH]; [done|]. rewrite !omap_cons_eq, IH.
  by destruct (resolve k).
Qed.

Lemma omap_resolved_filter {K A B} (resolve : K → option A) (P : A → Prop)
    `{∀ a, Decision (P a)} (row : A → B) (l : list K) :
  omap (λ k, match resolve k with
             | None => None
             | Some a => if decide (P a) then Some (row a) else None
             end) l
  = row <$> filter P (omap resolve l).
Proof.
  induction l as [|k l IH]; [done|]. rewrite !omap_cons_eq, IH.
  destruct (resolve k) as [a|]; [|done].
  rewrite filter_cons. by destruct (decide (P a)).
Qed.

(** C1. Resolution is total: in a manifest whose collections register
    every UID once, each resolver returns the entity registered under
    the UID, and nothing when none is registered (for a UID that is no
    property name inherited by every object).  Every table builder
    lists exactly the entries that resolve, in the order of
    declaration, and so leaves an unresolved UID out: the table of the
    types of a namespace and of the nested types of a type, the table
    of the nested namespaces and the table of the members.  The page of
    a namespace is generated exactly when the UID of the namespace is in
    the manifest; when it is not, [createNamespaceMDX] throws an error
    that names the UID. *)
Theorem resolution_total :
  (∀ (manifest : ManifestRoot) (types : list (UID * AnyType))
     (members : list (UID * AnyMember)) (namespaces : list (UID * Namespace))
     (uid : UID),
     uid ∉ inheritedKeys →
     NoDup types.*1 → NoDup members.*1 → NoDup namespaces.*1 →
     ManifestRoot.types manifest = list_to_map types →
     ManifestRoot.members manifest = list_to_map members →
     ManifestRoot.namespaces manifest = list_to_map namespaces →
     (∀ e, resolveType manifest uid = Some e ↔ (uid, e) ∈ types)
     ∧ (resolveType manifest uid = None ↔ uid ∉ types.*1)
     ∧ (∀ e, resolveMember manifest uid = Some e ↔ (uid, e) ∈ members)
     ∧ (resolveMember manifest uid = None ↔ uid ∉ members.*1)
     ∧ (∀ e, resolveNamespace manifest uid = Some e ↔ (uid, e) ∈ namespaces)
     ∧ (resolveNamespace manifest uid = None ↔ uid ∉ namespaces.*1))
  ∧ (∀ (uidToSlugFn : UID → string) manifest sidecars uid,
       (∀ namespace,
          identifyType uid = "ns" → resolveNamespace manifest uid = Some namespace →
          getTypesTable uidToSlugFn uid manifest sidecars
          = MdTable ["Type"; "Description"]
              (typeRow uidToSlugFn sidecars
                 <$> omap (resolveType manifest)
                       (default [] (Namespace.types namespace))))
       ∧ (∀ type,
            identifyType uid = "type" → resolveType manifest uid = Some type →
            getTypesTable uidToSlugFn uid manifest sidecars
            = MdTable ["Type"; "Description"]
                (typeRow uidToSlugFn sidecars
                   <$> omap (resolveType manifest)
                         (default [] (AnyType.nestedTypes type))))
       ∧ (∀ namespace children,
            resolveNamespace manifest uid = Some namespace →
            Namespace.children namespace = Some children →
            getNestedNamespacesTable uidToSlugFn uid manifest sidecars
            = MdTable ["Namespace"; "Description"]
                (namespaceRow uidToSlugFn sidecars
                   <$> omap (resolveNamespace manifest) children))
       ∧ (∀ type filterMemberKind,
            resolveType manifest uid = Some type →
            getMembersTable uidToSlugFn uid manifest sidecars filterMemberKind
            = MdTable ["Member"; "Description"]
                (memberRow uidToSlugFn sidecars
                   <$> filter (kindShown filterMemberKind)
                         (omap (resolveMember manifest)
                            (default [] (AnyType.members type))))))
  ∧ (∀ (uidToSlugFn : UID → string) config namespace sidecars,
       (resolveNamespace (FSConfiguration.manifest config) (Namespace.uid namespace)
        = None →
        createNamespaceMDX uidToSlugFn config namespace sidecars
        = Throw ("Namespace with UID " +:+ Namespace.uid namespace
                 +:+ " does not exist in the manifest."))
       ∧ (is_Some (resolveNamespace (FSConfiguration.manifest config)
                     (Namespace.uid namespace)) →
          ∃ page, createNamespaceMDX uidToSlugFn config namespace sidecars
                  = Ok page)).
Proof.
  split; [|split].
  - intros manifest types members namespaces uid _ Ht Hm Hn Et Em En.
    unfold resolveType, resolveMember, resolveNamespace. rewrite Et, Em, En.
    destruct (lookup_registered types uid Ht).
    destruct (lookup_registered members uid Hm).
    destruct (lookup_registered namespaces uid Hn). done.
  - intros uidToSlugFn manifest sidecars uid.
    unfold resolveType, resolveNamespace, resolveMember. split_and!.
    + intros namespace Hkind Hnamespace. unfold getTypesTable, typeRows.
      rewrite Hkind, Hnamespace. cbn [String.eqb Ascii.eqb Bool.eqb].
      f_equal. apply omap_resolved.
    + intros type Hkind Htype. unfold getTypesTable, typeRows.
      rewrite Hkind, Htype. cbn [String.eqb Ascii.eqb Bool.eqb].
      f_equal. apply omap_resolved.
    + intros namespace children Hnamespace Hchildren.
      unfold getNestedNamespacesTable. rewrite Hnamespace, Hchildren.
      f_equal. apply omap_resolved.
    + intros type filterMemberKind Htype. unfold getMembersTable.
      rewrite Htype. f_equal.
      rewrite <- (omap_resolved_filter (λ k, ManifestRoot.members manifest !! k)).
      induction (default [] (AnyType.members type)) as [|k l IH]; [done|].
      rewrite !omap_cons_eq, IH.
      destruct (ManifestRoot.members manifest !! k) as [member|]; [|done].
      destruct (decide (kindShown filterMemberKind member)) as [Hk|Hk];
        destruct filterMemberKind as [kinds|]; simpl in Hk.
      * by rewrite bool_decide_eq_true_2.
      * done.
      * by rewrite bool_decide_eq_false_2.
      * done.
  - intros uidToSlugFn config namespace sidecars.
    unfold resolveNamespace. split.
    + intros Hn. unfold createNamespaceMDX. by rewrite Hn.
    + intros [n Hn]. unfold createNamespaceMDX. rewrite Hn. by eexists.
Qed.

(** The instance of C1 on the manifest that holds the namespace [Foo]
    and not the namespace [Bar], and on the tables of the namespace
    [Hub], which lists a child and a type that the manifest does not
    know. *)
Lemma resolution_total_witness :
  createNamespaceMDX Sample.slug (Sample.config Sample.manifestFoo)
    (Namespace.mk "ns:Bar" "Bar" None None None) (Sample.sidecarsOf ∅)
  = Throw ("Namespace with UID " +:+ "ns:Bar"
           +:+ " does not exist in the manifest.")
  ∧ (∃ page,
       createNamespaceMDX Sample.slug (Sample.config Sample.manifestFoo)
         Sample.nsFoo (Sample.sidecarsOf ∅)
       = Ok page)
  ∧ getTypesTable Sample.slug "ns:Hub" Fixture.manifestHub (Sample.sidecarsOf ∅)
    = MdTable ["Type"; "Description"]
        [typeRow Sample.slug (Sample.sidecarsOf ∅) Fixture.tank]
  ∧ getNestedNamespacesTable Sample.slug "ns:Hub" Fixture.manifestHub
      (Sample.sidecarsOf ∅)
    = MdTable ["Namespace"; "Description"]
        [namespaceRow Sample.slug (Sample.sidecarsOf ∅) Fixture.nsParts].
Proof.
  split_and!.
  - apply (proj2 (proj2 resolution_total) Sample.slug
             (Sample.config Sample.manifestFoo)
             (Namespace.mk "ns:Bar" "Bar" None None None) (Sample.sidecarsOf ∅)).
    vm_compute. reflexivity.
  - apply (proj2 (proj2 resolution_total) Sample.slug
             (Sample.config Sample.manifestFoo) Sample.nsFoo
             (Sample.sidecarsOf ∅)).
    vm_compute. eexists. reflexivity.
  - rewrite (proj1 (proj1 (proj2 resolution_total) Sample.slug
                      Fixture.manifestHub (Sample.sidecarsOf ∅) "ns:Hub")
               Fixture.nsHub); [|vm_compute; reflexivity..].
    vm_compute. reflexivity.
  - rewrite (proj1 (proj2 (proj2 (proj1 (proj2 resolution_total) Sample.slug
                                    Fixture.manifestHub (Sample.sidecarsOf ∅)
                                    "ns:Hub")))
               Fixture.nsHub ["ns:Gone"; "ns:Game.Parts"]);
      [|vm_compute; reflexivity|reflexivity].
    vm_compute. reflexivity.
Defined.

(** C1, as stated, fails: the page of a namespace whose UID is absent
    from the manifest is not generated, the call throws. *)
Lemma createNamespaceMDX_throws :
  resolveNamespace Sample.emptyManifest (Namespace.uid Sample.nsFoo) = None
  ∧ createNamespaceMDX Sample.slug (Sample.config Sample.emptyManifest)
      Sample.nsFoo (Sample.sidecarsOf ∅)
    = Throw "Namespace with UID ns:Foo does not exist in the manifest.".
Proof. split_and!; vm_compute; reflexivity. Qed.

(** ** Cross-references *)

(** C8. Rendering the "See Also" block of an entry never fails: it adds
    the heading and one list with an item per reference.  The item of a
    reference that no collection of the manifest resolves is an
    ordinary link, not a diagnostic marker: its text is what stands
    between the first and the second colon of the UID (the whole UID if
    that is empty or there is no colon) and its target is the slug of
    the UID. *)
Theorem seeAlso_unresolved_link :
  ∀ (uidToSlugFn : UID → string) builder uid sidecars manifest entry refs,
    SidecarCollection.entries sidecars !! uid = Some entry →
    SidecarEntry.seeAlso entry = Some refs →
    refs ≠ [] →
    addSeeAlso uidToSlugFn builder uid sidecars manifest
    = builder ++ [AddHeading "See Also" 2;
                  AddText (MdList (seeAlsoItem uidToSlugFn manifest <$> refs)
                                  false)]
    ∧ ∀ ref, ref ∈ refs → unresolved manifest ref →
        seeAlsoItem uidToSlugFn manifest ref
        = MdLink (orElse (splitOn ":" ref !! 1) ref) (uidToSlugFn ref).
Proof.
  intros uidToSlugFn builder uid sidecars manifest entry refs He Hr Hne. split.
  - rewrite addSeeAlso_calls, He, Hr. simpl. by destruct refs.
  - intros ref _ (Ht & Hm & Hn & Ha).
    unfold seeAlsoItem, getNameFromUid. by rewrite Ht, Hm, Hn, Ha.
Qed.

(** The instance of C8 on an entry with one dangling reference. *)
Lemma seeAlso_unresolved_link_witness :
  addSeeAlso Sample.slug [] "ns:Foo"
    (Sample.sidecarsOf {[ "ns:Foo" := Sample.entryWithDanglingRef ]})
    Sample.manifestFoo
  = [] ++ [AddHeading "See Also" 2;
           AddText (MdList (seeAlsoItem Sample.slug Sample.manifestFoo
                              <$> ["type:Foo.Missing"]) false)]
  ∧ seeAlsoItem Sample.slug Sample.manifestFoo "type:Foo.Missing"
    = MdLink (orElse (splitOn ":" "type:Foo.Missing" !! 1) "type:Foo.Missing")
        (Sample.slug "type:Foo.Missing").
Proof.
  destruct (seeAlso_unresolved_link Sample.slug [] "ns:Foo"
              (Sample.sidecarsOf {[ "ns:Foo" := Sample.entryWithDanglingRef ]})
              Sample.manifestFoo Sample.entryWithDanglingRef
              ["type:Foo.Missing"]) as [Hcalls Hitem].
  - vm_compute. reflexivity.
  - reflexivity.
  - discriminate.
  - split; [exact Hcalls|]. apply Hitem.
    + left.
    + unfold unresolved. split_and!; vm_compute; reflexivity.
Defined.

(** C8, as stated, fails: for a reference that the manifest does not
    resolve the block shows a link like any other, labelled with the
    tail of the UID; no diagnostic marker takes its place. *)
Lemma seeAlso_dangling_is_link :
  unresolved Sample.manifestFoo "type:Foo.Missing"
  ∧ addSeeAlso Sample.slug [] "ns:Foo"
      (Sample.sidecarsOf {[ "ns:Foo" := Sample.entryWithDanglingRef ]})
      Sample.manifestFoo
    = [AddHeading "See Also" 2;
       AddText (MdList [MdLink "Foo.Missing" "/api/type:Foo.Missing"] false)].
Proof. unfold unresolved. split_and!; vm_compute; reflexivity. Qed.

(** ** The generator monad *)

Section GenLemmas.
Context {A B : Type}.

Lemma fst_bind (m : Gen A) (f : A → Gen B) :
  fst (bind m f)
  = fst m ++ match snd m with Done a => fst (f a) | _ => [] end.
Proof.
  destruct m as [log [a| |]]; simpl; [|by rewrite app_nil_r..].
  by destruct (f a).
Qed.

Lemma snd_bind (m : Gen A) (f : A → Gen B) :
  snd (bind m f)
  = match snd m with
    | Done a => snd (f a)
    | Thrown e => Thrown e
    | OutOfFuel => OutOfFuel
    end.
Proof. destruct m as [log [a| |]]; simpl; [|done..]. by destruct (f a). Qed.

Lemma logAll_bind P (m : Gen A) (f : A → Gen B) :
  logAll P m → (∀ a, logAll P (f a)) → logAll P (bind m f).
Proof.
  unfold logAll. intros Hm Hf. rewrite fst_bind. apply Forall_app. split; [done|].
  destruct (snd m); [apply Hf|constructor..].
Qed.

Lemma inFuel_bind (m : Gen A) (f : A → Gen B) :
  inFuel m → (∀ a, inFuel (f a)) → inFuel (bind m f).
Proof.
  unfold inFuel. intros Hm Hf. rewrite snd_bind.
  destruct (snd m); [apply Hf|done..].
Qed.

Lemma bind_ext_inFuel (m m' : Gen A) (f f' : A → Gen B) :
  m' = m → (∀ a, inFuel (f a) → f' a = f a) →
  inFuel (bind m f) → bind m' f' = bind m f.
Proof.
  intros -> Hf. unfold inFuel. rewrite snd_bind.
  destruct m as [log [a| |]]; simpl; [|done..].
  intros Ha. by rewrite Hf.
Qed.
End GenLemmas.

Lemma logAll_impl {A} (P Q : fsCall → Prop) (m : Gen A) :
  (∀ c, P c → Q c) → logAll P m → logAll Q m.
Proof. unfold logAll. intros HPQ Hm. by eapply Forall_impl. Qed.

Lemma logAll_ret {A} P (a : A) : logAll P (ret a).
Proof. constructor. Qed.

Lemma logAll_tell P c : P c → logAll P (tell c).
Proof. by repeat constructor. Qed.

Lemma logAll_throw {A} P e : logAll P (throw e : Gen A).
Proof. constructor. Qed.

Lemma logAll_outOfFuel {A} P : logAll P (outOfFuel : Gen A).
Proof. constructor. Qed.

Lemma logAll_liftResult {A} P (r : result A) : logAll P (liftResult r).
Proof. destruct r; constructor. Qed.

Lemma logAll_when P b m : logAll P m → logAll P (when b m).
Proof. destruct b; [done|constructor]. Qed.

Lemma logAll_forEach {A} P (l : list A) body :
  (∀ x, x ∈ l → logAll P (body x)) → logAll P (forEach l body).
Proof.
  induction l as [|x l IH]; intros Hb; [constructor|].
  unfold forEach. cbn [foldr]. apply logAll_bind; [apply Hb; left|].
  intros _. apply IH. intros y Hy. apply Hb. by right.
Qed.

Lemma inFuel_ret {A} (a : A) : inFuel (ret a).
Proof. done. Qed.

Lemma inFuel_tell c : inFuel (tell c).
Proof. done. Qed.

Lemma inFuel_throw {A} e : inFuel (throw e : Gen A).
Proof. done. Qed.

Lemma inFuel_liftResult {A} (r : result A) : inFuel (liftResult r).
Proof. by destruct r. Qed.

Lemma inFuel_when b m : inFuel m → inFuel (when b m).
Proof. by destruct b. Qed.

Lemma inFuel_forEach {A} (l : list A) body :
  (∀ x, x ∈ l → inFuel (body x)) → inFuel (forEach l body).
Proof.
  induction l as [|x l IH]; intros Hb; [done|].
  unfold forEach. cbn [foldr]. apply inFuel_bind; [apply Hb; left|].
  intros _. apply IH. intros y Hy. apply Hb. by right.
Qed.

(** A loop whose bodies agree wherever the first one does not run out
    of fuel. *)
Lemma forEach_ext_inFuel {A} (l : list A) body body' :
  (∀ x, x ∈ l → inFuel (body x) → body' x = body x) →
  inFuel (forEach l body) → forEach l body' = forEach l body.
Proof.
  induction l as [|x l IH]; intros Hb Hl; [done|].
  unfold forEach in *. cbn [foldr] in *.
  assert (Hx : inFuel (body x)).
  { unfold inFuel in *. rewrite snd_bind in Hl. by destruct (snd (body x)). }
  rewrite (Hb x) by (done || left).
  destruct (body x) as [log [[]| |]] eqn:Hbx; simpl; [|done..].
  rewrite IH; [done| |].
  - intros y Hy. apply Hb. by right.
  - unfold inFuel in *. simpl in Hl.
    by destruct (foldr _ _ l).
Qed.

Create HintDb gen discriminated.
#[local] Hint Resolve logAll_ret logAll_tell logAll_throw logAll_outOfFuel
  logAll_liftResult logAll_when inFuel_ret inFuel_tell inFuel_throw
  inFuel_liftResult inFuel_when : gen.

(** Splitting a run into its parts. *)
Ltac gen_step_with tac :=
  repeat first
    [ progress intros
    | tac
    | apply logAll_bind | apply inFuel_bind
    | apply logAll_forEach | apply inFuel_forEach
    | apply logAll_when | apply inFuel_when
    | apply logAll_tell | apply logAll_ret | apply logAll_throw
    | apply logAll_liftResult
    | apply inFuel_tell | apply inFuel_ret | apply inFuel_throw
    | apply inFuel_liftResult
    | match goal with
      | |- logAll _ (match ?x with _ => _ end) => destruct x eqn:?
      | |- inFuel (match ?x with _ => _ end) => destruct x eqn:?
      end ].

Ltac gen_step := gen_step_with fail.

Section GeneratorLemmas.
Variable config : FSConfiguration.

Lemma groupMembersByKind_log P uids : logAll P (groupMembersByKind config uids).
Proof.
  unfold groupMembersByKind.
  match goal with
  | |- logAll _ (foldl ?f ?a ?l) =>
      cut (∀ acc, logAll P acc → logAll P (foldl f acc l));
      [intros Hcut; apply Hcut; constructor|]
  end.
  induction uids as [|uid uids IH]; intros acc Hacc; [done|].
  cbn [foldl]. apply IH. gen_step; done.
Qed.

Lemma groupMembersByKind_inFuel uids : inFuel (groupMembersByKind config uids).
Proof.
  unfold groupMembersByKind.
  match goal with
  | |- inFuel (foldl ?f ?a ?l) =>
      cut (∀ acc, inFuel acc → inFuel (foldl f acc l));
      [intros Hcut; by apply Hcut|]
  end.
  induction uids as [|uid uids IH]; intros acc Hacc; [done|].
  cbn [foldl]. apply IH. gen_step; done.
Qed.

Lemma generateMembers_inFuel type typePath members :
  inFuel (generateMembers config type typePath members).
Proof.
  unfold generateMembers, generateConstructors, generateMethods,
    generateProperties, generateFields, generateEvents, createFile.
  apply inFuel_bind; [apply groupMembersByKind_inFuel|].
  gen_step.
Qed.
End GeneratorLemmas.

(** ** Fuel *)

Section Fuel.
Variable config : FSConfiguration.

(** The bodies of the two recursions depend on their recursive calls
    only where these do not run out of fuel. *)
Lemma generateNestedTypesWith_ext g g' parentType parentPath :
  (∀ uid t p, uid ∈ default [] (AnyType.nestedTypes parentType) →
     ManifestRoot.types (manifest config) !! uid = Some t →
     inFuel (g t p) → g' t p = g t p) →
  inFuel (generateNestedTypesWith config g parentType parentPath) →
  generateNestedTypesWith config g' parentType parentPath
  = generateNestedTypesWith config g parentType parentPath.
Proof.
  intros Hg. unfold generateNestedTypesWith.
  apply bind_ext_inFuel; [done|intros _].
  apply forEach_ext_inFuel. intros uid Huid.
  destruct (ManifestRoot.types (manifest config) !! uid) as [t|] eqn:Ht; [|done].
  apply bind_ext_inFuel; [done|intros [|]]; [done|].
  by apply Hg with uid.
Qed.

Lemma generateTypeWith_ext n n' type parentPath :
  (∀ p, inFuel (n type p) → n' type p = n type p) →
  inFuel (generateTypeWith config n type parentPath) →
  generateTypeWith config n' type parentPath
  = generateTypeWith config n type parentPath.
Proof.
  intros Hn. unfold generateTypeWith.
  destruct (AnyType.typekind type); try done.
  all: apply bind_ext_inFuel; [done|intros _].
  all: apply bind_ext_inFuel; [done|intros _].
  all: apply bind_ext_inFuel; [done|intros _].
  all: destruct (AnyType.nestedTypes type) as [[|x xs]|]; try done.
  all: apply Hn.
Qed.

Lemma generateType_mono fuel type parentPath :
  inFuel (generateType config fuel type parentPath) →
  generateType config (S fuel) type parentPath
  = generateType config fuel type parentPath.
Proof.
  revert type parentPath. induction fuel as [|fuel IH]; intros type parentPath.
  - by intros [].
  - change (generateType config (S (S fuel)) type parentPath)
      with (generateTypeWith config
              (generateNestedTypesWith config (generateType config (S fuel)))
              type parentPath).
    change (generateType config (S fuel) type parentPath)
      with (generateTypeWith config
              (generateNestedTypesWith config (generateType config fuel))
              type parentPath).
    apply generateTypeWith_ext. intros p.
    apply generateNestedTypesWith_ext. intros uid t q _ _. apply IH.
Qed.

Lemma generateDeclaredTypes_mono fuel arg types typesPath :
  inFuel (generateDeclaredTypes config fuel arg types typesPath) →
  generateDeclaredTypes config (S fuel) arg types typesPath
  = generateDeclaredTypes config fuel arg types typesPath.
Proof.
  unfold generateDeclaredTypes.
  apply forEach_ext_inFuel; intros uid _.
  destruct (ManifestRoot.types (manifest config) !! uid); [|done].
  apply bind_ext_inFuel; [done|intros ignored].
  destruct (ignored || _); [done|]. apply generateType_mono.
Qed.

Lemma generateNamespaceWith_ext g g' ts ts' namespace parentPath :
  (∀ uid n p, uid ∈ default [] (Namespace.children namespace) →
     ManifestRoot.namespaces (manifest config) !! uid = Some n →
     inFuel (g n p) → g' n p = g n p) →
  (∀ l p, inFuel (ts l p) → ts' l p = ts l p) →
  inFuel (generateNamespaceWith config g ts namespace parentPath) →
  generateNamespaceWith config g' ts' namespace parentPath
  = generateNamespaceWith config g ts namespace parentPath.
Proof.
  intros Hg Hts. unfold generateNamespaceWith.
  apply bind_ext_inFuel; [done|intros _].
  apply bind_ext_inFuel; [done|intros _].
  destruct (Namespace.children namespace) as [[|c cs]|] eqn:Hc.
  1,3: apply bind_ext_inFuel; [done|intros _];
       destruct (Namespace.types namespace) as [[|t tl]|]; try done;
       apply bind_ext_inFuel; [done|intros _]; apply Hts.
  intros Hin.
  assert (Hchildren : inFuel
    (tell (Mkdir (pathJoin (pathJoin parentPath
                              (sanitizeFileName (Namespace.name namespace)))
                    "Namespaces")) ;;;
     forEach (c :: cs)
       (λ childUid,
          match ManifestRoot.namespaces (manifest config) !! childUid with
          | Some childNamespace =>
              g childNamespace
                (pathJoin (pathJoin parentPath
                             (sanitizeFileName (Namespace.name namespace)))
                   "Namespaces")
          | None => ret tt
          end))).
  { unfold inFuel in *. rewrite snd_bind in Hin.
    by destruct (snd (bind (tell _) _)). }
  revert Hin. apply bind_ext_inFuel.
  - revert Hchildren. apply bind_ext_inFuel; [done|intros _].
    apply forEach_ext_inFuel. intros uid Huid.
    destruct (ManifestRoot.namespaces (manifest config) !! uid) as [n|] eqn:Hn;
      [|done].
    by apply Hg with uid.
  - intros _. destruct (Namespace.types namespace) as [[|t tl]|]; try done.
    apply bind_ext_inFuel; [done|intros _]. apply Hts.
Qed.

Lemma generateNamespace_mono fuel namespace parentPath :
  inFuel (generateNamespace config fuel namespace parentPath) →
  generateNamespace config (S fuel) namespace parentPath
  = generateNamespace config fuel namespace parentPath.
Proof.
  revert namespace parentPath.
  induction fuel as [|fuel IH]; intros namespace parentPath.
  - by intros [].
  - change (generateNamespace config (S (S fuel)) namespace parentPath)
      with (generateNamespaceWith config (generateNamespace config (S fuel))
              (generateDeclaredTypes config (S fuel) (ArgConfig config))
              namespace parentPath).
    change (generateNamespace config (S fuel) namespace parentPath)
      with (generateNamespaceWith config (generateNamespace config fuel)
              (generateDeclaredTypes config fuel (ArgConfig config))
              namespace parentPath).
    apply generateNamespaceWith_ext.
    + intros uid n p _ _. apply IH.
    + intros l p. apply generateDeclaredTypes_mono.
Qed.

(** More fuel does not change a run that had enough of it. *)
Lemma fuel_enough {A} (run : nat → Gen A) fuel :
  (∀ n, inFuel (run n) → run (S n) = run n) →
  inFuel (run fuel) → ∀ fuel', fuel ≤ fuel' → run fuel' = run fuel.
Proof.
  intros Hmono Hin fuel' Hle. induction Hle as [|m Hle IH]; [done|].
  rewrite Hmono; [done|]. by rewrite IH.
Qed.

Lemma generateType_enough fuel fuel' type parentPath :
  fuel ≤ fuel' → inFuel (generateType config fuel type parentPath) →
  generateType config fuel' type parentPath
  = generateType config fuel type parentPath.
Proof.
  intros Hle Hin.
  apply (fuel_enough (λ n, generateType config n type parentPath) fuel);
    [|done..].
  intros n. apply generateType_mono.
Qed.

Lemma generateNamespace_enough fuel fuel' namespace parentPath :
  fuel ≤ fuel' → inFuel (generateNamespace config fuel namespace parentPath) →
  generateNamespace config fuel' namespace parentPath
  = generateNamespace config fuel namespace parentPath.
Proof.
  intros Hle Hin.
  apply (fuel_enough (λ n, generateNamespace config n namespace parentPath) fuel);
    [|done..].
  intros n. apply generateNamespace_mono.
Qed.
End Fuel.

(** ** Termination *)

Section Termination.
Variable config : FSConfiguration.

(** Finitely many runs that each have enough fuel at some point all
    have enough fuel at one point. *)
Lemma common_fuel {K V} `{Countable K} (table : gmap K V)
  (run : nat → V → string → Gen unit) (l : list K) :
  (∀ n n' v p, n ≤ n' → inFuel (run n v p) → inFuel (run n' v p)) →
  (∀ k v, k ∈ l → table !! k = Some v → ∃ n, ∀ p, inFuel (run n v p)) →
  ∃ N, ∀ k v, k ∈ l → table !! k = Some v → ∀ p, inFuel (run N v p).
Proof.
  intros Hmono. induction l as [|k l IH]; intros Hl.
  - exists 0. by intros k v ?%elem_of_nil.
  - destruct IH as [N HN]; [intros k' v Hin; apply Hl; by right|].
    destruct (table !! k) as [v|] eqn:Hk.
    + destruct (Hl k v) as [n Hn]; [left|done|].
      exists (n `max` N). intros k' v' [->|Hin]%elem_of_cons Hk' p.
      * simplify_eq. apply (Hmono n); [lia|apply Hn].
      * apply (Hmono N); [lia|by apply HN with k'].
    + exists N. intros k' v' [->|Hin]%elem_of_cons Hk' p; [congruence|].
      by apply HN with k'.
Qed.

Lemma generateType_inFuel_mono n n' type parentPath :
  n ≤ n' → inFuel (generateType config n type parentPath) →
  inFuel (generateType config n' type parentPath).
Proof. intros Hle Hin. by rewrite (generateType_enough config n n'). Qed.

Lemma generateNamespace_inFuel_mono n n' namespace parentPath :
  n ≤ n' → inFuel (generateNamespace config n namespace parentPath) →
  inFuel (generateNamespace config n' namespace parentPath).
Proof. intros Hle Hin. by rewrite (generateNamespace_enough config n n'). Qed.

Lemma generateType_terminates type :
  Acc (nestedTypeOf (manifest config)) type →
  ∃ n, ∀ p, inFuel (generateType config n type p).
Proof.
  induction 1 as [type _ IH].
  destruct (common_fuel (ManifestRoot.types (manifest config))
              (generateType config) (default [] (AnyType.nestedTypes type)))
    as [N HN].
  { intros n n' v p. apply generateType_inFuel_mono. }
  { intros uid t Huid Ht. apply IH. by exists uid. }
  exists (S N). intros p. cbn [generateType].
  unfold generateTypeWith, generateNestedTypesWith, generateFields, createFile.
  destruct (AnyType.typekind type);
    gen_step_with ltac:(apply generateMembers_inFuel).
  all: eapply HN; [|eassumption]; simpl; set_solver.
Qed.

Lemma generateDeclaredTypes_inFuel n arg types typesPath :
  (∀ uid t p, uid ∈ types →
     ManifestRoot.types (manifest config) !! uid = Some t →
     inFuel (generateType config n t p)) →
  inFuel (generateDeclaredTypes config n arg types typesPath).
Proof.
  intros Hn. unfold generateDeclaredTypes.
  apply inFuel_forEach. intros uid Huid.
  destruct (ManifestRoot.types (manifest config) !! uid) as [t|] eqn:Ht; [|done].
  apply inFuel_bind; [apply inFuel_liftResult|]. intros ignored.
  destruct (ignored || _); [done|]. by apply Hn with uid.
Qed.

Lemma generateNamespace_terminates namespace :
  well_founded (nestedTypeOf (manifest config)) →
  Acc (childNamespaceOf (manifest config)) namespace →
  ∃ n, ∀ p, inFuel (generateNamespace config n namespace p).
Proof.
  intros Hwf. induction 1 as [namespace _ IH].
  destruct (common_fuel (ManifestRoot.namespaces (manifest config))
              (generateNamespace config)
              (default [] (Namespace.children namespace)))
    as [N HN].
  { intros n n' v p. apply generateNamespace_inFuel_mono. }
  { intros uid c Huid Hc. apply IH. by exists uid. }
  destruct (common_fuel (ManifestRoot.types (manifest config))
              (generateType config)
              (default [] (Namespace.types namespace)))
    as [T HT].
  { intros n n' v p. apply generateType_inFuel_mono. }
  { intros uid t _ _. apply generateType_terminates, Hwf. }
  exists (S (N `max` T)). intros p. cbn [generateNamespace].
  unfold generateNamespaceWith, createFile.
  apply inFuel_bind; [done|intros _].
  apply inFuel_bind; [done|intros _].
  apply inFuel_bind.
  - destruct (Namespace.children namespace) as [[|c cs]|] eqn:Hc; try done.
    apply inFuel_bind; [done|intros _].
    apply inFuel_forEach. intros uid Huid.
    destruct (ManifestRoot.namespaces (manifest config) !! uid) as [n|] eqn:Hn;
      [|done].
    apply (generateNamespace_inFuel_mono N); [lia|]. by apply HN with uid.
  - intros _.
    destruct (Namespace.types namespace) as [[|t ts]|] eqn:Ht; try done.
    apply inFuel_bind; [done|intros _].
    apply generateDeclaredTypes_inFuel. intros uid t' q Huid Ht'.
    apply (generateType_inFuel_mono T); [lia|]. by apply HT with uid.
Qed.
End Termination.

(** A loop is out of fuel when one of its turns is and no turn before
    it throws. *)
Lemma forEach_outOfFuel {A} (before after : list A) (x : A) (body : A → Gen unit) :
  (∀ y e, y ∈ before → snd (body y) ≠ Thrown e) →
  snd (body x) = OutOfFuel →
  snd (forEach (before ++ x :: after) body) = OutOfFuel.
Proof.
  intros Hbefore Hx. induction before as [|y before IH]; unfold forEach in *.
  - cbn [app foldr]. by rewrite snd_bind, Hx.
  - cbn [app foldr]. rewrite snd_bind.
    destruct (snd (body y)) as [[]|e|] eqn:Hy.
    + apply IH. intros z e Hz. apply Hbefore. by right.
    + by destruct (Hbefore y e); [left|].
    + done.
Qed.

(** A traversal that keeps entering a set of namespaces again is out of
    fuel whatever the fuel. *)
Lemma generateNamespace_entersAgain config inCycle fuel namespace parentPath :
  entersAgain config inCycle → inCycle namespace →
  snd (generateNamespace config fuel namespace parentPath) = OutOfFuel.
Proof.
  intros Henter. revert namespace parentPath.
  induction fuel as [|fuel IH]; intros namespace parentPath Hin; [done|].
  destruct (Henter namespace Hin)
    as (before & uid & after & next & Hchildren & Hnext & Hin' & Hbefore).
  cbn [generateNamespace]. unfold generateNamespaceWith, createFile.
  rewrite !snd_bind. cbn [snd tell]. rewrite Hchildren.
  destruct (before ++ uid :: after) as [|c cs] eqn:Hlist;
    [by destruct before|].
  rewrite snd_bind. cbn [snd tell]. rewrite <- Hlist.
  rewrite forEach_outOfFuel; [done| |].
  - intros u e Hu.
    destruct (ManifestRoot.namespaces (manifest config) !! u) as [earlier|] eqn:Hearlier;
      [|done].
    by apply Hbefore with u.
  - change (ManifestRoot.namespaces (manifest config) !! uid)
      with (ManifestRoot.namespaces (FSConfiguration.manifest config) !! uid).
    rewrite Hnext. by apply IH.
Qed.

(** C9. The traversal of the namespaces has no cycle guard.  On a
    graph in which no namespace below the given one is its own
    descendant and no type is nested in itself, [generateNamespace] is
    over once the fuel is large enough, with the same log and the same
    outcome for every larger fuel.  On a graph in which the traversal,
    started at the given namespace, keeps coming to a set of namespaces
    again (a parent/child cycle that it reaches before any throw), the
    recursion is unbounded: the run is out of fuel whatever the fuel. *)
Theorem generateNamespace_terminates_or_recurses :
  ∀ (config : FSConfiguration) (namespace : Namespace) (parentPath : string),
    (well_founded (nestedTypeOf (FSConfiguration.manifest config)) →
     Acc (childNamespaceOf (FSConfiguration.manifest config)) namespace →
     terminates (λ fuel, generateNamespace config fuel namespace parentPath))
    ∧ (∀ inCycle : Namespace → Prop,
         entersAgain config inCycle → inCycle namespace →
         diverges (λ fuel, generateNamespace config fuel namespace parentPath)).
Proof.
  intros config namespace parentPath. split.
  - intros Hwf Hacc.
    destruct (generateNamespace_terminates config namespace Hwf Hacc) as [n Hn].
    exists n. intros fuel' Hle.
    rewrite (generateNamespace_enough config n fuel') by done.
    split; [done|]. split; [done|]. apply Hn.
  - intros inCycle Henter Hin fuel.
    by apply generateNamespace_entersAgain with inCycle.
Qed.

(** Resolving a UID in a sample manifest gives one of its entities. *)
Lemma lookup_sample {V} (uidOf : V → UID) (l : list V) (uid : UID) (v : V) :
  (list_to_map ((λ x, (uidOf x, x)) <$> l) : gmap UID V) !! uid = Some v → v ∈ l.
Proof.
  intros Hv%elem_of_list_to_map_2.
  apply list_elem_of_fmap in Hv as (x & [= _ ->] & Hx). done.
Qed.

(** The instance of C9 on the namespace [Game], whose traversal goes
    down into the namespace [Game.Parts] and into the class nested in
    [Booster], and on the two namespaces that list each other as a
    child. *)
Lemma generateNamespace_terminates_or_recurses_witness :
  terminates (λ fuel,
    generateNamespace (Sample.config Fixture.manifestTree) fuel Fixture.nsTree
      "docs")
  ∧ snd (generateNamespace (Sample.config Fixture.manifestTree) 3 Fixture.nsTree
           "docs") = Done tt
  ∧ callPath <$>
      fst (generateNamespace (Sample.config Fixture.manifestTree) 3
             Fixture.nsTree "docs")
    = ["docs/Game"; "docs/Game/index.mdx"; "docs/Game/Namespaces";
       "docs/Game/Namespaces/Parts"; "docs/Game/Namespaces/Parts/index.mdx";
       "docs/Game/Namespaces/Parts/Types";
       "docs/Game/Namespaces/Parts/Types/Tank";
       "docs/Game/Namespaces/Parts/Types/Tank/index.mdx";
       "docs/Game/Types"; "docs/Game/Types/Booster";
       "docs/Game/Types/Booster/index.mdx";
       "docs/Game/Types/Booster/Nested-Types";
       "docs/Game/Types/Booster/Nested-Types/Nozzle";
       "docs/Game/Types/Booster/Nested-Types/Nozzle/index.mdx"]
  ∧ diverges (λ fuel,
      generateNamespace (Sample.config Sample.manifestCycle) fuel Sample.nsA
        "docs").
Proof.
  split_and!.
  - apply (proj1 (generateNamespace_terminates_or_recurses
                    (Sample.config Fixture.manifestTree) Fixture.nsTree "docs")).
    + assert (Hleaf : ∀ t, AnyType.nestedTypes t = None →
                Acc (nestedTypeOf
                       (FSConfiguration.manifest
                          (Sample.config Fixture.manifestTree))) t).
      { intros t Ht. constructor. intros c (uid & Huid & _).
        rewrite Ht in Huid. by apply elem_of_nil in Huid. }
      intros t. constructor. intros c (uid & _ & Hc).
      apply lookup_sample in Hc.
      apply elem_of_cons in Hc as [->|Hc];
        [|repeat (apply elem_of_cons in Hc as [->|Hc]; [by apply Hleaf|]);
          by apply elem_of_nil in Hc].
      constructor. intros c' (uid' & Huid' & Hc').
      apply list_elem_of_singleton in Huid' as ->.
      assert (c' = Fixture.nozzle) as ->
        by (vm_compute in Hc'; by injection Hc' as <-).
      by apply Hleaf.
    + constructor. intros c (uid & Huid & Hc).
      apply list_elem_of_singleton in Huid as ->.
      assert (c = Fixture.nsParts) as ->
        by (vm_compute in Hc; by injection Hc as <-).
      constructor. intros c (uid & Huid & _). by apply elem_of_nil in Huid.
  - vm_compute. reflexivity.
  - vm_compute. reflexivity.
  - apply (proj2 (generateNamespace_terminates_or_recurses
                    (Sample.config Sample.manifestCycle) Sample.nsA "docs")
             (λ namespace, namespace = Sample.nsA ∨ namespace = Sample.nsB)).
    + intros namespace [-> | ->].
      * exists [], "ns:B", [], Sample.nsB.
        split_and!; [done|vm_compute; reflexivity|by right|].
        by intros u earlier ?%elem_of_nil.
      * exists [], "ns:A", [], Sample.nsA.
        split_and!; [done|vm_compute; reflexivity|by left|].
        by intros u earlier ?%elem_of_nil.
    + by left.
Defined.

(** C9, as stated, fails: on two namespaces that list each other as a
    child the traversal is never over, whatever the fuel. *)
Lemma generateNamespace_cycle_diverges :
  diverges (λ fuel,
    generateNamespace (Sample.config Sample.manifestCycle) fuel Sample.nsA "docs").
Proof.
  assert (HA : ManifestRoot.namespaces
                 (manifest (Sample.config Sample.manifestCycle)) !! "ns:A"
               = Some Sample.nsA) by (vm_compute; reflexivity).
  assert (HB : ManifestRoot.namespaces
                 (manifest (Sample.config Sample.manifestCycle)) !! "ns:B"
               = Some Sample.nsB) by (vm_compute; reflexivity).
  cut (∀ fuel p,
         snd (generateNamespace (Sample.config Sample.manifestCycle) fuel
                Sample.nsA p) = OutOfFuel
         ∧ snd (generateNamespace (Sample.config Sample.manifestCycle) fuel
                  Sample.nsB p) = OutOfFuel).
  { intros Hcut fuel. apply Hcut. }
  induction fuel as [|fuel IH]; intros p; [done|].
  cbn [generateNamespace]. unfold generateNamespaceWith, createFile.
  split.
  - rewrite !snd_bind. cbn [snd tell Sample.nsA Namespace.children].
    rewrite !snd_bind. cbn [snd tell forEach foldr].
    match goal with
    | |- context [?m !! "ns:B"] =>
        replace (m !! "ns:B") with (Some Sample.nsB) by (symmetry; exact HB)
    end.
    by rewrite snd_bind, (proj2 (IH _)).
  - rewrite !snd_bind. cbn [snd tell Sample.nsB Namespace.children].
    rewrite !snd_bind. cbn [snd tell forEach foldr].
    match goal with
    | |- context [?m !! "ns:A"] =>
        replace (m !! "ns:A") with (Some Sample.nsA) by (symmetry; exact HA)
    end.
    by rewrite snd_bind, (proj1 (IH _)).
Qed.


(** ** The global namespace *)

(** C7. The folder of the global namespace is created exactly when the
    list of types of the global namespace is not empty, whatever these
    types are: then the run starts with the folder, its index file and
    its "Types" folder; with no list or an empty list the run does
    nothing. *)
Theorem globalNamespace_folder :
  ∀ (config : FSConfiguration) (globalIgnoreArg : ignoreArg) (fuel : nat),
    (∀ namespace,
       Mkdir (pathJoin (FSConfiguration.outputDir config) "Global Namespace")
         ∈ fst (generateGlobalNamespace config globalIgnoreArg fuel namespace)
       ↔ ∃ t ts, Namespace.types namespace = Some (t :: ts))
    ∧ (∀ uid name parent children,
         generateGlobalNamespace config globalIgnoreArg fuel
           (Namespace.mk uid name parent children None) = ([], Done tt)
         ∧ generateGlobalNamespace config globalIgnoreArg fuel
             (Namespace.mk uid name parent children (Some [])) = ([], Done tt))
    ∧ (∀ uid name parent children t ts,
         ∃ rest,
           fst (generateGlobalNamespace config globalIgnoreArg fuel
                  (Namespace.mk uid name parent children (Some (t :: ts))))
           = Mkdir (pathJoin (FSConfiguration.outputDir config)
                      "Global Namespace")
             :: WriteFile
                  (pathJoin (pathJoin (FSConfiguration.outputDir config)
                               "Global Namespace") "index.mdx")
                  (generateNamespaceContent
                     (Namespace.mk uid name parent children (Some (t :: ts))))
             :: Mkdir (pathJoin (pathJoin (FSConfiguration.outputDir config)
                                   "Global Namespace") "Types")
             :: rest).
Proof.
  intros config globalIgnoreArg fuel. split; [|split].
  - intros namespace. unfold generateGlobalNamespace.
    destruct (Namespace.types namespace) as [[|t ts]|].
    + split; [by intros ?%elem_of_nil|by intros (? & ? & ?)].
    + split; [eauto|]. intros _. rewrite fst_bind. simpl. left.
    + split; [by intros ?%elem_of_nil|by intros (? & ? & ?)].
  - done.
  - intros uid name parent children t ts.
    unfold generateGlobalNamespace, createFile. cbn [Namespace.types].
    rewrite !fst_bind. simpl. eauto.
Qed.

(** C7, as stated, fails: the global namespace below lists a
    compiler-generated class and a nested class only, so it owns no
    type that gets a node, and yet its folder, index file and "Types"
    folder are created. *)
Lemma globalNamespace_folder_without_types :
  shouldIgnoreType Sample.closure
    (ArgConfig (Sample.config Sample.manifestGlobal)) = Ok true
  ∧ AnyType.enclosingType Sample.innerOfGlobal = Some "type:Outer"
  ∧ snd (generateGlobalNamespace (Sample.config Sample.manifestGlobal)
           (ArgConfig (Sample.config Sample.manifestGlobal)) 2 Sample.nsGlobal)
    = Done tt
  ∧ callPath <$>
      fst (generateGlobalNamespace (Sample.config Sample.manifestGlobal)
             (ArgConfig (Sample.config Sample.manifestGlobal)) 2 Sample.nsGlobal)
    = ["docs/Global Namespace"; "docs/Global Namespace/index.mdx";
       "docs/Global Namespace/Types"].
Proof. split_and!; vm_compute; reflexivity. Qed.

(** ** The ignore predicate at its call sites *)

(** C6 on the namespace [Lib]: the class [Hidden], which carries an
    attribute of an ignored kind, is skipped where the namespace lists
    it; the nested class [Inner], which carries the same attribute,
    makes the run throw, because [generateNestedTypes] hands the
    manifest to the ignore predicate where the configuration is
    expected; and the table of types of a namespace lists a
    compiler-generated class. *)
Theorem ignored_nested_type_throws :
  shouldIgnoreType Sample.hidden (ArgConfig Sample.configLib) = Ok true
  ∧ shouldIgnoreType Sample.inner (ArgConfig Sample.configLib) = Ok true
  ∧ shouldIgnoreType Sample.inner (ArgManifest Sample.manifestLib)
    = Throw (typeError "attributes")
  ∧ snd (generateNamespace Sample.configLib 3 Sample.nsLib "docs")
    = Thrown (typeError "attributes")
  ∧ callPath <$> fst (generateNamespace Sample.configLib 3 Sample.nsLib "docs")
    = ["docs/Lib"; "docs/Lib/index.mdx"; "docs/Lib/Types";
       "docs/Lib/Types/Outer"; "docs/Lib/Types/Outer/index.mdx";
       "docs/Lib/Types/Outer/Nested-Types"]
  ∧ shouldIgnoreType Sample.closure
      (ArgConfig (Sample.config Sample.manifestGen)) = Ok true
  ∧ getTypesTable Sample.slug "ns:Gen" Sample.manifestGen (Sample.sidecarsOf ∅)
    = MdTable ["Type"; "Description"]
        [[MdLink "Closure" "/api/type:Closure"; Str ""]].
Proof. split_and!; vm_compute; reflexivity. Qed.

(* ================================================================== *)
(** * Further properties of the code *)

(** ** Merged entries *)

Lemma filter_ne_fresh {A} `{EqDecision A} (x : A) (l : list A) :
  x ∉ l → filter (λ y, y ≠ x) l = l.
Proof.
  induction l as [|y l IH]; [done|]. intros [Hxy Hx]%not_elem_of_cons.
  rewrite filter_cons, decide_True by congruence. f_equal. by apply IH.
Qed.

Lemma unionFirstSeen_NoDup {A} `{EqDecision A} (l : list A) :
  NoDup l → unionFirstSeen l = l.
Proof.
  induction 1 as [|x l Hx _ IH]; [done|]. simpl. rewrite IH. f_equal.
  by apply filter_ne_fresh.
Qed.

Lemma lastNonEmptyDescription_nonempty entries :
  lastNonEmptyDescription entries ≠ Some EmptyString.
Proof.
  induction entries as [|e entries IH]; [done|].
  rewrite lastNonEmptyDescription_cons.
  destruct (lastNonEmptyDescription entries) as [d|]; [done|].
  by destruct (SidecarEntry.description e) as [[|]|].
Qed.

Lemma lastNonEmptyDescription_truthy entries :
  truthyString (lastNonEmptyDescription entries)
  = existsb (λ e, truthyString (SidecarEntry.description e)) entries.
Proof.
  induction entries as [|e entries IH]; [done|].
  rewrite lastNonEmptyDescription_cons. cbn [existsb]. rewrite <- IH.
  pose proof (lastNonEmptyDescription_nonempty entries) as Hne.
  destruct (lastNonEmptyDescription entries) as [[|c d]|] eqn:Hl; simpl.
  - done.
  - by rewrite orb_true_r.
  - rewrite orb_false_r.
    by destruct (SidecarEntry.description e) as [[|]|].
Qed.

(** Sections with distinct headings that [merged] does not have yet
    are pushed one after the other. *)
Lemma foldl_mergeSection_fresh (ss merged : list SidecarSection) :
  NoDup (SidecarSection.heading <$> ss) →
  (∀ s, s ∈ ss →
     SidecarSection.heading s ∉ SidecarSection.heading <$> merged) →
  foldl mergeSection merged ss = merged ++ ss.
Proof.
  revert merged. induction ss as [|s ss IH]; intros merged Hnd Hfresh.
  - by rewrite app_nil_r.
  - rewrite fmap_cons in Hnd. apply NoDup_cons in Hnd as [Hs Hnd].
    cbn [foldl]. unfold mergeSection at 2.
    destruct (list_find _ merged) as [[i s']|] eqn:Hf.
    + apply list_find_Some in Hf as (Hi & Hh & _).
      exfalso. apply (Hfresh s); [left|].
      rewrite <- Hh. apply list_elem_of_fmap. exists s'. split; [done|].
      by eapply list_elem_of_lookup_2.
    + rewrite IH; [by rewrite <- app_assoc|done|].
      intros x Hx. rewrite fmap_app, elem_of_app. intros [Hin|Hin].
      * apply (Hfresh x); [by right|done].
      * apply list_elem_of_singleton in Hin. apply Hs. rewrite <- Hin.
        apply list_elem_of_fmap. eauto.
Qed.

(** A merged entry merges into the empty entry as itself. *)
Lemma mergeEntry_merged entries :
  mergeEntry (SidecarEntry.mk None (Some []) (Some [])) (mergeSidecars entries)
  = mergeSidecars entries.
Proof.
  pose proof (mergeSidecars_description_fold entries
                (SidecarEntry.mk None (Some []) (Some []))) as Hd.
  pose proof (mergeSidecars_sections_fold entries
                (SidecarEntry.mk None (Some []) (Some [])) [] eq_refl) as Hs.
  pose proof (mergeSidecars_seeAlso_fold entries
                (SidecarEntry.mk None (Some []) (Some [])) [] eq_refl) as Hr.
  fold (mergeSidecars entries) in Hd, Hs, Hr.
  pose proof (lastNonEmptyDescription_truthy entries) as Ht.
  destruct (mergeSidecars entries) as [d ss rs]. simpl in *. subst.
  unfold mergeEntry. simpl. f_equal.
  - pose proof (lastNonEmptyDescription_nonempty entries) as Hne.
    destruct (lastNonEmptyDescription entries) as [[|c d]|]; done.
  - f_equal. rewrite foldl_mergeSection_fresh; [done| |].
    + rewrite mergeSection_headings. apply NoDup_unionFirstSeen.
    + intros s _. apply not_elem_of_nil.
  - f_equal. change (∅ : gset UID) with (list_to_set [] : gset UID).
    rewrite foldl_mergeRef. simpl.
    rewrite !foldl_pushNew. apply unionFirstSeen_NoDup, NoDup_unionFirstSeen.
Qed.

(** X1. Merging composes: merging a list of entries gives the same
    entry as merging its first part into one entry and then merging
    that entry with the rest.  In particular a merged entry is a fixed
    point: merging it alone returns it. *)
Theorem mergeSidecars_app :
  ∀ before after : list SidecarEntry,
    mergeSidecars (before ++ after)
    = mergeSidecars (mergeSidecars before :: after)
    ∧ mergeSidecars [mergeSidecars before] = mergeSidecars before.
Proof.
  assert (Happ : ∀ before after : list SidecarEntry,
            mergeSidecars (before ++ after)
            = mergeSidecars (mergeSidecars before :: after)).
  { intros before after. unfold mergeSidecars at 1 2.
    rewrite foldl_app. cbn [foldl].
    fold (mergeSidecars before). by rewrite mergeEntry_merged. }
  intros before after. split; [apply Happ|].
  by rewrite <- Happ, app_nil_r.
Qed.

Lemma existsb_orb {A} (f g : A → bool) (l : list A) :
  existsb (λ x, f x || g x) l = existsb f l || existsb g l.
Proof.
  induction l as [|x l IH]; [done|]. simpl. rewrite IH.
  destruct (f x), (g x), (existsb f l), (existsb g l); done.
Qed.

Lemma existsb_pointwise {A} (f g : A → bool) (l : list A) :
  (∀ x, f x = g x) → existsb f l = existsb g l.
Proof. intros Hfg. induction l as [|x l IH]; [done|]. simpl. by rewrite Hfg, IH. Qed.

Lemma nonempty_bind_existsb {A B} (f : A → list B) (l : list A) :
  (0 <? length (l ≫= f)) = existsb (λ x, 0 <? length (f x)) l.
Proof.
  induction l as [|x l IH]; [done|].
  rewrite bind_cons, length_app. simpl. rewrite <- IH.
  destruct (f x); simpl; [done|]. done.
Qed.

Lemma nonempty_unionFirstSeen {A} `{EqDecision A} (l : list A) :
  (0 <? length (unionFirstSeen l)) = (0 <? length l).
Proof. by destruct l. Qed.

(** X2. A merged entry has documentation exactly when one of the
    merged entries has. *)
Theorem hasDocumentation_mergeSidecars :
  ∀ entries : list SidecarEntry,
    hasDocumentation (mergeSidecars entries) = existsb hasDocumentation entries.
Proof.
  intros entries. unfold hasDocumentation at 1, mergeSidecars.
  rewrite mergeSidecars_description_fold.
  erewrite mergeSidecars_sections_fold by reflexivity.
  erewrite mergeSidecars_seeAlso_fold by reflexivity.
  unfold hasDocumentation. rewrite !existsb_orb.
  f_equal; [f_equal|].
  - rewrite <- lastNonEmptyDescription_truthy.
    by destruct (lastNonEmptyDescription entries).
  - rewrite <- (length_fmap SidecarSection.heading), mergeSection_headings.
    rewrite nonempty_unionFirstSeen, length_fmap.
    unfold allSections. rewrite nonempty_bind_existsb.
    apply existsb_pointwise. intros e. by destruct (SidecarEntry.sections e).
  - rewrite foldl_pushNew, nonempty_unionFirstSeen.
    unfold allSeeAlso. rewrite nonempty_bind_existsb.
    apply existsb_pointwise. intros e. by destruct (SidecarEntry.seeAlso e).
Qed.

(** X3. Looking a heading up in a merged entry gives the last section
    with that heading among all merged entries, that is the one of the
    most specific entry that declares it, and nothing when no entry
    declares it. *)
Theorem getSection_mergeSidecars :
  ∀ (entries : list SidecarEntry) (heading : string),
    getSection (mergeSidecars entries) heading
    = lastWithHeading heading (allSections entries).
Proof.
  intros entries heading. unfold getSection, mergeSidecars.
  erewrite mergeSidecars_sections_fold by reflexivity.
  destruct (list_find _ _) as [[i s]|] eqn:Hf; simpl.
  - apply list_find_Some in Hf as (Hi & <- & _).
    symmetry. apply mergeSection_last. by eapply list_elem_of_lookup_2.
  - rewrite list_find_None, Forall_forall in Hf.
    symmetry. unfold lastWithHeading. apply last_None, filter_none.
    intros s Hs Hh.
    assert (Hin : heading ∈ SidecarSection.heading
                               <$> foldl mergeSection [] (allSections entries)).
    { rewrite mergeSection_headings, elem_of_unionFirstSeen.
      apply list_elem_of_fmap. eauto. }
    apply list_elem_of_fmap in Hin as (s' & Hh' & Hs').
    by apply (Hf s').
Qed.

(** ** Render order *)

Lemma sortInsert_le {A} (cmp : A → A → Z) (x : A) (l : list A) :
  Forall (λ y, (cmp x y ≤ 0)%Z) l → sortInsert cmp x l = x :: l.
Proof.
  intros Hl. destruct Hl as [|y l Hy _]; [done|]. simpl.
  by rewrite (proj2 (Z.leb_le _ _) Hy).
Qed.

(** Sorting a list that is already in render order leaves it alone. *)
Lemma jsSort_in_order (hs us : list SidecarSection) :
  Forall (λ s, is_Some (SidecarSection.order s)) hs →
  StronglySorted (λ a b, (hint a ≤ hint b)%Z) hs →
  Forall (λ s, SidecarSection.order s = None) us →
  jsSort compareSections (hs ++ us) = hs ++ us.
Proof.
  intros Hhs Hsorted Hus. unfold jsSort.
  induction Hsorted as [|x hs Hsorted IH Hx]; simpl.
  - induction Hus as [|y us Hy Hus IH]; [done|]. simpl. rewrite IH.
    apply sortInsert_le. eapply Forall_impl; [exact Hus|].
    intros z Hz. unfold compareSections. by rewrite Hy, Hz.
  - apply Forall_cons in Hhs as [[k Hk] Hhs]. rewrite IH by done.
    apply sortInsert_le, Forall_app. split.
    + rewrite Forall_forall in Hhs, Hx. apply Forall_forall. intros y Hy.
      destruct (Hhs y Hy) as [ky Hky]. specialize (Hx y Hy).
      unfold compareSections, hint in *. rewrite Hk, Hky in *. simpl in Hx. lia.
    + eapply Forall_impl; [exact Hus|].
      intros z Hz. unfold compareSections. by rewrite Hk, Hz.
Qed.

Lemma filter_all {A} (P : A → Prop) `{∀ x, Decision (P x)} (l : list A) :
  Forall P l → filter P l = l.
Proof.
  induction 1 as [|x l Hx _ IH]; [done|].
  by rewrite filter_cons, decide_True, IH.
Qed.

(** X4. Render order is a fixed point: an entry whose sections are
    already in render order (as returned by [getSectionsInOrder]) is
    rendered in exactly that order again. *)
Theorem getSectionsInOrder_idempotent :
  ∀ (entry : SidecarEntry) (description : option string)
    (seeAlso : option (list UID)),
    getSectionsInOrder
      (SidecarEntry.mk description (Some (getSectionsInOrder entry)) seeAlso)
    = getSectionsInOrder entry.
Proof.
  intros entry description seeAlso. unfold getSectionsInOrder at 1. simpl.
  unfold getSectionsInOrder.
  destruct (SidecarEntry.sections entry) as [ss|]; [|done].
  set (shown := filter (λ s, SidecarSection.heading s ≠ StandardHeadings.SEE_ALSO)
                  ss).
  rewrite filter_all.
  - rewrite (jsSort_split shown). apply jsSort_in_order.
    + apply (jsSort_Forall compareSections), Forall_forall.
      by intros s [? _]%list_elem_of_filter.
    + apply jsSort_sorted, Forall_forall.
      by intros s [? _]%list_elem_of_filter.
    + apply Forall_forall. by intros s [? _]%list_elem_of_filter.
  - apply (jsSort_Forall compareSections), Forall_forall.
    by intros s [? _]%list_elem_of_filter.
Qed.

(** ** Pages *)

Section PageProperties.
Variable uidToSlugFn : UID → string.

(** X5. For a UID without documentation (no entry, or an entry with an
    empty description, no section and no reference) the complete
    sidecar adds nothing to the page, the inline description is empty
    and no heading is reported as present. *)
Theorem addCompleteSidecar_undocumented :
  ∀ (builder : MarkdownBuilder) (uid : UID) (sidecars : SidecarCollection)
    (manifest : ManifestRoot),
    hasSidecar uid sidecars = false →
    addCompleteSidecar uidToSlugFn builder uid sidecars manifest = builder
    ∧ getInlineDescription uid sidecars = ""
    ∧ ∀ heading, hasSection uid sidecars heading = false.
Proof.
  intros builder uid sidecars manifest.
  unfold hasSidecar, addCompleteSidecar, addDescription, addSections, addSeeAlso,
    getInlineDescription, hasSection, getSectionsInOrder, getSection, orElse.
  destruct (_ !! uid) as [entry|]; [|done].
  unfold hasDocumentation. intros [[Hd Hs]%orb_false_elim Hr]%orb_false_elim.
  rewrite Hd.
  destruct (SidecarEntry.sections entry) as [[|s ss]|]; try done;
    destruct (SidecarEntry.seeAlso entry) as [[|r rs]|]; done.
Qed.

(** X6. [addSection] and [hasSection] agree: when the heading is
    present, exactly that heading (at the requested level) and one text
    are appended to the page; when it is absent, the page is left as it
    is. *)
Theorem addSection_hasSection :
  ∀ (builder : MarkdownBuilder) (uid : UID) (sidecars : SidecarCollection)
    (heading : string) (headingLevel : nat),
    (hasSection uid sidecars heading = true
     ∧ ∃ content,
         addSection builder uid sidecars heading headingLevel
         = builder ++ [AddHeading heading headingLevel; AddText (Str content)])
    ∨ (hasSection uid sidecars heading = false
       ∧ addSection builder uid sidecars heading headingLevel = builder).
Proof.
  intros builder uid sidecars heading headingLevel.
  unfold hasSection, addSection.
  destruct (_ !! uid) as [entry|]; [|by right].
  destruct (getSection entry heading) as [s|] eqn:Hs.
  - left. split; [by apply bool_decide_eq_true|].
    exists (SidecarSection.content s).
    unfold getSection in Hs.
    destruct (SidecarEntry.sections entry) as [ss|]; [|done].
    destruct (list_find _ ss) as [[i s']|] eqn:Hf; [|done].
    simpl in Hs. injection Hs as ->.
    apply list_find_Some in Hf as (_ & -> & _).
    unfold addText, addHeading. by rewrite <- app_assoc.
  - right. split; [|done]. apply bool_decide_eq_false. by intros [? ?].
Qed.

Lemma outline_app (a b : MarkdownBuilder) : outline (a ++ b) = outline a ++ outline b.
Proof. apply omap_app. Qed.

Lemma frontMatter_app (a b : MarkdownBuilder) :
  frontMatter (a ++ b) = frontMatter a ++ frontMatter b.
Proof. apply omap_app. Qed.

Lemma outline_sectionCalls ss :
  outline (sectionCalls ss) = (λ s, (SidecarSection.heading s, 2)) <$> ss.
Proof.
  induction ss as [|s ss IH]; [done|].
  unfold sectionCalls in *. rewrite bind_cons, outline_app, IH. done.
Qed.

Lemma frontMatter_sectionCalls ss : frontMatter (sectionCalls ss) = [].
Proof.
  induction ss as [|s ss IH]; [done|].
  unfold sectionCalls in *. rewrite bind_cons, frontMatter_app, IH. done.
Qed.

Lemma frontMatter_seeAlsoCalls manifest refs :
  frontMatter (seeAlsoCalls uidToSlugFn manifest refs) = [].
Proof. by destruct refs. Qed.

Lemma frontMatter_addDescription b uid sidecars :
  frontMatter (addDescription b uid sidecars) = frontMatter b.
Proof.
  unfold addDescription. destruct (_ !! uid) as [entry|]; [|done].
  destruct (truthyString _); [|done].
  unfold addText. by rewrite frontMatter_app, app_nil_r.
Qed.

Lemma outline_addDescription b uid sidecars :
  outline (addDescription b uid sidecars) = outline b.
Proof.
  unfold addDescription. destruct (_ !! uid) as [entry|]; [|done].
  destruct (truthyString _); [|done].
  unfold addText. by rewrite outline_app, app_nil_r.
Qed.

(** X7. The page of a namespace that the manifest knows sets exactly
    the four front-matter keys title, description, slug and
    sidebar_label, once each and in this order; the description is the
    inline description of the sidecar when that is not empty and the
    stock sentence that names the namespace when it is, and so is never
    empty. *)
Theorem createNamespaceMDX_frontMatter :
  ∀ (config : FSConfiguration) (namespace : Namespace)
    (sidecars : SidecarCollection),
    is_Some (ManifestRoot.namespaces (FSConfiguration.manifest config)
               !! Namespace.uid namespace) →
    ∃ page description,
      createNamespaceMDX uidToSlugFn config namespace sidecars = Ok page
      ∧ frontMatter page
        = [("title", Namespace.name namespace +:+ " Namespace");
           ("description", description);
           ("slug", uidToSlugFn (Namespace.uid namespace));
           ("sidebar_label", Namespace.name namespace)]
      ∧ description ≠ ""
      ∧ (getInlineDescription (Namespace.uid namespace) sidecars ≠ "" →
         description = getInlineDescription (Namespace.uid namespace) sidecars)
      ∧ (getInlineDescription (Namespace.uid namespace) sidecars = "" →
         description
         = "Documentation for the " +:+ Namespace.name namespace
           +:+ " namespace.").
Proof.
  intros config namespace sidecars [n Hn].
  unfold createNamespaceMDX. rewrite Hn.
  eexists _, _. split; [reflexivity|].
  rewrite addSeeAlso_calls, addSections_calls.
  assert (Hrest : ∀ b : MarkdownBuilder,
    frontMatter
      ((b ++ match SidecarCollection.entries sidecars !! Namespace.uid namespace with
             | Some entry => sectionCalls (getSectionsInOrder entry)
             | None => []
             end)
       ++ match SidecarCollection.entries sidecars !! Namespace.uid namespace with
          | Some entry =>
              seeAlsoCalls uidToSlugFn (FSConfiguration.manifest config)
                (default [] (SidecarEntry.seeAlso entry))
          | None => []
          end) = frontMatter b).
  { intros b. rewrite !frontMatter_app.
    destruct (SidecarCollection.entries sidecars !! Namespace.uid namespace) as [entry|]; cbv beta iota.
    - by rewrite frontMatter_sectionCalls, frontMatter_seeAlsoCalls, !app_nil_r.
    - change (frontMatter []) with (@nil (string * string)).
      by rewrite !app_nil_r. }
  rewrite Hrest. split_and!.
  - destruct (match Namespace.children namespace with
              | Some (_ :: _) => true | _ => false end);
      destruct (hasSidecar _ _);
      unfold addText, addHeading, setFrontMatter;
      rewrite ?frontMatter_app, ?frontMatter_addDescription, ?frontMatter_app;
      simpl; reflexivity.
  - unfold orElse. simpl.
    destruct (getInlineDescription _ _) as [|c d]; simpl; [|done].
    rewrite append_cons. done.
  - unfold orElse. simpl. by destruct (getInlineDescription _ _).
  - intros Hempty. unfold orElse. by rewrite Hempty.
Qed.

(** X8. The outline of the page of a namespace: the heading Overview
    when the namespace has documentation, then Types (always), then
    Nested Namespaces when the namespace lists a child, then the
    headings of the sidecar sections in render order, then See Also
    when the entry has a reference; all at level 2. *)
Theorem createNamespaceMDX_outline :
  ∀ (config : FSConfiguration) (namespace : Namespace)
    (sidecars : SidecarCollection),
    is_Some (ManifestRoot.namespaces (FSConfiguration.manifest config)
               !! Namespace.uid namespace) →
    ∃ page,
      createNamespaceMDX uidToSlugFn config namespace sidecars = Ok page
      ∧ outline page
        = (if hasSidecar (Namespace.uid namespace) sidecars
           then [("Overview", 2)] else [])
          ++ [("Types", 2)]
          ++ (if bool_decide (default [] (Namespace.children namespace) = [])
              then [] else [("Nested Namespaces", 2)])
          ++ match SidecarCollection.entries sidecars !! Namespace.uid namespace with
             | Some entry =>
                 ((λ s, (SidecarSection.heading s, 2)) <$> getSectionsInOrder entry)
                 ++ (if bool_decide (default [] (SidecarEntry.seeAlso entry) = [])
                     then [] else [("See Also", 2)])
             | None => []
             end.
Proof.
  intros config namespace sidecars [n Hn].
  unfold createNamespaceMDX. rewrite Hn.
  eexists. split; [reflexivity|].
  rewrite addSeeAlso_calls, addSections_calls, !outline_app.
  rewrite <- !app_assoc.
  assert (Htail :
    outline match SidecarCollection.entries sidecars !! Namespace.uid namespace with
            | Some entry => sectionCalls (getSectionsInOrder entry)
            | None => []
            end
    ++ outline match SidecarCollection.entries sidecars !! Namespace.uid namespace with
               | Some entry =>
                   seeAlsoCalls uidToSlugFn (FSConfiguration.manifest config)
                     (default [] (SidecarEntry.seeAlso entry))
               | None => []
               end
    = match SidecarCollection.entries sidecars !! Namespace.uid namespace with
      | Some entry =>
          ((λ s, (SidecarSection.heading s, 2)) <$> getSectionsInOrder entry)
          ++ (if bool_decide (default [] (SidecarEntry.seeAlso entry) = [])
              then [] else [("See Also", 2)])
      | None => []
      end).
  { destruct (SidecarCollection.entries sidecars !! Namespace.uid namespace) as [entry|]; [|done].
    rewrite outline_sectionCalls. f_equal.
    by destruct (SidecarEntry.seeAlso entry) as [[|r rs]|]. }
  etrans; [apply (f_equal (app _)); exact Htail|]. clear Htail.
  destruct (Namespace.children namespace) as [[|c cs]|];
    destruct (hasSidecar _ _); simpl;
    unfold addText, addHeading, setFrontMatter;
    rewrite ?outline_app, ?outline_addDescription, ?outline_app; simpl;
    reflexivity.
Qed.
End PageProperties.

Lemma addCompleteSidecar_undocumented_witness :
  addCompleteSidecar Sample.slug [] "ns:Foo" Fixture.sidecarsBlank
    Sample.manifestFoo = []
  ∧ getInlineDescription "ns:Foo" Fixture.sidecarsBlank = ""
  ∧ ∀ heading, hasSection "ns:Foo" Fixture.sidecarsBlank heading = false.
Proof.
  apply (addCompleteSidecar_undocumented Sample.slug [] "ns:Foo"
           Fixture.sidecarsBlank Sample.manifestFoo).
  vm_compute. reflexivity.
Defined.

Lemma createNamespaceMDX_frontMatter_witness :
  ∃ page description,
    createNamespaceMDX Sample.slug (Sample.config Sample.manifestFoo)
      Sample.nsFoo Fixture.sidecarsHints = Ok page
    ∧ frontMatter page
      = [("title", "Foo" +:+ " Namespace"); ("description", description);
         ("slug", Sample.slug "ns:Foo"); ("sidebar_label", "Foo")]
    ∧ description ≠ ""
    ∧ (getInlineDescription "ns:Foo" Fixture.sidecarsHints ≠ "" →
       description = getInlineDescription "ns:Foo" Fixture.sidecarsHints)
    ∧ (getInlineDescription "ns:Foo" Fixture.sidecarsHints = "" →
       description = "Documentation for the " +:+ "Foo" +:+ " namespace.").
Proof.
  apply (createNamespaceMDX_frontMatter Sample.slug
           (Sample.config Sample.manifestFoo) Sample.nsFoo Fixture.sidecarsHints).
  vm_compute. eexists. reflexivity.
Defined.

Lemma createNamespaceMDX_outline_witness :
  ∃ page,
    createNamespaceMDX Sample.slug (Sample.config Sample.manifestFoo)
      Sample.nsFoo Fixture.sidecarsHints = Ok page
    ∧ outline page
      = [("Overview", 2); ("Types", 2); ("Remarks", 2); ("Examples", 2);
         ("Notes", 2); ("Usage", 2); ("See Also", 2)].
Proof.
  destruct (createNamespaceMDX_outline Sample.slug
              (Sample.config Sample.manifestFoo) Sample.nsFoo
              Fixture.sidecarsHints) as (page & Hpage & Houtline).
  - vm_compute. eexists. reflexivity.
  - exists page. split; [exact Hpage|]. rewrite Houtline. vm_compute. reflexivity.
Defined.

Lemma omap_filter_fmap {A B C} (f : A → option B) (P : B → Prop)
    `{∀ x, Decision (P x)} (g : B → C) (l : list A) :
  omap (λ a, match f a with
             | Some b => if decide (P b) then Some (g b) else None
             | None => None
             end) l
  = g <$> filter P (omap f l).
Proof.
  induction l as [|a l IH]; [done|]. cbn [omap]. rewrite !omap_cons_eq.
  destruct (f a) as [b|]; [|done].
  rewrite filter_cons. destruct (decide (P b)); [|done].
  by rewrite fmap_cons, IH.
Qed.

(** X9. The table of members of a type that the manifest knows has one
    row per member that [getTypeMembers] resolves and whose kind passes
    the filter (every kind when no filter is given), in the order of
    declaration; each row links the member's name to its slug. *)
Theorem getMembersTable_rows :
  ∀ (uidToSlugFn : UID → string) (manifest : ManifestRoot)
    (sidecars : SidecarCollection) (typeUid : UID) (type : AnyType)
    (filterMemberKind : option (list MemberKind)),
    resolveType manifest typeUid = Some type →
    getMembersTable uidToSlugFn typeUid manifest sidecars filterMemberKind
    = MdTable ["Member"; "Description"]
        (memberRow uidToSlugFn sidecars
           <$> filter (kindShown filterMemberKind) (getTypeMembers manifest type)).
Proof.
  intros uidToSlugFn manifest sidecars typeUid type filterMemberKind Htype.
  unfold resolveType in Htype. unfold getMembersTable, getTypeMembers.
  rewrite Htype. f_equal.
  destruct (AnyType.members type) as [uids|]; [|done]. simpl.
  rewrite <- (omap_filter_fmap (λ uid, ManifestRoot.members manifest !! uid)).
  induction uids as [|uid uids IH]; [done|].
  rewrite !omap_cons_eq, IH.
  destruct (ManifestRoot.members manifest !! uid) as [member|]; [|done].
  destruct (decide (kindShown filterMemberKind member)) as [Hk|Hk];
    destruct filterMemberKind as [kinds|]; simpl in Hk.
  - by rewrite bool_decide_eq_true_2.
  - done.
  - by rewrite bool_decide_eq_false_2.
  - done.
Qed.

Lemma getMembersTable_rows_witness :
  getMembersTable Sample.slug "type:Game.Rocket" Fixture.manifestGame
    (Sample.sidecarsOf ∅) (Some [MMethod; MField])
  = MdTable ["Member"; "Description"]
      (memberRow Sample.slug (Sample.sidecarsOf ∅)
         <$> [Fixture.launch; Fixture.mass; Fixture.launchAt]).
Proof.
  rewrite (getMembersTable_rows Sample.slug Fixture.manifestGame
             (Sample.sidecarsOf ∅) "type:Game.Rocket" Fixture.rocket
             (Some [MMethod; MField])).
  - vm_compute. reflexivity.
  - vm_compute. reflexivity.
Defined.

(** ** Names of files *)

Lemma allDigits_backtick a b : allDigits (a +:+ String "`"%char b) = false.
Proof.
  induction a as [|c a IH].
  - rewrite append_empty_l. done.
  - rewrite append_cons. simpl. rewrite IH. apply andb_false_r.
Qed.

(** X10. The arity suffix of a generic name is removed, and only that:
    a name followed by a backtick and one or more digits loses exactly
    this suffix, whatever the name contains. *)
Theorem stripGenericParameters_arity :
  ∀ name digits : string,
    digits ≠ "" → allDigits digits = true →
    stripGenericParameters (name +:+ "`" +:+ digits) = name.
Proof.
  intros name digits Hne Hd. induction name as [|c name IH].
  - rewrite append_empty_l. rewrite append_cons, append_empty_l.
    cbn [stripGenericParameters]. rewrite Hd.
    destruct digits; [done|]. done.
  - rewrite append_cons. cbn [stripGenericParameters]. rewrite IH.
    rewrite (append_cons "`"%char ""), append_empty_l, allDigits_backtick.
    by rewrite andb_false_r.
Qed.

Lemma stripGenericParameters_arity_witness :
  stripGenericParameters ("Dictionary" +:+ "`" +:+ "2") = "Dictionary".
Proof. by apply stripGenericParameters_arity. Defined.

Lemma stringForall_impl (p q : ascii → bool) s :
  (∀ c, p c = true → q c = true) → stringForall p s = true → stringForall q s = true.
Proof.
  intros Hpq. induction s as [|c s IH]; [done|]. simpl.
  intros [Hc Hs]%andb_prop. by rewrite (Hpq c Hc), IH.
Qed.

Lemma replaceIllegal_legal s :
  stringForall (λ c, negb (isIllegalChar c)) (replaceIllegal s) = true.
Proof.
  induction s as [|c s IH]; [done|]. simpl. rewrite IH, andb_true_r.
  by destruct (isIllegalChar c) eqn:Hc; [|rewrite Hc].
Qed.

Lemma replaceSpaceRuns_safe inRun s :
  stringForall (λ c, negb (isIllegalChar c)) s = true →
  stringForall (λ c, negb (isIllegalChar c) && negb (isSpaceChar c))
    (replaceSpaceRuns inRun s) = true.
Proof.
  revert inRun. induction s as [|c s IH]; intros inRun; [done|]. simpl.
  intros [Hc Hs]%andb_prop.
  destruct (isSpaceChar c) eqn:Hsp.
  - destruct inRun; [by apply IH|]. simpl. by apply IH.
  - simpl. by rewrite Hc, Hsp, IH.
Qed.

Lemma length_stripGenericParameters s :
  String.length (stripGenericParameters s) ≤ String.length s.
Proof.
  induction s as [|c s IH]; [done|]. simpl.
  destruct (_ && _); simpl; lia.
Qed.

Lemma length_replaceIllegal s : String.length (replaceIllegal s) = String.length s.
Proof. induction s as [|c s IH]; [done|]. simpl. by rewrite IH. Qed.

Lemma length_replaceSpaceRuns inRun s :
  String.length (replaceSpaceRuns inRun s) ≤ String.length s.
Proof.
  revert inRun. induction s as [|c s IH]; intros inRun; [done|]. simpl.
  pose proof (IH true). pose proof (IH false).
  destruct (isSpaceChar c); [destruct inRun|]; simpl; lia.
Qed.

Lemma properSegment_spec name :
  properSegment name = true ↔
  name ≠ "" ∧ name ≠ "." ∧ name ≠ ".." ∧ noSlash name = true.
Proof.
  unfold properSegment.
  rewrite !andb_true_iff, !negb_true_iff, !String.eqb_neq. tauto.
Qed.

Lemma noSlash_sanitizeFileName name : noSlash (sanitizeFileName name) = true.
Proof.
  unfold noSlash, sanitizeFileName.
  eapply stringForall_impl;
    [|apply replaceSpaceRuns_safe, replaceIllegal_legal].
  intros c [Hc _]%andb_prop. apply negb_true_iff in Hc. apply negb_true_iff.
  apply Nat.eqb_neq. intros Heq. unfold isIllegalChar in Hc.
  apply bool_decide_eq_false in Hc. apply Hc. rewrite Heq.
  repeat first [by left | right].
Qed.

Lemma replaceIllegal_dots s :
  (replaceIllegal s = "" ↔ s = "") ∧ (replaceIllegal s = "." ↔ s = ".")
  ∧ (replaceIllegal s = ".." ↔ s = "..").
Proof.
  assert (Hdot : ∀ c, (if isIllegalChar c then "-"%char else c) = "."%char
                      ↔ c = "."%char).
  { intros c. destruct (isIllegalChar c) eqn:Hc; [|done].
    split; [done|]. intros ->. done. }
  split_and!.
  - by destruct s.
  - destruct s as [|c [|c' s]]; simpl; split; try done.
    + intros [= Hc]. apply (proj1 (Hdot c)) in Hc. by subst.
    + intros [= ->]. done.
  - destruct s as [|c [|c' [|c'' s]]]; simpl; split; try done.
    + intros [= Hc Hc']. apply (proj1 (Hdot c)) in Hc.
      apply (proj1 (Hdot c')) in Hc'. by subst.
    + intros [= -> ->]. done.
Qed.

Lemma replaceSpaceRuns_dots s :
  (replaceSpaceRuns false s = "" ↔ s = "")
  ∧ (replaceSpaceRuns false s = "." ↔ s = ".")
  ∧ (replaceSpaceRuns false s = ".." ↔ s = "..").
Proof.
  assert (Hempty : ∀ r, replaceSpaceRuns false r = "" ↔ r = "").
  { intros [|c r]; [done|]. simpl. by destruct (isSpaceChar c). }
  assert (Hone : ∀ r, replaceSpaceRuns false r = "." ↔ r = ".").
  { intros [|c r]; [done|]. simpl. destruct (isSpaceChar c) eqn:Hc.
    - split; [done|]. intros [= -> ->]. done.
    - split.
      + intros [= -> Hr]. apply (proj1 (Hempty r)) in Hr. by subst.
      + intros [= -> ->]. done. }
  split_and!; [apply Hempty|apply Hone|].
  destruct s as [|c r]; [done|]. simpl. destruct (isSpaceChar c) eqn:Hc.
  - split; [done|]. intros [= -> ->]. done.
  - split.
    + intros [= -> Hr]. apply (proj1 (Hone r)) in Hr. by subst.
    + intros [= -> ->]. done.
Qed.

(** X11. A sanitized name holds none of the characters
    [< > : quote / \ | ? *] and no white space, and it is never longer
    than the name it comes from.  That does not make it a safe path
    segment: the sanitized name is a proper segment (not empty, not [.]
    and not [..]) exactly when the name without its arity suffix is
    none of these three, which pass unchanged. *)
Theorem sanitizeFileName_segment :
  ∀ name : string,
    stringForall (λ c, negb (isIllegalChar c) && negb (isSpaceChar c))
      (sanitizeFileName name) = true
    ∧ String.length (sanitizeFileName name) ≤ String.length name
    ∧ (properSegment (sanitizeFileName name) = true
       ↔ stripGenericParameters name ∉ [""; "."; ".."])
    ∧ sanitizeFileName "" = "" ∧ sanitizeFileName "." = "."
    ∧ sanitizeFileName ".." = "..".
Proof.
  intros name. split_and!; [| | |reflexivity..].
  - unfold sanitizeFileName. apply replaceSpaceRuns_safe, replaceIllegal_legal.
  - unfold sanitizeFileName.
    pose proof (length_replaceSpaceRuns false
                  (replaceIllegal (stripGenericParameters name))).
    pose proof (length_replaceIllegal (stripGenericParameters name)).
    pose proof (length_stripGenericParameters name). lia.
  - rewrite properSegment_spec.
    pose proof (noSlash_sanitizeFileName name) as Hslash.
    unfold sanitizeFileName in *.
    destruct (replaceSpaceRuns_dots (replaceIllegal (stripGenericParameters name)))
      as (Hs0 & Hs1 & Hs2).
    destruct (replaceIllegal_dots (stripGenericParameters name))
      as (Hi0 & Hi1 & Hi2).
    rewrite !not_elem_of_cons, Hs0, Hs1, Hs2, Hi0, Hi1, Hi2.
    split; [|by intros (? & ? & ? & _)].
    intros (? & ? & ? & _). split_and!; try done. apply not_elem_of_nil.
Qed.

Lemma stripGenericParameters_id s :
  stringForall (λ c, negb (nat_of_ascii c =? 96)) s = true →
  stripGenericParameters s = s.
Proof.
  induction s as [|c s IH]; [done|]. simpl. intros [Hc Hs]%andb_prop.
  apply negb_true_iff in Hc. rewrite Hc. simpl. by rewrite IH.
Qed.

Lemma replaceIllegal_id s :
  stringForall (λ c, negb (isIllegalChar c)) s = true → replaceIllegal s = s.
Proof.
  induction s as [|c s IH]; [done|]. simpl. intros [Hc Hs]%andb_prop.
  apply negb_true_iff in Hc. by rewrite Hc, IH.
Qed.

Lemma replaceSpaceRuns_id s :
  stringForall (λ c, negb (isSpaceChar c)) s = true → replaceSpaceRuns false s = s.
Proof.
  induction s as [|c s IH]; [done|]. simpl. intros [Hc Hs]%andb_prop.
  apply negb_true_iff in Hc. by rewrite Hc, IH.
Qed.

(** X12. A name without a backtick, without a character of the illegal
    set and without white space is its own file name. *)
Theorem sanitizeFileName_id :
  ∀ name : string,
    stringForall (λ c, negb (nat_of_ascii c =? 96) && negb (isIllegalChar c)
                       && negb (isSpaceChar c)) name = true →
    sanitizeFileName name = name.
Proof.
  intros name Hname. unfold sanitizeFileName.
  rewrite stripGenericParameters_id, replaceIllegal_id, replaceSpaceRuns_id; [done|..];
    (eapply stringForall_impl; [|exact Hname]); intros c Hc; simpl in Hc;
    apply andb_prop in Hc as [[H1 H2]%andb_prop H3]; done.
Qed.

Lemma sanitizeFileName_id_witness : sanitizeFileName "get_Item" = "get_Item".
Proof. apply sanitizeFileName_id. vm_compute. reflexivity. Defined.

(** ** The ignore predicate *)

Lemma ignoreLoop_config attributes config :
  ignoreLoop attributes (ArgConfig config)
  = Ok (existsb (ignoredAttribute config) attributes).
Proof.
  induction attributes as [|attrUid rest IH]; [done|].
  cbn [ignoreLoop existsb]. unfold ignoredAttribute at 1.
  destruct (_ !! attrUid) as [attr|]; [|done].
  by destruct (default false _).
Qed.

Lemma ignoreLoop_manifest attributes manifest :
  ignoreLoop attributes (ArgManifest manifest)
  = match attributes with
    | [] => Ok false
    | _ => Throw (typeError "attributes")
    end.
Proof. by destruct attributes. Qed.

Lemma shouldIgnore_config_aux config (type : AnyType) :
  shouldIgnoreType type (ArgConfig config)
  = Ok (AnyType.isCompilerGenerated type
        || existsb (ignoredAttribute config) (default [] (AnyType.attributes type)))
  ∧ ∀ member : AnyMember,
      shouldIgnoreMember member (ArgConfig config)
      = Ok (AnyMember.isCompilerGenerated member
            || existsb (ignoredAttribute config)
                 (default [] (AnyMember.attributes member))).
Proof.
  unfold shouldIgnoreType, shouldIgnoreMember. split; [|intros member].
  - destruct (AnyType.isCompilerGenerated type); [done|].
    destruct (AnyType.attributes type); [apply ignoreLoop_config|done].
  - destruct (AnyMember.isCompilerGenerated member); [done|].
    destruct (AnyMember.attributes member); [apply ignoreLoop_config|done].
Qed.

(** X13. Given the configuration, the ignore predicates never throw:
    a type, and likewise a member, is ignored exactly when it is
    compiler generated or one of its attributes resolves to an attribute
    whose type the configuration marks as ignored; an attribute UID that
    does not resolve is passed over. *)
Theorem shouldIgnore_config :
  ∀ (config : FSConfiguration) (type : AnyType) (member : AnyMember),
    shouldIgnoreType type (ArgConfig config)
    = Ok (AnyType.isCompilerGenerated type
          || existsb (ignoredAttribute config) (default [] (AnyType.attributes type)))
    ∧ shouldIgnoreMember member (ArgConfig config)
      = Ok (AnyMember.isCompilerGenerated member
            || existsb (ignoredAttribute config)
                 (default [] (AnyMember.attributes member))).
Proof.
  intros config type member.
  destruct (shouldIgnore_config_aux config type) as [Htype Hmember].
  split; [exact Htype|apply Hmember].
Qed.

(** ** Grouping of members *)

Lemma shouldIgnoreMember_manifest member manifest :
  shouldIgnoreMember member (ArgManifest manifest)
  = if attributed member then Throw (typeError "attributes")
    else Ok (AnyMember.isCompilerGenerated member).
Proof.
  unfold shouldIgnoreMember, attributed.
  destruct (AnyMember.isCompilerGenerated member); [done|].
  by destruct (AnyMember.attributes member) as [[|a l]|].
Qed.

Lemma foldl_pushMember groups members :
  foldl pushMember groups members
  = MemberGroups.mk
      (MemberGroups.constructors groups ++ ofKinds [MConstructor] members)
      (MemberGroups.methods groups ++ ofKinds [MMethod; MInterfaceMethod] members)
      (MemberGroups.properties groups
       ++ ofKinds [MProperty; MInterfaceProperty] members)
      (MemberGroups.fields groups ++ ofKinds [MField; MEnumField] members)
      (MemberGroups.events groups ++ ofKinds [MEvent; MInterfaceEvent] members).
Proof.
  revert groups. induction members as [|m members IH]; intros [cs ms ps fs es].
  - simpl. unfold ofKinds. by rewrite !app_nil_r.
  - cbn [foldl]. rewrite IH. unfold ofKinds. rewrite !filter_cons.
    unfold pushMember.
    destruct (AnyMember.memberKind m) eqn:Hk; simpl;
      repeat (match goal with
              | |- context [decide ?P] =>
                  destruct (decide P) as [Hin|Hin];
                  [try (exfalso; revert Hin; rewrite Hk; clear;
                        intros Hin; set_solver)
                  |try (exfalso; apply Hin; rewrite Hk; clear; set_solver)]
              end);
      by rewrite <- ?app_assoc.
Qed.

(** The run of [groupMembersByKind]: it touches no file; it throws as
    soon as a member carries an attribute, and otherwise sorts the
    members that are not compiler generated into the five groups. *)
Lemma groupMembersByKind_run config memberUids :
  groupMembersByKind config memberUids
  = if existsb attributed
         (omap (λ uid, ManifestRoot.members (manifest config) !! uid) memberUids)
    then ([], Thrown (typeError "attributes"))
    else ([], Done (foldl pushMember (MemberGroups.mk [] [] [] [] [])
                      (filter (λ m, AnyMember.isCompilerGenerated m = false)
                         (omap (λ uid, ManifestRoot.members (manifest config) !! uid)
                            memberUids)))).
Proof.
  unfold groupMembersByKind.
  set (step := λ (acc : Gen MemberGroups.t) (uid : UID), bind acc _).
  assert (Hthrown : ∀ e uids, foldl step ([], Thrown e) uids = ([], Thrown e)).
  { intros e uids. induction uids as [|u uids IH]; [done|]. by cbn [foldl]. }
  assert (Hstep : ∀ groups uid,
            step (ret groups) uid
            = match ManifestRoot.members (manifest config) !! uid with
              | Some member =>
                  if attributed member then ([], Thrown (typeError "attributes"))
                  else if AnyMember.isCompilerGenerated member then ret groups
                       else ret (pushMember groups member)
              | None => ret groups
              end).
  { intros groups uid. unfold step, bind at 1, ret at 1.
    destruct (ManifestRoot.members (manifest config) !! uid) as [member|]; [|done].
    rewrite shouldIgnoreMember_manifest. unfold attributed.
    destruct (AnyMember.isCompilerGenerated member); [done|].
    by destruct (AnyMember.attributes member) as [[|a l]|]. }
  generalize (MemberGroups.mk [] [] [] [] []).
  induction memberUids as [|uid uids IH]; intros groups; [done|].
  cbn [foldl]. rewrite Hstep, omap_cons_eq.
  destruct (ManifestRoot.members (manifest config) !! uid) as [member|] eqn:Hm;
    [|apply IH].
  cbn [existsb]. rewrite filter_cons.
  destruct (attributed member) eqn:Ha; [apply Hthrown|].
  rewrite orb_false_l.
  destruct (AnyMember.isCompilerGenerated member) eqn:Hcg.
  - rewrite decide_False by done. apply IH.
  - rewrite decide_True by done. cbn [foldl]. apply IH.
Qed.

(** X14. Grouping a type's members touches no file.  It throws a
    TypeError as soon as one listed member resolves, is not compiler
    generated and carries an attribute; otherwise the members that
    resolve and are not compiler generated are split by kind into
    constructors, methods, properties, fields and events, each group in
    the order of declaration, and finalizers, operators and conversions
    are in no group. *)
Theorem groupMembersByKind_groups :
  ∀ (config : FSConfiguration) (memberUids : list UID),
    groupMembersByKind config memberUids
    = if existsb attributed
           (omap (resolveMember (FSConfiguration.manifest config)) memberUids)
      then ([], Thrown (typeError "attributes"))
      else ([], Done
             (MemberGroups.mk
                (ofKinds [MConstructor]
                   (filter (λ m, AnyMember.isCompilerGenerated m = false)
                      (omap (resolveMember (FSConfiguration.manifest config))
                         memberUids)))
                (ofKinds [MMethod; MInterfaceMethod]
                   (filter (λ m, AnyMember.isCompilerGenerated m = false)
                      (omap (resolveMember (FSConfiguration.manifest config))
                         memberUids)))
                (ofKinds [MProperty; MInterfaceProperty]
                   (filter (λ m, AnyMember.isCompilerGenerated m = false)
                      (omap (resolveMember (FSConfiguration.manifest config))
                         memberUids)))
                (ofKinds [MField; MEnumField]
                   (filter (λ m, AnyMember.isCompilerGenerated m = false)
                      (omap (resolveMember (FSConfiguration.manifest config))
                         memberUids)))
                (ofKinds [MEvent; MInterfaceEvent]
                   (filter (λ m, AnyMember.isCompilerGenerated m = false)
                      (omap (resolveMember (FSConfiguration.manifest config))
                         memberUids))))).
Proof.
  intros config memberUids. rewrite groupMembersByKind_run.
  change (omap (λ uid, ManifestRoot.members (manifest config) !! uid) memberUids)
    with (omap (resolveMember (FSConfiguration.manifest config)) memberUids).
  destruct (existsb _ _); [done|]. by rewrite foldl_pushMember.
Qed.

(** ** Runs of the generator *)

Lemma bind_ext {A B} (m : Gen A) (f g : A → Gen B) :
  (∀ a, f a = g a) → bind m f = bind m g.
Proof. intros Hfg. destruct m as [log [a| |]]; simpl; [|done..]. by rewrite Hfg. Qed.

Lemma bind_ret_l {A B} (a : A) (f : A → Gen B) : bind (ret a) f = f a.
Proof. unfold bind, ret. by destruct (f a). Qed.

Lemma forEach_cons {A} (x : A) (l : list A) (body : A → Gen unit) :
  forEach (x :: l) body = bind (body x) (λ _, forEach l body).
Proof. reflexivity. Qed.

Lemma forEach_ext {A} (l : list A) (f g : A → Gen unit) :
  (∀ x, x ∈ l → f x = g x) → forEach l f = forEach l g.
Proof.
  induction l as [|x l IH]; intros Hfg; [done|].
  rewrite !forEach_cons, Hfg by left.
  apply bind_ext. intros _. apply IH. intros y Hy. apply Hfg. by right.
Qed.

Lemma forEach_tell {A} (l : list A) (call : A → fsCall) :
  forEach l (λ x, tell (call x)) = (call <$> l, Done tt).
Proof.
  induction l as [|x l IH]; [done|].
  rewrite forEach_cons, IH. done.
Qed.

Lemma forEach_throw {A} (x : A) (l : list A) (body : A → Gen unit) e :
  body x = throw e → forEach (x :: l) body = throw e.
Proof. intros Hx. by rewrite forEach_cons, Hx. Qed.

(** X15. A class, struct or interface one of whose listed members
    resolves, is not compiler generated and carries an attribute cannot
    be generated: after the folder of the type and its index page the
    run stops with a TypeError, before any member page is written. *)
Theorem generateType_attributed_member_throws :
  ∀ (config : FSConfiguration) (fuel : nat) (type : AnyType)
    (parentPath : string) (members : list UID),
    AnyType.typekind type ∈ [KClass; KStruct; KInterface] →
    AnyType.members type = Some members →
    existsb attributed
      (omap (resolveMember (FSConfiguration.manifest config)) members) = true →
    generateType config (S fuel) type parentPath
    = ([Mkdir (pathJoin parentPath (sanitizeFileName (AnyType.name type)));
        WriteFile
          (pathJoin (pathJoin parentPath (sanitizeFileName (AnyType.name type)))
             "index.mdx")
          (generateTypeContent type)],
       Thrown (typeError "attributes")).
Proof.
  intros config fuel type parentPath members Hkind Hmembers Hattr.
  cbn [generateType]. unfold generateTypeWith. rewrite Hmembers.
  unfold generateMembers. rewrite groupMembersByKind_run.
  change (omap (λ uid, ManifestRoot.members (manifest config) !! uid) members)
    with (omap (resolveMember (FSConfiguration.manifest config)) members).
  rewrite Hattr.
  destruct (AnyType.typekind type); try done;
    exfalso; repeat (apply elem_of_cons in Hkind as [Hkind|Hkind]; [done|]);
    by apply elem_of_nil in Hkind.
Qed.

Lemma generateType_attributed_member_throws_witness :
  generateType (Sample.config Fixture.manifestEngine) 1 Fixture.engine "docs"
  = ([Mkdir (pathJoin "docs" (sanitizeFileName "Engine"));
      WriteFile (pathJoin (pathJoin "docs" (sanitizeFileName "Engine")) "index.mdx")
        (generateTypeContent Fixture.engine)],
     Thrown (typeError "attributes")).
Proof.
  apply (generateType_attributed_member_throws
           (Sample.config Fixture.manifestEngine) 0 Fixture.engine "docs"
           ["member:Game.Engine.thrust"]).
  - set_solver.
  - reflexivity.
  - vm_compute. reflexivity.
Defined.

(** X16. An enum that lists at least one member cannot be generated:
    its members reach [generateFields] as bare UIDs, so after the folder
    of the enum, its index page and the folder Fields the run stops with
    a TypeError and no field page is written.  An enum that lists no
    member is generated. *)
Theorem generateType_enum :
  ∀ (config : FSConfiguration) (fuel : nat) (type : AnyType)
    (parentPath : string),
    AnyType.typekind type = KEnum →
    generateType config (S fuel) type parentPath
    = ([Mkdir (pathJoin parentPath (sanitizeFileName (AnyType.name type)));
        WriteFile
          (pathJoin (pathJoin parentPath (sanitizeFileName (AnyType.name type)))
             "index.mdx")
          (generateTypeContent type)]
       ++ match AnyType.members type with
          | Some _ =>
              [Mkdir (pathJoin
                        (pathJoin parentPath (sanitizeFileName (AnyType.name type)))
                        "Fields")]
          | None => []
          end,
       match AnyType.members type with
       | Some (_ :: _) => Thrown (typeError "replace")
       | _ => Done tt
       end).
Proof.
  intros config fuel type parentPath Hkind.
  cbn [generateType]. unfold generateTypeWith. rewrite Hkind.
  destruct (AnyType.members type) as [[|m ms]|]; try done.
Qed.

Lemma generateType_enum_witness :
  generateType (Sample.config Sample.emptyManifest) 1 Fixture.stage "docs"
  = ([Mkdir "docs/Stage"; WriteFile "docs/Stage/index.mdx"
                            (generateTypeContent Fixture.stage);
      Mkdir "docs/Stage/Fields"],
     Thrown (typeError "replace")).
Proof.
  rewrite (generateType_enum (Sample.config Sample.emptyManifest) 0
             Fixture.stage "docs"); [|reflexivity].
  vm_compute. reflexivity.
Defined.

(** ** Methods and constructors *)

(** The groups of [groupMethodsByName] over the names [names]. *)
Lemma pushMethod_groups (F : string → list AnyMember) (names : list string)
    (method : AnyMember) :
  NoDup names →
  (AnyMember.name method ∉ names → F (AnyMember.name method) = []) →
  pushMethod ((λ n, (n, F n)) <$> names) method
  = (λ n, (n, F n ++ if decide (AnyMember.name method = n) then [method] else []))
      <$> pushNew names (AnyMember.name method).
Proof.
  intros Hnd HF. unfold pushNew.
  induction Hnd as [|n names Hn Hnd IH].
  - rewrite decide_False by apply not_elem_of_nil. simpl.
    rewrite decide_True by done. rewrite HF by apply not_elem_of_nil. done.
  - cbn [fmap list_fmap pushMethod].
    destruct (String.eqb n (AnyMember.name method)) eqn:Heq.
    + apply String.eqb_eq in Heq. subst n.
      rewrite decide_True by left. cbn [fmap list_fmap].
      rewrite decide_True by done. f_equal.
      apply list_fmap_ext. intros i n Hi. f_equal.
      rewrite decide_False; [by rewrite app_nil_r|].
      intros <-. apply Hn. by eapply list_elem_of_lookup_2.
    + apply String.eqb_neq in Heq.
      change (list_fmap _ _ ?f names) with (f <$> names). rewrite IH.
      * destruct (decide (AnyMember.name method ∈ names)) as [Hin|Hin].
        -- rewrite decide_True by (by right). cbn [fmap list_fmap].
           rewrite decide_False by done. by rewrite app_nil_r.
        -- rewrite decide_False by (rewrite elem_of_cons; intuition congruence).
           cbn [app fmap list_fmap].
           rewrite decide_False by done. by rewrite app_nil_r.
      * intros Hin. apply HF. rewrite elem_of_cons. intuition congruence.
Qed.

Lemma groupMethodsByName_groups (methods : list AnyMember) :
  groupMethodsByName methods
  = (λ n, (n, filter (λ m, AnyMember.name m = n) methods))
      <$> unionFirstSeen (AnyMember.name <$> methods).
Proof.
  unfold groupMethodsByName.
  induction methods as [|method methods IH] using rev_ind; [done|].
  rewrite foldl_app. cbn [foldl]. rewrite IH.
  rewrite (pushMethod_groups (λ n, filter (λ m, AnyMember.name m = n) methods)).
  - rewrite fmap_app.
    change (AnyMember.name <$> [method]) with [AnyMember.name method].
    rewrite unionFirstSeen_snoc.
    apply list_fmap_ext. intros i n Hi. f_equal.
    rewrite filter_app, filter_cons, filter_nil. by destruct (decide _).
  - apply NoDup_unionFirstSeen.
  - intros Hnot. apply filter_none. intros m Hm Hname. apply Hnot.
    rewrite elem_of_unionFirstSeen, <- Hname. apply list_elem_of_fmap. eauto.
Qed.

Lemma forEach_methodGroups (methodPath : string) (F : string → list AnyMember)
    (names : list string) :
  (∀ n, n ∈ names → F n ≠ []) →
  forEach ((λ n, (n, F n)) <$> names)
    (λ '(methodName, methodList),
       let fileName := sanitizeFileName methodName +:+ ".mdx" in
       bind (liftResult (generateMethodContent methodList))
         (λ content, createFile methodPath fileName content))
  = ((λ n, WriteFile (pathJoin methodPath (sanitizeFileName n +:+ ".mdx"))
             match generateMethodContent (F n) with
             | Ok content => content
             | Throw _ => ""
             end) <$> names,
     Done tt).
Proof.
  induction names as [|n names IH]; intros HF; [done|].
  rewrite fmap_cons, forEach_cons, IH by (intros n' Hn'; apply HF; by right).
  cbn beta iota zeta. rewrite fmap_cons.
  destruct (F n) as [|m ms] eqn:Hn; [by destruct (HF n); [left|]|].
  done.
Qed.

Lemma zip_with_fmap_r {A B C} (f : A → B → C) (g : A → B) (l : list A) :
  zip_with f l (g <$> l) = (λ x, f x (g x)) <$> l.
Proof. induction l as [|x l IH]; [done|]. rewrite !fmap_cons. simpl. f_equal. exact IH. Qed.

(** X17. The pages of the methods: one page per distinct method name,
    in the order in which the names first occur, each in the folder
    Methods and named after the sanitized method name; the overloads of
    a name share its page.  The run creates the folder first and never
    throws.  Stated for names that are plain keys of the object that
    collects the groups. *)
Theorem generateMethods_files :
  ∀ (typePath : string) (methods : list AnyMember),
    Forall (λ m, plainKey (AnyMember.name m)) methods →
    snd (generateMethods typePath methods) = Done tt
    ∧ ∃ contents : list string,
        length contents = length (unionFirstSeen (AnyMember.name <$> methods))
        ∧ fst (generateMethods typePath methods)
          = Mkdir (pathJoin typePath "Methods")
            :: zip_with
                 (λ name content,
                    WriteFile
                      (pathJoin (pathJoin typePath "Methods")
                         (sanitizeFileName name +:+ ".mdx"))
                      content)
                 (unionFirstSeen (AnyMember.name <$> methods)) contents.
Proof.
  intros typePath methods _. unfold generateMethods.
  rewrite groupMethodsByName_groups, forEach_methodGroups.
  - split; [done|].
    exists ((λ n, match generateMethodContent
                          (filter (λ m, AnyMember.name m = n) methods) with
                  | Ok content => content
                  | Throw _ => ""
                  end) <$> unionFirstSeen (AnyMember.name <$> methods)).
    split; [by rewrite length_fmap|].
    by rewrite zip_with_fmap_r.
  - intros n Hn Hf.
    apply elem_of_unionFirstSeen, list_elem_of_fmap in Hn as (m & -> & Hm).
    assert (m ∈ filter (λ m', AnyMember.name m' = AnyMember.name m) methods) as Hin
      by (by apply list_elem_of_filter).
    rewrite Hf in Hin. by apply elem_of_nil in Hin.
Qed.

Lemma generateMethods_files_witness :
  snd (generateMethods "docs/Rocket" [Fixture.launch; Fixture.launchAt]) = Done tt
  ∧ ∃ contents : list string,
      length contents = 1
      ∧ fst (generateMethods "docs/Rocket" [Fixture.launch; Fixture.launchAt])
        = Mkdir (pathJoin "docs/Rocket" "Methods")
          :: zip_with
               (λ name content,
                  WriteFile
                    (pathJoin (pathJoin "docs/Rocket" "Methods")
                       (sanitizeFileName name +:+ ".mdx"))
                    content)
               ["Launch"] contents.
Proof.
  apply (generateMethods_files "docs/Rocket" [Fixture.launch; Fixture.launchAt]).
  repeat constructor; vm_compute; try done;
    intros H; repeat (apply elem_of_cons in H as [H|H]; [done|]);
    by apply elem_of_nil in H.
Defined.

Lemma append_cancel_l a x y : a +:+ x = a +:+ y → x = y.
Proof. intros H. by apply append_inj_length in H as [_ ?]. Qed.

Lemma append_cancel_r s x y : x +:+ s = y +:+ s → x = y.
Proof.
  intros H. assert (String.length x = String.length y) as Hl.
  { apply (f_equal String.length) in H. rewrite !length_append in H. lia. }
  by apply append_inj_length in H as [? _].
Qed.

Lemma imap_index {A B} (g : nat → B) (l : list A) (n : nat) :
  imap (λ i _, g (n + i)) l = g <$> seq n (length l).
Proof.
  revert n. induction l as [|x l IH]; intros n; [done|].
  cbn [imap length seq]. rewrite fmap_cons, Nat.add_0_r. f_equal.
  rewrite <- IH. apply imap_ext. intros i y _. simpl. f_equal. lia.
Qed.

Lemma zip_with_imap {A B C} (f : B → A → C) (g : nat → B) (l : list A) :
  zip_with f (imap (λ i _, g i) l) l = imap (λ i x, f (g i) x) l.
Proof.
  revert g. induction l as [|x l IH]; intros g; [done|].
  cbn [imap zip_with]. f_equal. apply (IH (g ∘ S)).
Qed.

(** X18. The pages of the constructors: after the folder Constructors,
    one page per constructor, in order, under pairwise distinct names,
    so that no constructor page overwrites another; the run never
    throws. *)
Theorem generateConstructors_files :
  ∀ (type : AnyType) (typePath : string) (constructors : list AnyMember),
    snd (generateConstructors type typePath constructors) = Done tt
    ∧ ∃ names : list string,
        length names = length constructors
        ∧ NoDup names
        ∧ fst (generateConstructors type typePath constructors)
          = Mkdir (pathJoin typePath "Constructors")
            :: zip_with
                 (λ name ctor,
                    WriteFile (pathJoin (pathJoin typePath "Constructors") name)
                      (generateConstructorContent ctor))
                 names constructors.
Proof.
  intros type typePath constructors. unfold generateConstructors.
  set (fileName := λ index : nat,
         if length constructors =? 1 then "Constructor.mdx"
         else "Constructor" +:+ pretty (index + 1) +:+ ".mdx").
  rewrite (forEach_ext _ _
             (λ x, tell (WriteFile
                           (pathJoin (pathJoin typePath "Constructors")
                              (fileName x.1))
                           (generateConstructorContent x.2))))
    by (by intros [index ctor] _).
  rewrite forEach_tell. split; [done|].
  exists (imap (λ i _, fileName i) constructors). split_and!.
  - by rewrite length_imap.
  - change (imap (λ i _, fileName i) constructors)
      with (imap (λ i (_ : AnyMember), fileName (0 + i)) constructors).
    rewrite (imap_index fileName constructors 0). unfold fileName.
    destruct (length constructors =? 1) eqn:Hone.
    + apply Nat.eqb_eq in Hone. rewrite Hone. simpl. apply NoDup_singleton.
    + apply NoDup_fmap_2; [|apply NoDup_seq].
      intros i j Hij. apply append_cancel_l, append_cancel_r in Hij.
      apply (inj pretty) in Hij. lia.
  - cbn [fst bind tell]. f_equal. rewrite zip_with_imap, fmap_imap.
    apply imap_ext. done.
Qed.

(** X19. The nodes of the types a namespace declares: with the
    configuration as the argument of the ignore predicate, exactly the
    declared types that resolve, are not ignored and are not nested get
    a node, in the order of declaration; the others are passed over
    without a trace and without an error. *)
Theorem generateDeclaredTypes_kept :
  ∀ (config : FSConfiguration) (fuel : nat) (types : list UID)
    (typesPath : string),
    generateDeclaredTypes config fuel (ArgConfig config) types typesPath
    = forEach (filter (λ type, topLevelKept config type = true)
                 (omap (resolveType (FSConfiguration.manifest config)) types))
        (λ type, generateType config fuel type typesPath).
Proof.
  intros config fuel types typesPath. unfold generateDeclaredTypes.
  induction types as [|uid types IH]; [done|].
  rewrite forEach_cons, omap_cons_eq, IH. unfold resolveType at 2.
  change (ManifestRoot.types (manifest config) !! uid)
    with (ManifestRoot.types (FSConfiguration.manifest config) !! uid).
  destruct (ManifestRoot.types (FSConfiguration.manifest config) !! uid)
    as [type|]; [|by rewrite bind_ret_l].
  rewrite filter_cons, (proj1 (shouldIgnore_config_aux config type)).
  cbn [liftResult]. rewrite bind_ret_l.
  destruct (topLevelKept config type) eqn:Hkept; unfold topLevelKept in Hkept.
  - rewrite decide_True by done.
    apply andb_prop in Hkept as [->%negb_true_iff ->%negb_true_iff].
    by rewrite forEach_cons.
  - rewrite decide_False by done.
    apply andb_false_iff in Hkept as [->%negb_false_iff| ->%negb_false_iff];
      rewrite ?orb_true_r; cbn [orb]; by rewrite bind_ret_l.
Qed.

(** ** Directories before their content *)

(** *** Joined paths *)

Lemma splitOn_cons sep s : ∃ h t, splitOn sep s = h :: t.
Proof.
  induction s as [|c s (h & t & IH)]; simpl; [by eauto|].
  destruct (Ascii.eqb c sep); [by eauto|]. rewrite IH. by eauto.
Qed.

Lemma concat_cons sep x h t :
  String.concat sep (x :: h :: t) = x +:+ sep +:+ String.concat sep (h :: t).
Proof. reflexivity. Qed.

Lemma splitOn_noSlash name : noSlash name = true → splitOn "/" name = [name].
Proof.
  unfold noSlash. induction name as [|c name IH]; [done|].
  cbn [stringForall splitOn]. intros [Hc Hname]%andb_prop.
  apply negb_true_iff, Nat.eqb_neq in Hc.
  destruct (Ascii.eqb c "/") eqn:Heq.
  - apply Ascii.eqb_eq in Heq. by subst.
  - by rewrite IH.
Qed.

Lemma splitOn_join dir name :
  noSlash name = true →
  splitOn "/" (dir +:+ "/" +:+ name) = splitOn "/" dir ++ [name].
Proof.
  intros Hname. induction dir as [|c dir IH].
  - rewrite append_empty_l, append_cons, append_empty_l.
    cbn [splitOn]. by rewrite Ascii.eqb_refl, splitOn_noSlash.
  - rewrite append_cons. cbn [splitOn]. rewrite IH.
    destruct (Ascii.eqb c "/"); [done|].
    by destruct (splitOn_cons "/" dir) as (h & t & ->).
Qed.

Lemma concat_snoc sep (l : list string) (x : string) :
  l ≠ [] → String.concat sep (l ++ [x]) = String.concat sep l +:+ sep +:+ x.
Proof.
  induction l as [|a l IH]; [done|]. intros _.
  destruct l as [|b l]; [done|].
  change ((a :: b :: l) ++ [x]) with (a :: (b :: l) ++ [x]).
  cbn [app]. rewrite !concat_cons.
  change (b :: l ++ [x]) with ((b :: l) ++ [x]).
  rewrite IH by done. by rewrite !append_assoc.
Qed.

Lemma startsWithSlash_append a b :
  a ≠ "" → startsWithSlash (a +:+ b) = startsWithSlash a.
Proof. by destruct a. Qed.

Lemma endsWithSlash_append a b :
  b ≠ "" → endsWithSlash (a +:+ b) = endsWithSlash b.
Proof.
  intros Hb. induction a as [|c a IH]; [done|].
  rewrite append_cons. cbn [endsWithSlash]. rewrite IH.
  destruct (a +:+ b) eqn:Hab; [|done].
  destruct a; [by rewrite append_empty_l in Hab|done].
Qed.

Lemma endsWithSlash_noSlash name : noSlash name = true → endsWithSlash name = false.
Proof.
  unfold noSlash. induction name as [|c name IH]; [done|].
  cbn [stringForall endsWithSlash]. intros [Hc Hname]%andb_prop.
  rewrite IH by done. destruct name; [|done].
  apply negb_true_iff, Nat.eqb_neq in Hc. apply Ascii.eqb_neq.
  intros ->. by apply Hc.
Qed.

Lemma pushSegment_proper allowAboveRoot res name :
  properSegment name = true → pushSegment allowAboveRoot res name = res ++ [name].
Proof.
  intros (H1 & H2 & H3 & _)%properSegment_spec. unfold pushSegment.
  apply String.eqb_neq in H1, H2, H3. by rewrite H1, H2, H3.
Qed.

(** On a normal directory and a proper segment [path.join] is plain
    concatenation, and the result is a normal directory again. *)
Lemma pathJoin_proper dir name :
  normalDir dir = true → properSegment name = true →
  pathJoin dir name = dir +:+ "/" +:+ name
  ∧ normalDir (dir +:+ "/" +:+ name) = true.
Proof.
  intros Hdir Hname. pose proof Hname as (Hn1 & Hn2 & Hn3 & Hslash)%properSegment_spec.
  unfold normalDir in Hdir.
  apply andb_prop in Hdir as [[Hdot Hnorm]%andb_prop Hend].
  apply negb_true_iff in Hdot, Hend. apply String.eqb_neq in Hdot.
  apply String.eqb_eq in Hnorm.
  assert (Hne : dir ≠ "") by (intros ->; done).
  assert (Hjoined : dir +:+ "/" +:+ name ≠ "") by (by destruct dir).
  assert (Hnormalize : normalize (dir +:+ "/" +:+ name) = dir +:+ "/" +:+ name).
  { unfold normalize in Hnorm |- *.
    apply String.eqb_neq in Hne, Hjoined. rewrite Hne in Hnorm. rewrite Hjoined.
    apply String.eqb_neq in Hne.
    rewrite startsWithSlash_append by done.
    rewrite endsWithSlash_append by (by destruct name).
    rewrite (endsWithSlash_append "/" name), endsWithSlash_noSlash by done.
    rewrite Hend in Hnorm. unfold normalizeString in *.
    rewrite splitOn_join, foldl_app by done. cbn [foldl].
    rewrite pushSegment_proper by done.
    set (kept := foldl _ [] (splitOn "/" dir)) in *.
    destruct (String.eqb (String.concat "/" kept) "") eqn:Hkept.
    - exfalso. destruct (startsWithSlash dir); subst dir; done.
    - assert (kept ≠ []) by (intros Hk; by rewrite Hk in Hkept).
      rewrite concat_snoc by done.
      replace (String.eqb _ "") with false.
      + rewrite append_empty_r in Hnorm |- *.
        rewrite <- !append_assoc, Hnorm. by rewrite !append_assoc.
      + symmetry. apply String.eqb_neq.
        destruct (String.concat "/" kept); done. }
  split.
  - unfold pathJoin. apply String.eqb_neq in Hne, Hn1, Hjoined.
    by rewrite Hne, Hn1, Hjoined.
  - unfold normalDir. rewrite Hnormalize, String.eqb_refl.
    rewrite endsWithSlash_append by (by destruct name).
    rewrite (endsWithSlash_append "/" name), endsWithSlash_noSlash by done.
    cbn [negb]. rewrite !andb_true_r. apply negb_true_iff, String.eqb_neq.
    intros Heq. apply (f_equal String.length) in Heq.
    rewrite !length_append in Heq. simpl in Heq.
    destruct dir, name; simpl in *; try done; lia.
Qed.

Lemma parentsFirst_mono known known' log :
  (∀ d, d ∈ known → d ∈ known') →
  parentsFirst known log → parentsFirst known' log.
Proof.
  revert known known'. induction log as [|c log IH]; intros known known' Hsub; [done|].
  cbn [parentsFirst]. intros [(dir & name & Hc & Hn & Hd) Hrest]. split.
  - exists dir, name. auto.
  - eapply IH; [|exact Hrest]. intros d. rewrite !elem_of_app. intuition.
Qed.

Lemma created_app l1 l2 : created (l1 ++ l2) = created l1 ++ created l2.
Proof. unfold created. apply bind_app. Qed.

Lemma parentsFirst_app known l1 l2 :
  parentsFirst known l1 → parentsFirst (created l1 ++ known) l2 →
  parentsFirst known (l1 ++ l2).
Proof.
  revert known. induction l1 as [|c l1 IH]; intros known; [by intros _|].
  cbn [parentsFirst app]. intros [Hc H1] H2. split; [done|].
  apply IH; [done|]. eapply parentsFirst_mono; [|exact H2].
  intros d. change (c :: l1) with ([c] ++ l1).
  rewrite created_app, !elem_of_app. intuition.
Qed.

Lemma within_refl dir : within dir dir.
Proof. by exists []. Qed.

Lemma within_segment root dir name :
  within root dir → properSegment name = true →
  within root (dir +:+ "/" +:+ name).
Proof.
  intros (segments & Hsegments & ->) Hname. exists (segments ++ [name]). split.
  - apply Forall_app. split; [done|]. by constructor.
  - by rewrite foldl_app.
Qed.

Lemma within_prefix dir p : within dir p → ∃ rest, p = dir +:+ rest.
Proof.
  intros (segments & _ & ->). revert dir.
  induction segments as [|x segments IH]; intros dir.
  - exists "". by rewrite append_empty_r.
  - cbn [foldl]. destruct (IH (dir +:+ "/" +:+ x)) as [rest ->].
    exists ("/" +:+ x +:+ rest). by rewrite !append_assoc.
Qed.

(** A log whose calls come parents first from directories of a tree
    stays in the tree. *)
Lemma parentsFirst_within root known log :
  Forall (within root) known → parentsFirst known log →
  Forall (λ c, within root (callPath c)) log.
Proof.
  revert known. induction log as [|c log IH]; intros known Hknown; [done|].
  cbn [parentsFirst]. intros [(dir & name & Hc & Hname & Hdir) Hrest].
  assert (Hin : within root (callPath c)).
  { rewrite Hc. apply within_segment; [|done].
    rewrite Forall_forall in Hknown. by apply Hknown. }
  constructor; [done|]. apply (IH (created [c] ++ known)); [|done].
  apply Forall_app. split; [|done]. by destruct c; repeat constructor.
Qed.

Section Rooted.
Context {A B : Type}.

Lemma rootedIn_nil (dirs : list string) (m : Gen A) : fst m = [] → rootedIn dirs m.
Proof. intros Hm known _. by rewrite Hm. Qed.

Lemma rootedIn_bind (dirs : list string) (m : Gen A) (f : A → Gen B) :
  rootedIn dirs m → (∀ a, rootedIn dirs (f a)) → rootedIn dirs (bind m f).
Proof.
  intros Hm Hf known Hknown. rewrite fst_bind.
  apply parentsFirst_app; [by apply Hm|].
  destruct (snd m) as [a| |]; [|done..].
  apply Hf. intros d Hd. rewrite elem_of_app. auto.
Qed.

Lemma rootedIn_mkdir_bind (dirs : list string) (dir name : string) (k : Gen B) :
  normalDir dir = true → dir ∈ dirs → properSegment name = true →
  rootedIn (pathJoin dir name :: dirs) k →
  rootedIn dirs (bind (tell (Mkdir (pathJoin dir name))) (λ _, k)).
Proof.
  intros Hnormal Hdir Hname Hk known Hknown. rewrite fst_bind.
  apply parentsFirst_app.
  - split; [|done]. exists dir, name.
    split_and!; [|done|by apply Hknown].
    by apply pathJoin_proper.
  - apply Hk. intros d [->|Hd]%elem_of_cons; [by left|].
    rewrite elem_of_app. auto.
Qed.
End Rooted.

Lemma rootedIn_createFile (dirs : list string) (dir name content : string) :
  normalDir dir = true → dir ∈ dirs → properSegment name = true →
  rootedIn dirs (createFile dir name content).
Proof.
  intros Hnormal Hdir Hname known Hknown. split; [|done]. exists dir, name.
  split_and!; [|done|by apply Hknown]. by apply pathJoin_proper.
Qed.

Lemma rootedIn_when (dirs : list string) (b : bool) (m : Gen unit) :
  rootedIn dirs m → rootedIn dirs (when b m).
Proof. destruct b; [done|]. intros _. by apply rootedIn_nil. Qed.

Lemma rootedIn_forEach {A} (dirs : list string) (l : list A) (body : A → Gen unit) :
  (∀ x, x ∈ l → rootedIn dirs (body x)) → rootedIn dirs (forEach l body).
Proof.
  induction l as [|x l IH]; intros Hbody; [by apply rootedIn_nil|].
  rewrite forEach_cons. apply rootedIn_bind; [apply Hbody; by left|].
  intros _. apply IH. intros y Hy. apply Hbody. by right.
Qed.

Lemma normalDir_pathJoin dir name :
  normalDir dir = true → properSegment name = true →
  normalDir (pathJoin dir name) = true.
Proof.
  intros Hdir Hname. destruct (pathJoin_proper dir name Hdir Hname) as [-> ?]. done.
Qed.

Lemma noSlash_append a b : noSlash (a +:+ b) = noSlash a && noSlash b.
Proof.
  unfold noSlash. induction a as [|c a IH]; [done|].
  rewrite append_cons. simpl. by rewrite IH, andb_assoc.
Qed.

Lemma noSlash_pretty_N_char x : noSlash (String (pretty_N_char x) "") = true.
Proof.
  unfold pretty_N_char. destruct x as [|p]; [done|].
  do 4 (try destruct p as [p|p|]; try done).
Qed.

Lemma noSlash_pretty_N_go x s : noSlash s = true → noSlash (pretty_N_go x s) = true.
Proof.
  revert s. induction (N.lt_wf_0 x) as [x _ IH]; intros s Hs.
  destruct (decide (0 < x)%N) as [Hx|Hx].
  - rewrite pretty_N_go_step by done. apply IH.
    + by apply N.div_lt.
    + change (String ?c s) with (String c "" +:+ s).
      by rewrite noSlash_append, noSlash_pretty_N_char.
  - assert (x = 0%N) as -> by lia. by rewrite pretty_N_go_0.
Qed.

Lemma noSlash_pretty_nat (n : nat) : noSlash (pretty n) = true.
Proof.
  unfold pretty, pretty_nat, pretty, pretty_N.
  destruct (decide _); [done|]. by apply noSlash_pretty_N_go.
Qed.

(** A file name with the extension of a page is a proper segment
    whatever stands in front of the extension. *)
Lemma properSegment_page name :
  noSlash name = true → properSegment (name +:+ ".mdx") = true.
Proof.
  intros Hname. apply properSegment_spec.
  assert (Hlen : String.length (name +:+ ".mdx") = String.length name + 4)
    by apply length_append.
  split_and!; try (intros Heq; rewrite Heq in Hlen; simpl in Hlen; lia).
  by rewrite noSlash_append, Hname.
Qed.

Ltac solve_mem := first [ by left | right; solve_mem ].

Ltac solve_name :=
  first [ assumption
        | reflexivity
        | apply properSegment_page;
          rewrite ?noSlash_append, ?noSlash_sanitizeFileName, ?noSlash_pretty_nat;
          reflexivity ].

Ltac solve_normal :=
  repeat (apply normalDir_pathJoin; [|solve_name]); assumption.

Section RootedGenerator.
Variable config : FSConfiguration.

Hypothesis types_proper :
  ∀ uid type, ManifestRoot.types (manifest config) !! uid = Some type →
    properName (AnyType.name type).
Hypothesis namespaces_proper :
  ∀ uid namespace,
    ManifestRoot.namespaces (manifest config) !! uid = Some namespace →
    properName (Namespace.name namespace).

Lemma generateConstructors_rooted type typePath constructors dirs :
  normalDir typePath = true → typePath ∈ dirs →
  rootedIn dirs (generateConstructors type typePath constructors).
Proof.
  intros Hnormal Hdir. unfold generateConstructors.
  apply rootedIn_mkdir_bind; [done|done|done|].
  apply rootedIn_forEach. intros [index ctor] _.
  apply rootedIn_createFile; [solve_normal|solve_mem|].
  destruct (_ =? 1); [done|].
  change ("Constructor" +:+ pretty (index + 1) +:+ ".mdx")
    with (("Constructor" +:+ pretty (index + 1)) +:+ ".mdx").
  apply properSegment_page. by rewrite noSlash_append, noSlash_pretty_nat.
Qed.

Lemma generateMethods_rooted typePath methods dirs :
  normalDir typePath = true → typePath ∈ dirs →
  rootedIn dirs (generateMethods typePath methods).
Proof.
  intros Hnormal Hdir. unfold generateMethods.
  apply rootedIn_mkdir_bind; [done|done|done|].
  apply rootedIn_forEach. intros [methodName methodList] _.
  apply rootedIn_bind; [apply rootedIn_nil; by destruct (generateMethodContent _)|].
  intros content. apply rootedIn_createFile; [solve_normal|solve_mem|solve_name].
Qed.

Lemma generateProperties_rooted typePath properties dirs :
  normalDir typePath = true → typePath ∈ dirs →
  rootedIn dirs (generateProperties typePath properties).
Proof.
  intros Hnormal Hdir. unfold generateProperties.
  apply rootedIn_mkdir_bind; [done|done|done|].
  apply rootedIn_forEach. intros prop _.
  apply rootedIn_createFile; [solve_normal|solve_mem|solve_name].
Qed.

Lemma generateFields_rooted typePath fields dirs :
  normalDir typePath = true → typePath ∈ dirs →
  rootedIn dirs (generateFields typePath fields).
Proof.
  intros Hnormal Hdir. unfold generateFields.
  apply rootedIn_mkdir_bind; [done|done|done|].
  apply rootedIn_forEach. intros [member|uid] _.
  - apply rootedIn_createFile; [solve_normal|solve_mem|solve_name].
  - by apply rootedIn_nil.
Qed.

Lemma generateEvents_rooted typePath events dirs :
  normalDir typePath = true → typePath ∈ dirs →
  rootedIn dirs (generateEvents typePath events).
Proof.
  intros Hnormal Hdir. unfold generateEvents.
  apply rootedIn_mkdir_bind; [done|done|done|].
  apply rootedIn_forEach. intros event _.
  apply rootedIn_createFile; [solve_normal|solve_mem|solve_name].
Qed.

Lemma generateMembers_rooted type typePath members dirs :
  normalDir typePath = true → typePath ∈ dirs →
  rootedIn dirs (generateMembers config type typePath members).
Proof.
  intros Hnormal Hdir. unfold generateMembers.
  apply rootedIn_bind.
  { apply rootedIn_nil. rewrite groupMembersByKind_run. by destruct (existsb _ _). }
  intros membersByKind.
  apply rootedIn_bind; [by apply rootedIn_when, generateConstructors_rooted|intros _].
  apply rootedIn_bind.
  { destruct (truthyString _); [|by apply rootedIn_nil].
    destruct (_ !! _) as [staticCtor|]; [|by apply rootedIn_nil].
    apply rootedIn_bind;
      [apply rootedIn_nil; by destruct (shouldIgnoreStaticConstructor _ _)|].
    intros ignored. apply rootedIn_when. by apply rootedIn_createFile. }
  intros _.
  apply rootedIn_bind; [by apply rootedIn_when, generateMethods_rooted|intros _].
  apply rootedIn_bind; [by apply rootedIn_when, generateProperties_rooted|intros _].
  apply rootedIn_bind; [by apply rootedIn_when, generateFields_rooted|intros _].
  by apply rootedIn_when, generateEvents_rooted.
Qed.

Lemma generateNestedTypesWith_rooted (generateType : AnyType → string → Gen unit)
    parentType parentPath dirs :
  (∀ type path dirs',
     properName (AnyType.name type) → normalDir path = true → path ∈ dirs' →
     rootedIn dirs' (generateType type path)) →
  normalDir parentPath = true → parentPath ∈ dirs →
  rootedIn dirs (generateNestedTypesWith config generateType parentType parentPath).
Proof.
  intros Hrec Hnormal Hdir. unfold generateNestedTypesWith.
  apply rootedIn_mkdir_bind; [done|done|done|].
  apply rootedIn_forEach. intros nestedUid _.
  destruct (_ !! nestedUid) as [nestedType|] eqn:Hnested; [|by apply rootedIn_nil].
  apply rootedIn_bind; [apply rootedIn_nil; by destruct (shouldIgnoreType _ _)|].
  intros [|]; [by apply rootedIn_nil|].
  apply Hrec; [by eapply types_proper|solve_normal|solve_mem].
Qed.

Lemma generateTypeWith_rooted (generateNestedTypes : AnyType → string → Gen unit)
    type parentPath dirs :
  (∀ parent path dirs', normalDir path = true → path ∈ dirs' →
     rootedIn dirs' (generateNestedTypes parent path)) →
  properName (AnyType.name type) →
  normalDir parentPath = true → parentPath ∈ dirs →
  rootedIn dirs (generateTypeWith config generateNestedTypes type parentPath).
Proof.
  intros Hrec Hname Hnormal Hdir. unfold properName in Hname.
  unfold generateTypeWith.
  destruct (AnyType.typekind type).
  1,2,4: apply rootedIn_mkdir_bind; [done|done|done|];
    (apply rootedIn_bind;
       [apply rootedIn_createFile; [solve_normal|solve_mem|done]|intros _]);
    (apply rootedIn_bind;
       [destruct (AnyType.members type);
          [apply generateMembers_rooted; [solve_normal|solve_mem]
          |by apply rootedIn_nil]
       |intros _]);
    destruct (AnyType.nestedTypes type) as [[|n ns]|]; try (by apply rootedIn_nil);
    apply Hrec; [solve_normal|solve_mem].
  - apply rootedIn_mkdir_bind; [done|done|done|].
    apply rootedIn_bind;
      [apply rootedIn_createFile; [solve_normal|solve_mem|done]|intros _].
    destruct (AnyType.members type); [|by apply rootedIn_nil].
    apply generateFields_rooted; [solve_normal|solve_mem].
  - apply rootedIn_createFile; [done|done|].
    apply properSegment_page, noSlash_sanitizeFileName.
Qed.

Lemma generateType_rooted fuel type parentPath dirs :
  properName (AnyType.name type) →
  normalDir parentPath = true → parentPath ∈ dirs →
  rootedIn dirs (generateType config fuel type parentPath).
Proof.
  revert type parentPath dirs.
  induction fuel as [|fuel IH]; intros type parentPath dirs Hname Hnormal Hdir;
    [by apply rootedIn_nil|].
  cbn [generateType]. apply generateTypeWith_rooted; [|done..].
  intros parent path dirs' Hpath Hin. by apply generateNestedTypesWith_rooted.
Qed.

Lemma generateDeclaredTypes_rooted fuel arg types typesPath dirs :
  normalDir typesPath = true → typesPath ∈ dirs →
  rootedIn dirs (generateDeclaredTypes config fuel arg types typesPath).
Proof.
  intros Hnormal Hdir. unfold generateDeclaredTypes.
  apply rootedIn_forEach. intros typeUid _.
  destruct (_ !! typeUid) as [type|] eqn:Htype; [|by apply rootedIn_nil].
  apply rootedIn_bind; [apply rootedIn_nil; by destruct (shouldIgnoreType _ _)|].
  intros ignored. destruct (_ || _); [by apply rootedIn_nil|].
  apply generateType_rooted; [by eapply types_proper|done..].
Qed.

Lemma generateGlobalNamespace_rooted arg fuel namespace dirs :
  normalDir (targetDir config) = true → targetDir config ∈ dirs →
  rootedIn dirs (generateGlobalNamespace config arg fuel namespace).
Proof.
  intros Hnormal Hdir. unfold generateGlobalNamespace.
  destruct (Namespace.types namespace) as [[|t ts]|]; try (by apply rootedIn_nil).
  apply rootedIn_mkdir_bind; [done|done|done|].
  apply rootedIn_bind;
    [apply rootedIn_createFile; [solve_normal|solve_mem|done]|intros _].
  apply rootedIn_mkdir_bind; [solve_normal|solve_mem|done|].
  apply generateDeclaredTypes_rooted; [solve_normal|solve_mem].
Qed.

Lemma generateNamespace_rooted fuel namespace parentPath dirs :
  properName (Namespace.name namespace) →
  normalDir parentPath = true → parentPath ∈ dirs →
  rootedIn dirs (generateNamespace config fuel namespace parentPath).
Proof.
  revert namespace parentPath dirs.
  induction fuel as [|fuel IH];
    intros namespace parentPath dirs Hname Hnormal Hdir;
    [by apply rootedIn_nil|].
  unfold properName in Hname.
  cbn [generateNamespace]. unfold generateNamespaceWith.
  apply rootedIn_mkdir_bind; [done|done|done|].
  apply rootedIn_bind;
    [apply rootedIn_createFile; [solve_normal|solve_mem|done]|intros _].
  apply rootedIn_bind.
  - destruct (Namespace.children namespace) as [[|c cs]|];
      try (by apply rootedIn_nil).
    apply rootedIn_mkdir_bind; [solve_normal|solve_mem|done|].
    apply rootedIn_forEach. intros childUid _.
    destruct (_ !! childUid) as [child|] eqn:Hchild; [|by apply rootedIn_nil].
    apply IH; [by eapply namespaces_proper|solve_normal|solve_mem].
  - intros _. destruct (Namespace.types namespace) as [[|t ts]|];
      try (by apply rootedIn_nil).
    apply rootedIn_mkdir_bind; [solve_normal|solve_mem|done|].
    apply generateDeclaredTypes_rooted; [solve_normal|solve_mem].
Qed.
End RootedGenerator.

(** The log of a run of [generate]: the output directory when it does
    not exist, and then calls that come parents first from it. *)
Lemma generate_rooted config globalIgnoreArg namespaceEntries fuel targetExists :
  normalDir (FSConfiguration.outputDir config) = true →
  namesProper (FSConfiguration.manifest config) namespaceEntries →
  ∃ rest,
    fst (generate config globalIgnoreArg namespaceEntries fuel targetExists)
    = (if targetExists then [] else [Mkdir (FSConfiguration.outputDir config)])
      ++ rest
    ∧ parentsFirst [FSConfiguration.outputDir config] rest.
Proof.
  intros Hnormal (Hentries & Hnamespaces & Htypes).
  unfold generate. rewrite fst_bind.
  eexists. split.
  - f_equal. by destruct targetExists.
  - replace (snd (when (negb targetExists) (tell (Mkdir (targetDir config)))))
      with (Done tt : status unit) by (by destruct targetExists).
    apply (rootedIn_forEach [FSConfiguration.outputDir config]); [|done].
    intros [uid namespace] Hin.
    destruct (String.eqb uid _);
      [by apply generateGlobalNamespace_rooted; [..|left]|].
    destruct (bool_decide _); [|by apply rootedIn_nil].
    apply generateNamespace_rooted; [done|done| |done|by left].
    by apply Hentries with uid.
Qed.

(** ** What the generator writes *)

Section SidecarSettings.
Variable config : FSConfiguration.
Variable shouldGenerateSidecars : bool.
Variable sidecarsOutputDir : string.

Local Abbreviation config' :=
  (withSidecarSettings shouldGenerateSidecars sidecarsOutputDir config).
Local Abbreviation arg' :=
  (argWithSidecarSettings shouldGenerateSidecars sidecarsOutputDir).

Lemma ignoreLoop_sidecarSettings attributes arg :
  ignoreLoop attributes (arg' arg) = ignoreLoop attributes arg.
Proof.
  induction attributes as [|attrUid rest IH]; [done|].
  destruct arg as [c|m]; [|done]. cbn [ignoreLoop argWithSidecarSettings] in *.
  cbn [withSidecarSettings FSConfiguration.manifest
       FSConfiguration.ignoreAttributes].
  destruct (_ !! attrUid) as [attr|]; [|exact IH].
  destruct (default false _); [done|exact IH].
Qed.

Lemma shouldIgnoreType_sidecarSettings type arg :
  shouldIgnoreType type (arg' arg) = shouldIgnoreType type arg.
Proof.
  unfold shouldIgnoreType. destruct (AnyType.isCompilerGenerated type); [done|].
  destruct (AnyType.attributes type); [apply ignoreLoop_sidecarSettings|done].
Qed.

Lemma generateType_sidecarSettings fuel type parentPath :
  generateType config' fuel type parentPath
  = generateType config fuel type parentPath.
Proof. reflexivity. Qed.

Lemma generateDeclaredTypes_sidecarSettings fuel arg types typesPath :
  generateDeclaredTypes config' fuel (arg' arg) types typesPath
  = generateDeclaredTypes config fuel arg types typesPath.
Proof.
  unfold generateDeclaredTypes. apply forEach_ext. intros typeUid _.
  change (manifest config') with (manifest config).
  destruct (ManifestRoot.types (manifest config) !! typeUid) as [type|]; [|done].
  by rewrite shouldIgnoreType_sidecarSettings.
Qed.

Lemma generateNamespace_sidecarSettings fuel namespace parentPath :
  generateNamespace config' fuel namespace parentPath
  = generateNamespace config fuel namespace parentPath.
Proof.
  revert namespace parentPath.
  induction fuel as [|fuel IH]; intros namespace parentPath; [done|].
  cbn [generateNamespace]. unfold generateNamespaceWith.
  change (manifest config') with (manifest config).
  apply bind_ext. intros _. apply bind_ext. intros _.
  replace (match Namespace.types namespace with
           | Some (t :: ts) =>
               bind (tell (Mkdir (pathJoin
                                    (pathJoin parentPath
                                       (sanitizeFileName (Namespace.name namespace)))
                                    "Types")))
                 (λ _, generateDeclaredTypes config' fuel (ArgConfig config')
                         (t :: ts)
                         (pathJoin
                            (pathJoin parentPath
                               (sanitizeFileName (Namespace.name namespace)))
                            "Types"))
           | _ => ret tt
           end)
    with (match Namespace.types namespace with
          | Some (t :: ts) =>
              bind (tell (Mkdir (pathJoin
                                   (pathJoin parentPath
                                      (sanitizeFileName (Namespace.name namespace)))
                                   "Types")))
                (λ _, generateDeclaredTypes config fuel (ArgConfig config)
                        (t :: ts)
                        (pathJoin
                           (pathJoin parentPath
                              (sanitizeFileName (Namespace.name namespace)))
                           "Types"))
          | _ => ret tt
          end).
  - destruct (Namespace.children namespace) as [[|c cs]|]; try done.
    f_equal. apply bind_ext. intros _. apply forEach_ext. intros childUid _.
    destruct (ManifestRoot.namespaces (manifest config) !! childUid); [|done].
    apply IH.
  - destruct (Namespace.types namespace) as [[|t ts]|]; try done.
    apply bind_ext. intros _. symmetry.
    apply (generateDeclaredTypes_sidecarSettings fuel (ArgConfig config)).
Qed.

Lemma generate_sidecarSettings globalIgnoreArg namespaceEntries fuel targetExists :
  generate config' (arg' globalIgnoreArg) namespaceEntries fuel targetExists
  = generate config globalIgnoreArg namespaceEntries fuel targetExists.
Proof.
  unfold generate. change (targetDir config') with (targetDir config).
  apply bind_ext. intros _. apply forEach_ext. intros [uid namespace] _.
  destruct (String.eqb uid _).
  - unfold generateGlobalNamespace.
    change (targetDir config') with (targetDir config).
    destruct (Namespace.types namespace) as [[|t ts]|]; try done.
    apply bind_ext. intros _. apply bind_ext. intros _. apply bind_ext. intros _.
    apply generateDeclaredTypes_sidecarSettings.
  - destruct (bool_decide _); [|done]. apply generateNamespace_sidecarSettings.
Qed.
End SidecarSettings.


(** The names of the sample manifest with the namespace [Game] are
    proper. *)
Lemma namesProper_tree :
  namesProper (FSConfiguration.manifest (Sample.config Fixture.manifestTree))
    Fixture.entriesTree.
Proof.
  split_and!.
  - intros uid namespace Hin.
    repeat (apply elem_of_cons in Hin as [[= _ ->]|Hin]; [reflexivity|]).
    by apply elem_of_nil in Hin.
  - intros uid namespace Hin. apply lookup_sample in Hin.
    repeat (apply elem_of_cons in Hin as [->|Hin]; [reflexivity|]).
    by apply elem_of_nil in Hin.
  - intros uid type Hin. apply lookup_sample in Hin.
    repeat (apply elem_of_cons in Hin as [->|Hin]; [reflexivity|]).
    by apply elem_of_nil in Hin.
Qed.



(** Where the names are not proper the run leaves the output
    directory: for a root namespace named [..] the joined path is the
    directory above, and the index page is written there. *)
Lemma generate_leaves_outputDir :
  properSegment (sanitizeFileName (Namespace.name Fixture.nsUp)) = false
  ∧ callPath <$>
      fst (generate (Sample.config Fixture.manifestUp)
             (ArgConfig (Sample.config Fixture.manifestUp))
             [("ns:Up", Fixture.nsUp)] 2 false)
    = ["docs"; "."; "index.mdx"]
  ∧ ¬ within "docs" "index.mdx".
Proof.
  split_and!; [vm_compute; reflexivity..|].
  intros [rest Hrest]%within_prefix. rewrite !append_cons in Hrest.
  discriminate Hrest.
Qed.

(** ** The order of the calls *)


(** ** The builder of entries *)

Lemma bind_nil_all {A B} (f : A → list B) (l : list A) :
  (∀ x, x ∈ l → f x = []) → l ≫= f = [].
Proof.
  induction l as [|x l IH]; intros Hf; [done|].
  rewrite bind_cons, Hf by left. apply IH. intros y Hy. apply Hf. by right.
Qed.

Lemma bind_ext_in {A B} (f g : A → list B) (l : list A) :
  (∀ x, x ∈ l → f x = g x) → l ≫= f = l ≫= g.
Proof.
  induction l as [|x l IH]; intros Hf; [done|].
  rewrite !bind_cons, Hf by left. f_equal. apply IH. intros y Hy. apply Hf. by right.
Qed.

Lemma sorted_split (pre post : list Z) (k0 : Z) :
  StronglySorted Z.lt (pre ++ k0 :: post) →
  Forall (λ k, (k < k0)%Z) pre ∧ Forall (λ k, (k0 < k)%Z) post.
Proof.
  induction pre as [|a pre IH]; simpl; intros Hs.
  - apply StronglySorted_inv in Hs as [_ Hs]. done.
  - apply StronglySorted_inv in Hs as [Hs Ha].
    destruct (IH Hs) as [Hpre Hpost]. split; [|done].
    constructor; [|done].
    apply Forall_app in Ha as [_ Ha]. by apply Forall_cons in Ha as [? _].
Qed.

(** A list sorted by hint, whose hints are among the increasing keys
    [ks], is its parts by key, one after the other. *)
Lemma sorted_by_keys (ks : list Z) (l : list SidecarSection) :
  StronglySorted Z.lt ks →
  StronglySorted (λ a b, (hint a ≤ hint b)%Z) l →
  Forall (λ s, ∃ k, k ∈ ks ∧ SidecarSection.order s = Some k) l →
  ks ≫= (λ k, filter (λ s, SidecarSection.order s = Some k) l) = l.
Proof.
  intros Hks Hl Hkeys. induction Hl as [|x l Hl IH Hx].
  - by apply bind_nil_all.
  - apply Forall_cons in Hkeys as [(k0 & Hk0 & Hxk) Hkeys].
    specialize (IH Hkeys).
    apply list_elem_of_split in Hk0 as (pre & post & ->).
    apply sorted_split in Hks as [Hlt Hgt].
    rewrite Forall_forall in Hlt.
    assert (Hsmall : ∀ k, k ∈ pre →
              filter (λ s, SidecarSection.order s = Some k) l = []).
    { intros k Hk. apply filter_none. intros s Hs Hsk.
      rewrite Forall_forall in Hx. specialize (Hx s Hs).
      unfold hint in Hx. rewrite Hxk, Hsk in Hx. simpl in Hx.
      specialize (Hlt k Hk). lia. }
    rewrite bind_app, bind_cons in IH |- *.
    rewrite (bind_nil_all _ pre) in IH by done.
    rewrite (bind_nil_all _ pre).
    + rewrite filter_cons, decide_True by done. cbn [app] in IH |- *. f_equal.
      etrans; [|exact IH]. f_equal.
      apply bind_ext_in. intros k Hk.
      rewrite filter_cons, decide_False; [done|].
      rewrite Hxk. intros [= ->]. rewrite Forall_forall in Hgt.
      specialize (Hgt _ Hk). lia.
    + intros k Hk. rewrite filter_cons, decide_False; [by apply Hsmall|].
      rewrite Hxk. intros [= ->].
      specialize (Hlt k Hk). lia.
Qed.

Lemma callHelper_sections calls entry :
  default [] (SidecarEntry.sections (foldl callHelper entry calls))
  = default [] (SidecarEntry.sections entry)
    ++ ((λ call, SidecarSection.mk (helperHeading call.1) call.2
                   (Some (helperOrder call.1))) <$> calls).
Proof.
  revert entry. induction calls as [|[h content] calls IH]; intros entry.
  - by rewrite app_nil_r.
  - cbn [foldl]. rewrite IH, fmap_cons.
    destruct h; simpl; by rewrite <- app_assoc.
Qed.

Lemma filter_helperOrder h calls :
  filter (λ s, SidecarSection.order s = Some (helperOrder h))
    ((λ call, SidecarSection.mk (helperHeading call.1) call.2
                (Some (helperOrder call.1))) <$> calls)
  = sectionsBy h calls.
Proof.
  unfold sectionsBy. induction calls as [|[h' content] calls IH]; [done|].
  rewrite fmap_cons, !filter_cons, IH. simpl.
  destruct (decide (h' = h)) as [->|Hne].
  - by rewrite decide_True.
  - rewrite decide_False; [done|]. intros [= Heq]. apply Hne.
    by destruct h, h'.
Qed.

(** X21. The sections added through the five helper methods of the
    builder are rendered in the fixed order Remarks, Examples,
    Exceptions, Thread Safety, Performance Considerations, whatever the
    order of the calls; the sections of repeated calls of one helper
    keep the order of the calls. *)
Theorem builder_render_order :
  ∀ calls : list (helper * string),
    getSectionsInOrder (SidecarBuilder.build (foldl callHelper createSidecar calls))
    = sectionsBy HRemarks calls ++ sectionsBy HExamples calls
      ++ sectionsBy HExceptions calls ++ sectionsBy HThreadSafety calls
      ++ sectionsBy HPerformance calls.
Proof.
  intros calls. unfold SidecarBuilder.build.
  set (made := (λ call : helper * string,
                  SidecarSection.mk (helperHeading call.1) call.2
                    (Some (helperOrder call.1))) <$> calls).
  assert (Hhinted : Forall (λ s, is_Some (SidecarSection.order s)) made).
  { apply Forall_fmap, Forall_true. intros call. by eexists. }
  assert (Hsorted : getSectionsInOrder (foldl callHelper createSidecar calls)
                    = jsSort compareSections made).
  { pose proof (callHelper_sections calls createSidecar) as Hs.
    fold made in Hs. simpl in Hs. unfold getSectionsInOrder.
    destruct (SidecarEntry.sections _) as [ss|]; simpl in Hs.
    - rewrite Hs, filter_all; [done|].
      apply Forall_fmap, Forall_true. intros [[] content]; done.
    - by rewrite <- Hs. }
  rewrite Hsorted.
  rewrite <- (sorted_by_keys [10; 20; 30; 40; 50]%Z (jsSort compareSections made)).
  - cbn [mbind list_bind app]. rewrite app_nil_r.
    rewrite !jsSort_stable by done.
    by rewrite <- !filter_helperOrder.
  - repeat (constructor; [|repeat constructor; lia]). constructor.
  - by apply jsSort_sorted.
  - apply (jsSort_Forall compareSections). apply Forall_fmap, Forall_true.
    intros [h content]. exists (helperOrder h). split; [|done].
    destruct h; simpl; set_solver.
Qed.

(** ** The hierarchy of a namespace key *)

(** Splitting at a separator and joining with it gives the string
    back. *)
Lemma concat_splitOn (sep : ascii) (s : string) :
  String.concat (String sep "") (splitOn sep s) = s.
Proof.
  induction s as [|c s IH]; [done|]. cbn [splitOn].
  destruct (splitOn_cons sep s) as (h & t & Hs). rewrite Hs in IH |- *.
  destruct (Ascii.eqb c sep) eqn:Hc.
  - apply Ascii.eqb_eq in Hc as ->.
    by rewrite concat_cons, IH.
  - destruct t as [|h' t]; [simpl in *; by rewrite IH|].
    rewrite concat_cons in IH |- *. by rewrite append_cons, IH.
Qed.

Lemma splitOn_length sep s :
  stringForall (λ c, negb (Ascii.eqb c sep)) s
  = (length (splitOn sep s) <=? 1).
Proof.
  induction s as [|c s IH]; [done|]. cbn [stringForall splitOn].
  destruct (splitOn_cons sep s) as (h & t & Hs). rewrite Hs in IH |- *.
  destruct (Ascii.eqb c sep); simpl; [done|]. exact IH.
Qed.

Lemma concat_take sep (parts : list string) (n : nat) :
  0 < n → ∃ rest,
    String.concat sep parts = String.concat sep (take n parts) +:+ rest.
Proof.
  revert n. induction parts as [|x parts IH]; intros n Hn.
  - exists "". by rewrite take_nil.
  - destruct n as [|n]; [lia|]. cbn [take].
    destruct parts as [|y parts].
    + exists "". rewrite take_nil. by rewrite append_empty_r.
    + destruct n as [|n].
      * exists (sep +:+ String.concat sep (y :: parts)). by rewrite concat_cons.
      * destruct (IH (S n)) as [rest Hrest]; [lia|].
        exists rest. cbn [take] in *. rewrite !concat_cons, Hrest.
        by rewrite !append_assoc.
Qed.

Lemma imap_element {A} (l : list A) : imap (λ _ x, x) l = l.
Proof. induction l as [|x l IH]; [done|]. cbn [imap]. f_equal. exact IH. Qed.

(** X22. The hierarchy of a namespace key.  A key without a dot, a
    top-level namespace, has no hierarchy.  For a nested key (other
    than the key of the global namespace) the hierarchy names the parts
    of the key in order, so that joining the names with dots gives the
    key back; the last entry links to the page of the key itself and
    every entry links to a prefix of it. *)
Theorem getHierarchy_parts :
  (∀ key : string, hasDot key = false → getHierarchy key = [])
  ∧ ∀ key : string,
      hasDot key = true → key ≠ ".global" →
      HierarchyEntry.name <$> getHierarchy key = splitOn "." key
      ∧ String.concat "." (HierarchyEntry.name <$> getHierarchy key) = key
      ∧ last (HierarchyEntry.path <$> getHierarchy key) = Some ("/api/" +:+ key)
      ∧ Forall (λ entry, ∃ rest,
                  "/api/" +:+ key = HierarchyEntry.path entry +:+ rest)
          (getHierarchy key).
Proof.
  split.
  - intros key Hkey. unfold getHierarchy, hasDot in *.
    apply negb_false_iff in Hkey. rewrite splitOn_length in Hkey.
    rewrite Hkey. by destruct (_ || _).
  - intros key Hkey Hglobal. unfold hasDot in Hkey.
    apply negb_true_iff in Hkey. pose proof Hkey as Hlen.
    rewrite splitOn_length in Hlen.
    assert (Hguard : String.eqb key "" || String.eqb key "global-namespace"
                     || String.eqb key ".global" = false).
    { destruct (String.eqb key "") eqn:H1;
        [apply String.eqb_eq in H1; by subst|].
      destruct (String.eqb key "global-namespace") eqn:H2;
        [apply String.eqb_eq in H2; by subst|].
      destruct (String.eqb key ".global") eqn:H3;
        [by apply String.eqb_eq in H3|done]. }
    unfold getHierarchy. rewrite Hguard, Hlen. cbv zeta.
    assert (Hnames : HierarchyEntry.name
                       <$> imap (λ i name,
                                   HierarchyEntry.mk name
                                     ("/api/" +:+ String.concat "."
                                                    (take (i + 1) (splitOn "." key))))
                                (splitOn "." key)
                     = splitOn "." key).
    { rewrite fmap_imap. etrans; [|apply imap_element].
      apply imap_ext. done. }
    split_and!.
    + exact Hnames.
    + rewrite Hnames. apply concat_splitOn.
    + rewrite fmap_imap.
      set (parts := splitOn "." key) in *.
      destruct (last_is_Some parts) as [_ [x Hx]].
      { destruct (splitOn_cons "." key) as (h & t & Hs). fold parts in Hs.
        by rewrite Hs. }
      rewrite last_lookup in Hx |- *. rewrite length_imap, list_lookup_imap, Hx.
      simpl. do 2 f_equal.
      replace (pred (length parts) + 1) with (length parts).
      * rewrite firstn_all. apply concat_splitOn.
      * apply lookup_lt_Some in Hx. lia.
    + apply Forall_lookup. intros i entry Hi.
      rewrite list_lookup_imap in Hi.
      destruct (splitOn "." key !! i) as [name|]; [|done].
      injection Hi as <-. simpl.
      destruct (concat_take "." (splitOn "." key) (i + 1)) as [rest Hrest]; [lia|].
      exists rest. rewrite concat_splitOn in Hrest.
      rewrite Hrest at 1. by rewrite !append_assoc.
Qed.

Lemma getHierarchy_parts_witness :
  getHierarchy "SFS" = []
  ∧ HierarchyEntry.name <$> getHierarchy "SFS.World.Maps" = ["SFS"; "World"; "Maps"]
  ∧ HierarchyEntry.path <$> getHierarchy "SFS.World.Maps"
    = ["/api/SFS"; "/api/SFS.World"; "/api/SFS.World.Maps"].
Proof.
  split; [by apply (proj1 getHierarchy_parts)|].
  destruct (proj2 getHierarchy_parts "SFS.World.Maps") as (Hnames & _);
    [done|done|].
  split; [by rewrite Hnames|]. vm_compute. reflexivity.
Defined.
